(** * AdventureCoin block explorer: the read-side derivation engine

    A shallow embedding of [lib/data] (block aggregation, pagination,
    mempool enrichment, mining statistics, difficulty history) and of
    [lib/price] (the price cache), with the properties of the design
    document proved over it.

    Conventions of the embedding.
    - An [async] function that can reject is a function into [result]:
      [Ok v] is a fulfilled promise, [Throw e] a rejected one.  [try]/[catch]
      is [try_catch].
    - The MongoDB store is a snapshot: a record of collections.  A collection
      whose reads fail is [Throw]; [connectToDatabase] itself may fail.
    - The node RPC is a record of answers, one per method, each a [result].
    - Integer-valued JS numbers (heights, counts, timestamps, satoshi
      amounts) are [Z]; other numbers are rationals [Q].  A JS number is a
      double: where a result is rounded to an integer or added up (the
      satoshi amounts, the price string) the rounding of the double is
      modelled, by [binary64]; quotients that are only reported are exact.
    - MongoDB fixes the order of sorted documents only up to their sort
      key.  The model keeps documents with equal keys in stored order; the
      properties are stated so that they do not depend on it. *)

From Stdlib Require Import List ZArith QArith Qround Qabs String Ascii Bool Lia.
From Stdlib Require Import Sorting.Sorted Sorting.Permutation.
Import ListNotations.

Local Open Scope string_scope.
Local Open Scope list_scope.
Local Open Scope Z_scope.


(* ------------------------------------------------------------------ *)
(** ** Promises that may reject *)

Inductive error : Type :=
| StorageError   (* a MongoDB call rejected *)
| RpcError       (* rpcCall threw *)
| TypeError      (* a property read on null / undefined *)
| FetchError.    (* the price request failed *)

Inductive result (A : Type) : Type :=
| Ok (a : A)
| Throw (e : error).

Arguments Ok {A} a.
Arguments Throw {A} e.

Definition bind {A B} (r : result A) (k : A -> result B) : result B :=
  match r with
  | Ok a => k a
  | Throw e => Throw e
  end.

Notation "x <- r ;; k" := (bind r (fun x => k))
  (at level 61, r at next level, right associativity).

Definition try_catch {A} (body : result A) (handler : error -> result A)
  : result A :=
  match body with
  | Ok a => Ok a
  | Throw e => handler e
  end.

Definition returns {A} (r : result A) : Prop := exists a, r = Ok a.

Fixpoint mapM {A B} (f : A -> result B) (l : list A) : result (list B) :=
  match l with
  | [] => Ok []
  | x :: l' => y <- f x ;; ys <- mapM f l' ;; Ok (y :: ys)
  end.

(* ------------------------------------------------------------------ *)
(** ** JavaScript and MongoDB primitives *)

(** A value of a MongoDB expression: a missing field, [null], or a value. *)
Inductive value (A : Type) : Type :=
| VMissing
| VNull
| VVal (a : A).

Arguments VMissing {A}.
Arguments VNull {A}.
Arguments VVal {A} a.

(** [$arrayElemAt]: out of bounds gives no result (missing); an array that
    is null or missing gives null. *)
Definition arrayElemAt {A} (arr : value (list A)) (i : nat) : value A :=
  match arr with
  | VVal l => match nth_error l i with
              | Some x => VVal x
              | None => VMissing
              end
  | _ => VNull
  end.

(** [$eq] of an expression value with a string constant. *)
Definition value_eq_str (v : value string) (s : string) : bool :=
  match v with
  | VVal x => String.eqb x s
  | _ => false
  end.

(** Stable insertion: [x] goes before the first element it is [le] to. *)
Fixpoint insert_by {A} (le : A -> A -> bool) (x : A) (l : list A) : list A :=
  match l with
  | [] => [x]
  | y :: l' => if le x y then x :: l else y :: insert_by le x l'
  end.

Definition sort_by {A} (le : A -> A -> bool) (l : list A) : list A :=
  fold_right (insert_by le) [] l.

(** [{ $sort: { key: -1 } }] / [.sort({ key: -1 })] and
    [arr.sort((a, b) => a.key - b.key)].  Array.prototype.sort is stable; the
    server promises no order among documents with equal keys, and the model
    takes the stable one. *)
Definition sort_desc {A} (key : A -> Z) : list A -> list A :=
  sort_by (fun a b => key b <=? key a).
Definition sort_asc {A} (key : A -> Z) : list A -> list A :=
  sort_by (fun a b => key a <=? key b).

(** Aggregation stages [$skip] (non-negative) and [$limit] (positive);
    anything else is rejected by the server. *)
Definition agg_skip {A} (n : Z) (l : list A) : result (list A) :=
  if n <? 0 then Throw StorageError else Ok (skipn (Z.to_nat n) l).
Definition agg_limit {A} (n : Z) (l : list A) : result (list A) :=
  if n <=? 0 then Throw StorageError else Ok (firstn (Z.to_nat n) l).

(** Cursor [.skip(n)] (non-negative) and [.limit(n)]: 0 is no limit, a
    negative limit is its absolute value. *)
Definition cursor_skip {A} (n : Z) (l : list A) : result (list A) :=
  if n <? 0 then Throw StorageError else Ok (skipn (Z.to_nat n) l).
Definition cursor_limit {A} (n : Z) (l : list A) : list A :=
  if n =? 0 then l else firstn (Z.abs_nat n) l.

(** [Math.ceil(a / b)] and [Math.floor(a / b)] on integers, for [b <> 0], as
    the exact quotient rounded up or down.  (For [b = 0] JS gives Infinity
    or NaN, which [Z] does not carry.) *)
Definition math_ceil_div (a b : Z) : Z := Qceiling (inject_Z a / inject_Z b).
Definition math_floor_div (a b : Z) : Z := Qfloor (inject_Z a / inject_Z b).
(** [Math.round(x)]: the nearest integer, ties towards +infinity. *)
Definition math_round (x : Q) : Z := Qfloor (x + (1 # 2)).

(** The nearest integer, ties to the even one. *)
Definition round_half_even (x : Q) : Z :=
  let f := Qfloor x in
  match Qcompare (x - inject_Z f) (1 # 2) with
  | Lt => f
  | Gt => f + 1
  | Eq => if Z.even f then f else f + 1
  end.

(** [floor(log2 a)] for [a > 0]. *)
Definition Qlog2 (a : Q) : Z :=
  let k := Z.log2 (Qnum a) - Z.log2 (Zpos (Qden a)) in
  if Qle_bool (Qpower 2 k) a then k else k - 1.

(** The double nearest to [x] (ties to even): 53 significant bits, the last
    of them no finer than 2^-1074.  Magnitudes are taken below 2^1024, where
    a double overflows to Infinity. *)
Definition binary64 (x : Q) : Q :=
  if Qeq_bool x 0 then 0%Q
  else
    let e := Z.max (Qlog2 (Qabs x) - 52) (-1074) in
    (inject_Z (round_half_even (x / Qpower 2 e)) * Qpower 2 e)%Q.

(** [a * b] on doubles.  A rational that is not a double stands for the
    double nearest to it, as a decimal literal does. *)
Definition js_times (a b : Q) : Q := binary64 (binary64 a * binary64 b).

(** The double nearest to an integer: the integer itself up to 2^53. *)
Definition double_of_Z (n : Z) : Z :=
  let e := Z.log2 (Z.abs n) - 52 in
  if e <=? 0 then n
  else round_half_even (inject_Z n / inject_Z (2 ^ e)) * 2 ^ e.

(** [a + b] on integer-valued doubles. *)
Definition js_plus (a b : Z) : Z := double_of_Z (a + b).

(** [Math.pow(2, n)] for an integer [n]: the exact power up to 2^1023,
    Infinity ([None]) from 2^1024 on.  (A negative [n], whose power is a
    double down to 2^-1074 only, does not arise from a height that is not
    negative.) *)
Definition math_pow2 (n : Z) : option Q :=
  if 1024 <=? n then None else Some (Qpower 2 n).

(** [a / b] where [b] may be Infinity: a finite number over Infinity is 0. *)
Definition div_by (a : Q) (b : option Q) : Q :=
  match b with
  | Some d => (a / d)%Q
  | None => 0%Q
  end.

(** [a || b] on numbers: [b] when [a] is absent or zero. *)
Definition or_num (a : option Q) (b : Q) : Q :=
  match a with
  | Some x => if Qeq_bool x 0 then b else x
  | None => b
  end.
Definition or_int (a : option Z) (b : Z) : Z :=
  match a with
  | Some x => if x =? 0 then b else x
  | None => b
  end.

(* ------------------------------------------------------------------ *)
(** ** Data model *)

(** One entry of [vin] / [vout] of a stored transaction. *)
Record TxIO : Type := mkTxIO {
  addresses : string;      (* an address, or "coinbase" on an input *)
  amount : Z
}.

Record TransactionRecord : Type := mkTx {
  tx_txid : string;
  tx_blockhash : string;
  tx_blockindex : Z;
  tx_timestamp : Z;
  tx_vin : list TxIO;
  tx_vout : list TxIO
}.

Record NetworkHistory : Type := mkNH {
  nh_blockindex : Z;
  nh_timestamp : Z;
  nh_difficulty_pow : option Q;
  nh_difficulty_pos : option Q;
  nh_nethash : option Q
}.

Record CoinStats : Type := mkCS {
  cs_count : Z;
  cs_supply : Q;
  cs_txes : Z;
  cs_connections : Z
}.

Record AddressTx : Type := mkAT {
  at_a_id : string;
  at_txid : string;
  at_blockindex : Z;
  at_amount : Z
}.

Record BlockDoc : Type := mkBlockDoc {
  bd_height : Z;
  bd_hash : string;
  bd_difficulty : option Q;
  bd_timestamp : Z
}.

Record MempoolEntry : Type := mkMP {
  mp_txid : string;
  mp_size : option Z;
  mp_time : option Z;
  mp_fee : option Q
}.

Record MempoolStats : Type := mkMS {
  ms_size : option Z;
  ms_bytes : option Z;
  ms_usage : option Z
}.

Definition coll (A : Type) : Type := result (list A).

Record Database : Type := mkDb {
  txes : coll TransactionRecord;
  networkhistories : coll NetworkHistory;
  coinstats : coll CoinStats;
  addresstxes : coll AddressTx;
  blocks : coll BlockDoc;
  mempool : coll MempoolEntry;
  mempoolstats : coll MempoolStats
}.

(** [findOne]: the first document of the (filtered, sorted) cursor or null. *)
Definition findOne {A} (l : list A) : option A := hd_error l.

(* ------------------------------------------------------------------ *)
(** ** Block aggregation pipeline (getLatestBlocks / getPaginatedBlocks) *)

(** A group of the [$group] stage, with its accumulators. *)
Record BlockGroup : Type := mkGroup {
  g_id : string;                             (* _id: "$blockhash" *)
  g_height : Z;                              (* { $first: "$blockindex" } *)
  g_hash : string;                           (* { $first: "$blockhash" } *)
  g_timestamp : Z;                           (* { $first: "$timestamp" } *)
  g_txCount : Z;                             (* { $sum: 1 } *)
  g_transactions : list TransactionRecord    (* { $push: "$$ROOT" } *)
}.

Definition group_new (t : TransactionRecord) : BlockGroup :=
  mkGroup (tx_blockhash t) (tx_blockindex t) (tx_blockhash t)
          (tx_timestamp t) 1 [t].

Definition group_accumulate (g : BlockGroup) (t : TransactionRecord)
  : BlockGroup :=
  mkGroup (g_id g) (g_height g) (g_hash g) (g_timestamp g)
          (g_txCount g + 1) (g_transactions g ++ [t]).

(** Feed one document to the groups seen so far. *)
Fixpoint group_add (t : TransactionRecord) (gs : list BlockGroup)
  : list BlockGroup :=
  match gs with
  | [] => [group_new t]
  | g :: gs' =>
      if String.eqb (g_id g) (tx_blockhash t)
      then group_accumulate g t :: gs'
      else g :: group_add t gs'
  end.

Definition group_stage (docs : list TransactionRecord) : list BlockGroup :=
  fold_left (fun gs t => group_add t gs) docs [].

(** A derived block: the group after [$addFields] and [$project]. *)
Record DerivedBlock : Type := mkBlock {
  b_id : string;
  height : Z;
  hash : string;
  timestamp : Z;
  txCount : Z;
  minedBy : value string
}.

(** [{ $eq: [{ $arrayElemAt: ["$$this.vin.addresses", 0] }, "coinbase"] }] *)
Definition coinbase_first (t : TransactionRecord) : bool :=
  value_eq_str (arrayElemAt (VVal (map addresses (tx_vin t))) 0) "coinbase".

(** ["$$coinbaseTx.vout.addresses"]: a path through a missing variable is
    missing. *)
Definition vout_addresses (t : value TransactionRecord)
  : value (list string) :=
  match t with
  | VVal t => VVal (map addresses (tx_vout t))
  | VNull => VNull
  | VMissing => VMissing
  end.

Definition minedBy_expr (transactions : list TransactionRecord)
  : value string :=
  let coinbaseTx := arrayElemAt (VVal (filter coinbase_first transactions)) 0 in
  arrayElemAt (vout_addresses coinbaseTx) 0.

Definition addFields_project (g : BlockGroup) : DerivedBlock :=
  mkBlock (g_id g) (g_height g) (g_hash g) (g_timestamp g) (g_txCount g)
          (minedBy_expr (g_transactions g)).

(** The stages shared by both listings, up to the final [$sort]. *)
Definition block_pipeline (docs : list TransactionRecord)
  : list DerivedBlock :=
  sort_desc height
    (map addFields_project (group_stage (sort_desc tx_blockindex docs))).

(** [distinct("blockhash")] *)
Fixpoint distinct (l : list string) : list string :=
  match l with
  | [] => []
  | x :: l' => x :: filter (fun y => negb (String.eqb y x)) (distinct l')
  end.

(* ------------------------------------------------------------------ *)
(** ** The node RPC and the world an operation runs in *)

Record ScriptPubKey : Type := mkSPK {
  spk_addresses : option (list string)
}.

Record RawOutput : Type := mkRawOut {
  ro_value : Q;                              (* in whole coins *)
  ro_scriptPubKey : option ScriptPubKey
}.

Record RawInput : Type := mkRawIn {
  ri_coinbase : option string;
  ri_txid : option string;
  ri_vout : nat
}.

Record RawTx : Type := mkRawTx {
  rt_txid : string;
  rt_vin : option (list RawInput);
  rt_vout : option (list RawOutput)
}.

Record RawMempoolInfo : Type := mkRawMP {
  rm_size : option Z;
  rm_time : option Z;
  rm_fee : option Q
}.

Record MiningInfo : Type := mkMI {
  mi_difficulty : option Q
}.

(** The answers of [rpcCall(method, params)]: [Throw] when the call or the
    node fails, a JSON [null] result as [None]. *)
Record Rpc : Type := mkRpc {
  getrawtransaction : string -> result (option RawTx);
  getmempoolinfo : result (option MempoolStats);
  getrawmempool : result (option (list (string * RawMempoolInfo)));
  getmininginfo : result (option MiningInfo);
  getnetworkhashps : result Q
}.

Record World : Type := mkWorld {
  connectToDatabase : result Database;
  rpc : Rpc;
  now : Z                                    (* Date.now(), milliseconds *)
}.

(** A JS string used as a condition: absent and the empty string are false. *)
Definition truthy_str (s : option string) : bool :=
  match s with
  | Some x => negb (String.eqb x "")
  | None => false
  end.

(* ------------------------------------------------------------------ *)
(** ** Listings *)

Record Pagination : Type := mkPagination {
  currentPage : Z;
  totalPages : Z;
  totalItems : Z
}.

Record BlocksPage : Type := mkBlocksPage {
  bp_blocks : list DerivedBlock;
  bp_pagination : Pagination
}.

Definition getLatestBlocks (w : World) (limit : Z)
  : result (list DerivedBlock) :=
  try_catch
    (db <- connectToDatabase w ;;
     docs <- txes db ;;
     agg_limit limit (block_pipeline docs))
    (fun _ => Ok []).

Definition getPaginatedBlocks (w : World) (page limit : Z)
  : result BlocksPage :=
  db <- connectToDatabase w ;;
  try_catch
    (let skip := (page - 1) * limit in
     docs <- txes db ;;
     let distinctBlockHashes := distinct (map tx_blockhash docs) in
     let totalCount := Z.of_nat (List.length distinctBlockHashes) in
     let totalPages := math_ceil_div totalCount limit in
     docs' <- txes db ;;
     skipped <- agg_skip skip (block_pipeline docs') ;;
     blocks <- agg_limit limit skipped ;;
     Ok (mkBlocksPage blocks (mkPagination page totalPages totalCount)))
    (fun _ => Ok (mkBlocksPage [] (mkPagination page 1 0))).

Record TransactionsPage : Type := mkTxPage {
  tp_transactions : list TransactionRecord;
  tp_pagination : Pagination
}.

Definition getPaginatedTransactions (w : World) (page limit : Z)
  : result TransactionsPage :=
  db <- connectToDatabase w ;;
  docs <- txes db ;;
  let totalCount := Z.of_nat (List.length docs) in
  let totalPages := math_ceil_div totalCount limit in
  let skip := (page - 1) * limit in
  docs' <- txes db ;;
  skipped <- cursor_skip skip (sort_desc tx_timestamp docs') ;;
  let transactions := cursor_limit limit skipped in
  Ok (mkTxPage transactions (mkPagination page totalPages totalCount)).

(** An address-index record with the timestamp of its transaction. *)
Record EnrichedAddressTx : Type := mkEAT {
  eat_record : AddressTx;                    (* ...tx *)
  eat_timestamp : Z
}.

Record AddressTxPage : Type := mkATPage {
  ap_transactions : list EnrichedAddressTx;
  ap_pagination : Pagination
}.

(** The enrichment loop: one [findOne({ txid })] per record, records without
    a transaction are skipped. *)
Fixpoint enrich_address_txs (db : Database) (addressTxs : list AddressTx)
  : result (list EnrichedAddressTx) :=
  match addressTxs with
  | [] => Ok []
  | tx :: rest =>
      docs <- txes db ;;
      let transaction :=
        findOne (filter (fun t => String.eqb (tx_txid t) (at_txid tx)) docs) in
      enrichedTxs <- enrich_address_txs db rest ;;
      match transaction with
      | Some t => Ok (mkEAT tx (tx_timestamp t) :: enrichedTxs)
      | None => Ok enrichedTxs
      end
  end.

Definition getPaginatedAddressTransactions (w : World) (address : string)
  (page limit : Z) : result AddressTxPage :=
  db <- connectToDatabase w ;;
  idx <- addresstxes db ;;
  let matching := filter (fun r => String.eqb (at_a_id r) address) in
  let totalCount := Z.of_nat (List.length (matching idx)) in
  let totalPages := math_ceil_div totalCount limit in
  let skip := (page - 1) * limit in
  idx' <- addresstxes db ;;
  skipped <- cursor_skip skip (sort_desc at_blockindex (matching idx')) ;;
  let addressTxs := cursor_limit limit skipped in
  enrichedTxs <- enrich_address_txs db addressTxs ;;
  Ok (mkATPage enrichedTxs (mkPagination page totalPages totalCount)).

(* ------------------------------------------------------------------ *)
(** ** Single-block views and network statistics *)

Record NetworkStats : Type := mkNS {
  ns_count : Z;
  ns_supply : Q;
  ns_txes : Z;
  ns_connections : Z;
  ns_nethash : Q;
  ns_difficulty_pow : Q;
  ns_difficulty_pos : Q
}.

Definition networkStats_fallback : NetworkStats := mkNS 0 0 0 0 0 0 0.

(** [latestNetworkHistory?.field || 0] *)
Definition nh_field_or0 (f : NetworkHistory -> option Q)
  (latest : option NetworkHistory) : Q :=
  match latest with
  | Some h => or_num (f h) 0
  | None => 0%Q
  end.

Definition getNetworkStats (w : World) : result NetworkStats :=
  try_catch
    (db <- connectToDatabase w ;;
     cs <- coinstats db ;;
     match findOne cs with
     | None => Ok networkStats_fallback
     | Some coinStats =>
         nhs <- networkhistories db ;;
         let latestNetworkHistory := findOne (sort_desc nh_timestamp nhs) in
         Ok (mkNS (cs_count coinStats) (cs_supply coinStats)
                  (cs_txes coinStats) (cs_connections coinStats)
                  (nh_field_or0 nh_nethash latestNetworkHistory / 1000)
                  (nh_field_or0 nh_difficulty_pow latestNetworkHistory)
                  (nh_field_or0 nh_difficulty_pos latestNetworkHistory))
     end)
    (fun _ => Ok networkStats_fallback).

Record BlockDetail : Type := mkBlockDetail {
  bk_hash : string;
  bk_height : Z;
  bk_previousblockhash : option string;
  bk_timestamp : Z;
  bk_txCount : Z;
  bk_merkleroot : string;
  bk_difficulty : option Q;
  bk_nonce : Z;
  bk_size : Z
}.

Definition getBlockByHash (w : World) (h : string)
  : result (option BlockDetail) :=
  db <- connectToDatabase w ;;
  docs <- txes db ;;
  let transactions := filter (fun t => String.eqb (tx_blockhash t) h) docs in
  match transactions with
  | [] => Ok None
  | first :: _ =>
      let blockHeight := tx_blockindex first in
      docs' <- txes db ;;
      let previousBlock :=
        findOne (sort_desc tx_timestamp
                   (filter (fun t => tx_blockindex t =? blockHeight - 1) docs')) in
      nhs <- networkhistories db ;;
      let networkHistory :=
        findOne (sort_desc nh_blockindex
                   (filter (fun n => nh_blockindex n <=? blockHeight) nhs)) in
      Ok (Some (mkBlockDetail h blockHeight
                  (option_map tx_blockhash previousBlock)
                  (tx_timestamp first)
                  (Z.of_nat (List.length transactions))
                  "Not available in this data model"
                  (match networkHistory with
                   | Some n => nh_difficulty_pow n
                   | None => Some 0%Q
                   end)
                  0 0))
  end.

Definition getNextBlockHash (w : World) (currentHeight : Z)
  : result (option string) :=
  try_catch
    (db <- connectToDatabase w ;;
     bs <- blocks db ;;
     let nextBlock :=
       findOne (filter (fun b => bd_height b =? currentHeight + 1) bs) in
     match nextBlock with
     | None =>
         docs <- txes db ;;
         let nextBlockTx :=
           findOne (sort_asc tx_timestamp
                      (filter (fun t => tx_blockindex t =? currentHeight + 1)
                              docs)) in
         match nextBlockTx with
         | Some t => Ok (Some (tx_blockhash t))
         | None => Ok None
         end
     | Some b => Ok (Some (bd_hash b))
     end)
    (fun _ => Ok None).

(* ------------------------------------------------------------------ *)
(** ** Raw transactions, mempool enrichment, transaction detail *)

(** [getRawTransaction]: the RPC answer, [null] when the call fails. *)
Definition getRawTransaction (w : World) (txid : string)
  : result (option RawTx) :=
  try_catch (getrawtransaction (rpc w) txid) (fun _ => Ok None).

Definition SATOSHIS : Q := 100000000.
Definition MEMPOOL_VALUE_DIVISOR : Q := 180000000.

(** [output.scriptPubKey?.addresses || []] *)
Definition output_addresses_opt (output : RawOutput) : list string :=
  match ro_scriptPubKey output with
  | Some spk => match spk_addresses spk with
                | Some l => l
                | None => []
                end
  | None => []
  end.

(** The body of the output loop of getMempoolTransactions; the state is
    ([vout], [totalValue]). *)
Definition mempool_output_step (acc : list TxIO * Z) (output : RawOutput)
  : list TxIO * Z :=
  let addrs := output_addresses_opt output in
  let amt :=
    math_round (js_times (or_num (Some (ro_value output)) 0) SATOSHIS) in
  match addrs with
  | a :: _ => (fst acc ++ [mkTxIO a amt], js_plus (snd acc) amt)
  | [] => acc
  end.

(** The body of the input loop of getMempoolTransactions. *)
Definition mempool_input_step (vin : list TxIO) (input : RawInput)
  : list TxIO :=
  if truthy_str (ri_coinbase input) then vin ++ [mkTxIO "coinbase" 0]
  else if truthy_str (ri_txid input) then vin ++ [mkTxIO "input" 0]
  else vin.

(** A mempool entry after the enrichment loop: [{ ...tx, vin, vout, total,
    value }]. *)
Record EnrichedEntry : Type := mkEE {
  ee_tx : MempoolEntry;
  ee_vin : list TxIO;
  ee_vout : list TxIO;
  ee_total : Z;
  ee_value : Q
}.

Definition enrich_raw (tx : MempoolEntry) (rawTx : RawTx) : EnrichedEntry :=
  let '(vout, totalValue) :=
    match rt_vout rawTx with
    | Some outs => fold_left mempool_output_step outs ([], 0)
    | None => ([], 0)
    end in
  let vin :=
    match rt_vin rawTx with
    | Some ins => fold_left mempool_input_step ins []
    | None => []
    end in
  mkEE tx vin vout totalValue (inject_Z totalValue / MEMPOOL_VALUE_DIVISOR).

Definition enrich_basic (tx : MempoolEntry) : EnrichedEntry :=
  mkEE tx [] [] 0 0.

(** One turn of the enrichment loop, with its own try / catch. *)
Definition enrich_mempool_tx (w : World) (tx : MempoolEntry)
  : result EnrichedEntry :=
  try_catch
    (rawTx <- getRawTransaction w (mp_txid tx) ;;
     match rawTx with
     | Some raw => Ok (enrich_raw tx raw)
     | None => Ok (enrich_basic tx)
     end)
    (fun _ => Ok (enrich_basic tx)).

(** An entry of the final list, after the required fields were filled in. *)
Record MempoolTx : Type := mkMempoolTx {
  m_txid : string;
  m_size : Z;
  m_time : Z;
  m_fee : option Q;
  m_vin : list TxIO;
  m_vout : list TxIO;
  m_total : Z;
  m_value : Q
}.

Definition now_seconds (w : World) : Z := math_floor_div (now w) 1000.

Definition finalize_mempool_tx (w : World) (e : EnrichedEntry) : MempoolTx :=
  mkMempoolTx (mp_txid (ee_tx e))
              (or_int (mp_size (ee_tx e)) 0)
              (or_int (mp_time (ee_tx e)) (now_seconds w))
              (mp_fee (ee_tx e))
              (ee_vin e) (ee_vout e) (ee_total e) (ee_value e).

(** [{ txid, size: info.size || 0, time: info.time || now, fee: info.fee || 0,
    ...info }]: the spread puts back every field [info] has. *)
Definition rpc_mempool_entry (w : World) (e : string * RawMempoolInfo)
  : MempoolEntry :=
  let '(txid, info) := e in
  mkMP txid
       (match rm_size info with Some s => Some s | None => Some 0 end)
       (match rm_time info with
        | Some t => Some t
        | None => Some (now_seconds w)
        end)
       (match rm_fee info with Some f => Some f | None => Some 0%Q end).

Definition stats_zero : MempoolStats := mkMS (Some 0) (Some 0) (Some 0).

Definition merge_stats (info stats : MempoolStats) : MempoolStats :=
  mkMS (Some (or_int (ms_size info) (or_int (ms_size stats) 0)))
       (Some (or_int (ms_bytes info) (or_int (ms_bytes stats) 0)))
       (Some (or_int (ms_usage info) (or_int (ms_usage stats) 0))).

(** The inner try block: the assignments made before a failure stay. *)
Definition mempool_from_rpc (w : World) (dbTransactions : list MempoolEntry)
  (stats : MempoolStats) : list MempoolEntry * MempoolStats :=
  match getmempoolinfo (rpc w) with
  | Ok (Some mempoolInfo) =>
      let stats' := merge_stats mempoolInfo stats in
      match getrawmempool (rpc w) with
      | Ok (Some rawMempool) =>
          let rpcTransactions := map (rpc_mempool_entry w) rawMempool in
          match rpcTransactions with
          | [] => (dbTransactions, stats')
          | _ :: _ => (rpcTransactions, stats')
          end
      | _ => (dbTransactions, stats')
      end
  | _ => (dbTransactions, stats)
  end.

Record MempoolView : Type := mkMempoolView {
  mv_transactions : list MempoolTx;
  mv_stats : MempoolStats
}.

Definition getMempoolTransactions (w : World) : result MempoolView :=
  db <- connectToDatabase w ;;
  try_catch
    (mp <- mempool db ;;
     let dbTransactions :=
       sort_desc (fun e => or_int (mp_time e) 0) mp in
     st <- mempoolstats db ;;
     let stats := match findOne st with Some s => s | None => stats_zero end in
     let '(transactions, stats') := mempool_from_rpc w dbTransactions stats in
     enrichedTransactions <- mapM (enrich_mempool_tx w) (firstn 20 transactions) ;;
     Ok (mkMempoolView (map (finalize_mempool_tx w) enrichedTransactions)
                       stats'))
    (fun _ => Ok (mkMempoolView [] stats_zero)).

(** The pending view built by getTransactionById. *)
Record ProcessedTx : Type := mkProcessed {
  p_txid : string;
  p_timestamp : option Z;
  p_vin : list TxIO;
  p_vout : list TxIO;
  p_total : Z;
  p_isPending : bool
}.

Inductive TransactionDetail : Type :=
| Confirmed (t : TransactionRecord)
| Pending (p : ProcessedTx).

(** [rawTx.vout[i].scriptPubKey.addresses || []]: a missing [scriptPubKey]
    is a TypeError here. *)
Definition output_addresses (output : RawOutput) : result (list string) :=
  match ro_scriptPubKey output with
  | Some spk => Ok (match spk_addresses spk with
                    | Some l => l
                    | None => []
                    end)
  | None => Throw TypeError
  end.

(** The body of the input loop of getTransactionById. *)
Definition detail_input_step (w : World) (vin : list TxIO) (input : RawInput)
  : result (list TxIO) :=
  if truthy_str (ri_coinbase input) then Ok (vin ++ [mkTxIO "coinbase" 0])
  else if truthy_str (ri_txid input) then
    try_catch
      (prevTx <- getRawTransaction w
                   (match ri_txid input with Some t => t | None => "" end) ;;
       match prevTx with
       | Some prev =>
           match rt_vout prev with
           | Some outs =>
               match nth_error outs (ri_vout input) with
               | Some prevOutput =>
                   addrs <- output_addresses prevOutput ;;
                   let amt :=
                     math_round (js_times (ro_value prevOutput) SATOSHIS) in
                   match addrs with
                   | a :: _ => Ok (vin ++ [mkTxIO a amt])
                   | [] => Ok vin
                   end
               | None => Ok vin
               end
           | None => Ok vin
           end
       | None => Ok vin
       end)
      (fun _ => Ok (vin ++ [mkTxIO "unknown" 0]))
  else Ok vin.

(** The body of the output loop of getTransactionById; the state is
    ([vout], [total]). *)
Definition detail_output_step (acc : list TxIO * Z) (output : RawOutput)
  : result (list TxIO * Z) :=
  addrs <- output_addresses output ;;
  let amt := math_round (js_times (ro_value output) SATOSHIS) in
  match addrs with
  | a :: _ => Ok (fst acc ++ [mkTxIO a amt], js_plus (snd acc) amt)
  | [] => Ok acc
  end.

Fixpoint foldM {A B} (f : A -> B -> result A) (l : list B) (a : A)
  : result A :=
  match l with
  | [] => Ok a
  | x :: l' => a' <- f a x ;; foldM f l' a'
  end.

Definition process_raw (w : World) (mempoolTx : MempoolEntry) (rawTx : RawTx)
  : result ProcessedTx :=
  vin <- match rt_vin rawTx with
         | Some ins => foldM (detail_input_step w) ins []
         | None => Ok []
         end ;;
  out <- match rt_vout rawTx with
         | Some outs => foldM detail_output_step outs ([], 0)
         | None => Ok ([], 0)
         end ;;
  Ok (mkProcessed (rt_txid rawTx) (mp_time mempoolTx) vin (fst out) (snd out)
                  true).

Definition pending_fallback (mempoolTx : MempoolEntry) : ProcessedTx :=
  mkProcessed (mp_txid mempoolTx) (mp_time mempoolTx) [] [] 0 true.

Definition getTransactionById (w : World) (txid : string)
  : result (option TransactionDetail) :=
  db <- connectToDatabase w ;;
  docs <- txes db ;;
  match findOne (filter (fun t => String.eqb (tx_txid t) txid) docs) with
  | Some transaction => Ok (Some (Confirmed transaction))
  | None =>
      mp <- mempool db ;;
      match findOne (filter (fun e => String.eqb (mp_txid e) txid) mp) with
      | Some mempoolTx =>
          attempt <-
            try_catch
              (rawTx <- getRawTransaction w txid ;;
               match rawTx with
               | Some raw => p <- process_raw w mempoolTx raw ;; Ok (Some p)
               | None => Ok None
               end)
              (fun _ => Ok None) ;;
          match attempt with
          | Some p => Ok (Some (Pending p))
          | None => Ok (Some (Pending (pending_fallback mempoolTx)))
          end
      | None => Ok None
      end
  end.

(* ------------------------------------------------------------------ *)
(** ** Mining statistics and the halving schedule *)

Inductive HalvingStatus : Type := past | active | future.

Record HalvingEntry : Type := mkHalving {
  hv_halving : Z;
  hv_height : Z;
  hv_reward : Q;
  hv_supply : Z;
  hv_date : string;
  hv_status : HalvingStatus
}.

Record SpecialBlock : Type := mkSpecial {
  sb_height : Z;
  sb_reward : Z;
  sb_description : string;
  sb_hash : option string
}.

Record MiningStats : Type := mkMiningStats {
  st_blocks : Z;
  st_difficulty : Q;
  st_networkhashps : Q;
  currentReward : Q;
  nextHalvingHeight : Z;
  blocksUntilHalving : Z;
  daysUntilHalving : Q;
  halvingSchedule : list HalvingEntry;
  maxSupply : Z;
  currentSupply : Q;
  st_blockTime : Z;
  retargetInterval : Z;
  specialBlocks : list SpecialBlock
}.

Definition blockReward : Z := 300.
Definition halvingInterval : Z := 300000.
Definition blockTime : Z := 180.

(** [currentHalvingCycle === k ? "active" : currentBlock >= h ? "past"
    : "future"] *)
Definition status_at (currentHalvingCycle currentBlock k h : Z)
  : HalvingStatus :=
  if currentHalvingCycle =? k then active
  else if h <=? currentBlock then past else future.

Definition halving_table (currentHalvingCycle currentBlock : Z)
  : list HalvingEntry :=
  let st := status_at currentHalvingCycle currentBlock in
  [ mkHalving 0 0 300 0 "Apr 2025"
      (if currentHalvingCycle =? 0 then active else past);
    mkHalving 1 300000 150 135000000 "Jan 2027" (st 1 300000);
    mkHalving 2 600000 75 157500000 "Oct 2028" (st 2 600000);
    mkHalving 3 900000 (75 # 2) 168750000 "Jun 2030" (st 3 900000);
    mkHalving 4 1200000 (75 # 4) 174375000 "Mar 2032" (st 4 1200000);
    mkHalving 5 1500000 (75 # 8) 177187500 "Nov 2033" (st 5 1500000);
    mkHalving 6 1800000 (75 # 16) 178593750 "Aug 2035" (st 6 1800000);
    mkHalving 7 2100000 (75 # 32) 179296875 "Apr 2037" (st 7 2100000);
    mkHalving 8 2400000 (75 # 64) 179296875 "Jan 2039" (st 8 2400000);
    mkHalving 9 2700000 (75 # 128) 179912109 "Oct 2040" (st 9 2700000);
    mkHalving 10 3000000 (75 # 256) 179912109 "May 2042" (st 10 3000000) ].

Definition special_blocks_init : list SpecialBlock :=
  [ mkSpecial 1 0 "Relaunch distribution" None;
    mkSpecial 2 0 "Relaunch distribution" None;
    mkSpecial 3 0 "Relaunch distribution" None ].

(** The loop over the special blocks; a failing read ends it and leaves the
    remaining entries as they are. *)
Fixpoint special_blocks_loop (db : Database) (bs : list SpecialBlock)
  : list SpecialBlock :=
  match bs with
  | [] => []
  | b :: rest =>
      match txes db with
      | Throw _ => bs
      | Ok docs =>
          match findOne (filter (fun t => tx_blockindex t =? sb_height b) docs)
          with
          | Some tx =>
              mkSpecial (sb_height b) (sb_reward b) (sb_description b)
                        (Some (tx_blockhash tx))
              :: special_blocks_loop db rest
          | None => b :: special_blocks_loop db rest
          end
      end
  end.

(** The RPC block of getMiningStats: difficulty and hash rate, starting from
    the stored values. *)
Definition mining_from_rpc (w : World) (difficulty networkhashps : Q)
  : Q * Q :=
  match getmininginfo (rpc w) with
  | Ok (Some miningInfo) =>
      let difficulty' := or_num (mi_difficulty miningInfo) difficulty in
      match getnetworkhashps (rpc w) with
      | Ok hashps =>
          if Qeq_bool hashps 0 then (difficulty', networkhashps)
          else (difficulty', (hashps / 1000)%Q)
      | Throw _ => (difficulty', networkhashps)
      end
  | _ => (difficulty, networkhashps)
  end.

Definition getMiningStats (w : World) : result MiningStats :=
  db <- connectToDatabase w ;;
  cs <- coinstats db ;;
  match findOne cs with
  | None => Throw TypeError                  (* coinStats.count on null *)
  | Some coinStats =>
      let currentBlock := cs_count coinStats in
      nhs <- networkhistories db ;;
      let latestNetworkHistory := findOne (sort_desc nh_timestamp nhs) in
      let '(difficulty, networkhashps) :=
        mining_from_rpc w
          (nh_field_or0 nh_difficulty_pow latestNetworkHistory)
          (nh_field_or0 nh_nethash latestNetworkHistory / 1000)%Q in
      let currentHalvingCycle := math_floor_div currentBlock halvingInterval in
      let currentReward :=
        div_by (inject_Z blockReward) (math_pow2 currentHalvingCycle) in
      let nextHalvingHeight := (currentHalvingCycle + 1) * halvingInterval in
      let blocksUntilHalving := nextHalvingHeight - currentBlock in
      let daysUntilHalving :=
        (inject_Z (blocksUntilHalving * blockTime)
         / inject_Z (60 * 60 * 24))%Q in
      Ok (mkMiningStats currentBlock difficulty networkhashps currentReward
            nextHalvingHeight blocksUntilHalving daysUntilHalving
            (halving_table currentHalvingCycle currentBlock)
            180000000 (cs_supply coinStats) blockTime 3
            (special_blocks_loop db special_blocks_init))
  end.

(* ------------------------------------------------------------------ *)
(** ** Difficulty history *)

Record DifficultyPoint : Type := mkDP {
  blockHeight : Z;
  difficulty : option Q;
  dp_timestamp : Z
}.

Definition point_of_history (history : NetworkHistory) : DifficultyPoint :=
  mkDP (nh_blockindex history) (nh_difficulty_pow history)
       (nh_timestamp history).

Definition point_of_block (block : BlockDoc) : DifficultyPoint :=
  mkDP (bd_height block) (Some (or_num (bd_difficulty block) 0))
       (bd_timestamp block).

(** One turn of the reconstruction loop: a height with no transaction adds
    nothing. *)
Definition reconstruct_step (db : Database) (difficultyData : list DifficultyPoint)
  (h : Z) : result (list DifficultyPoint) :=
  docs <- txes db ;;
  match findOne (filter (fun t => tx_blockindex t =? h) docs) with
  | Some tx =>
      nhs <- networkhistories db ;;
      let networkData :=
        findOne (sort_desc nh_blockindex
                   (filter (fun n => nh_blockindex n <=? h) nhs)) in
      Ok (difficultyData
          ++ [mkDP h (Some (nh_field_or0 nh_difficulty_pow networkData))
                   (tx_timestamp tx)])
  | None => Ok difficultyData
  end.

(** [Array.from({ length: limit }, (_, i) => startHeight + i)
      .filter((height) => height <= latestHeight)] *)
Definition block_heights (startHeight latestHeight limit : Z) : list Z :=
  filter (fun h => h <=? latestHeight)
         (map (fun i => startHeight + Z.of_nat i) (seq 0 (Z.to_nat limit))).

Definition getDifficultyHistory (w : World) (limit : Z)
  : result (list DifficultyPoint) :=
  db <- connectToDatabase w ;;
  try_catch
    (nhs <- networkhistories db ;;
     let networkHistory := cursor_limit limit (sort_desc nh_blockindex nhs) in
     match networkHistory with
     | _ :: _ =>
         Ok (map point_of_history (sort_asc nh_blockindex networkHistory))
     | [] =>
         bs <- blocks db ;;
         let blocks := cursor_limit limit (sort_desc bd_height bs) in
         match blocks with
         | _ :: _ => Ok (map point_of_block (sort_asc bd_height blocks))
         | [] =>
             docs <- txes db ;;
             let latestTxs := cursor_limit 1 (sort_desc tx_blockindex docs) in
             match latestTxs with
             | [] => Ok []
             | latest :: _ =>
                 let latestHeight := tx_blockindex latest in
                 let startHeight := Z.max 1 (latestHeight - limit + 1) in
                 let blockHeights :=
                   block_heights startHeight latestHeight limit in
                 difficultyData <- foldM (reconstruct_step db) blockHeights [] ;;
                 Ok (sort_asc blockHeight difficultyData)
             end
         end
     end)
    (fun _ => Ok []).

(* ------------------------------------------------------------------ *)
(** ** The price cache (lib/price) *)

Definition CACHE_DURATION : Z := 20 * 60 * 1000.

Record PriceCache : Type := mkPriceCache {
  price : string;
  pc_timestamp : Z
}.

(** What the request to the price feed does. *)
Inductive FetchOutcome : Type :=
| FetchRejects              (* fetch() or response.json() throws *)
| ResponseNotOk             (* !response.ok *)
| InvalidFormat             (* no numeric data.quotes.USD.price *)
| Quote (usd : Q).          (* data.quotes.USD.price *)

Definition digit (d : Z) : ascii := ascii_of_nat (48 + Z.to_nat d).

(** The last [k] decimal digits of [n], in front of [acc]. *)
Fixpoint fixed_digits (k : nat) (n : Z) (acc : string) : string :=
  match k with
  | O => acc
  | S k' => fixed_digits k' (n / 10) (String (digit (n mod 10)) acc)
  end.

(** The decimal digits of [n >= 0], at least one; [fuel] bounds their
    number. *)
Fixpoint all_digits (fuel : nat) (n : Z) (acc : string) : string :=
  match fuel with
  | O => acc
  | S fuel' =>
      let acc' := String (digit (n mod 10)) acc in
      if n / 10 =? 0 then acc' else all_digits fuel' (n / 10) acc'
  end.

(** [x.toFixed(6)] for a double [x] below 1e21: the multiple of 1e-6
    nearest to the double, ties away from zero. *)
Definition toFixed6 (x : Q) : string :=
  let a := Qabs (binary64 x) in
  let n := Qfloor (a * 1000000 + (1 # 2)) in
  let body :=
    all_digits 22 (n / 1000000)
      (String "."%char (fixed_digits 6 (n mod 1000000) "")) in
  if Qlt_le_dec x 0 then String "-"%char body else body.

(** Which return statement served the price. *)
Inductive Served : Type :=
| FromValidCache            (* the first return, no request made *)
| FromFetch                 (* the price just fetched *)
| FromStaleCache            (* the catch block, old cached price *)
| FromDefault.              (* the catch block, "0.000000" *)

Record PriceQuery : Type := mkQuery {
  q_now : Z;                (* Date.now() at the validity check *)
  q_fetch : FetchOutcome;   (* what a request would do *)
  q_now_stored : Z          (* Date.now() when the cache is written *)
}.

Record PriceReply : Type := mkReply {
  returned : string;
  served : Served;
  cache_after : option PriceCache
}.

Definition fetch_attempted (r : PriceReply) : bool :=
  match served r with
  | FromValidCache => false
  | _ => true
  end.

Definition getADVCPrice (priceCache : option PriceCache) (q : PriceQuery)
  : PriceReply :=
  let refresh :=
    match q_fetch q with
    | Quote usd =>
        let priceStr := toFixed6 usd in
        mkReply priceStr FromFetch
                (Some (mkPriceCache priceStr (q_now_stored q)))
    | _ =>
        match priceCache with
        | Some c => mkReply (price c) FromStaleCache priceCache
        | None => mkReply "0.000000" FromDefault priceCache
        end
    end in
  match priceCache with
  | Some c =>
      if q_now q - pc_timestamp c <? CACHE_DURATION
      then mkReply (price c) FromValidCache priceCache
      else refresh
  | None => refresh
  end.

(** A run of calls, each starting from the cache the previous one left. *)
Fixpoint run_queries (priceCache : option PriceCache) (qs : list PriceQuery)
  : list PriceReply :=
  match qs with
  | [] => []
  | q :: qs' =>
      let r := getADVCPrice priceCache q in
      r :: run_queries (cache_after r) qs'
  end.

Definition final_cache (priceCache : option PriceCache) (qs : list PriceQuery)
  : option PriceCache :=
  fold_left (fun c q => cache_after (getADVCPrice c q)) qs priceCache.

(* ------------------------------------------------------------------ *)
(** ** The remaining reads of lib/data *)

Definition getRecentTransactions (w : World) (limit : Z)
  : result (list TransactionRecord) :=
  try_catch
    (db <- connectToDatabase w ;;
     docs <- txes db ;;
     Ok (cursor_limit limit (sort_desc tx_timestamp docs)))
    (fun _ => Ok []).

Definition getTransactionsByBlockHash (w : World) (h : string)
  : result (list TransactionRecord) :=
  db <- connectToDatabase w ;;
  docs <- txes db ;;
  Ok (filter (fun t => String.eqb (tx_blockhash t) h) docs).

Definition getAddressTransactions (w : World) (address : string) (limit : Z)
  : result (list EnrichedAddressTx) :=
  db <- connectToDatabase w ;;
  idx <- addresstxes db ;;
  let addressTxs :=
    cursor_limit limit
      (sort_desc at_blockindex
         (filter (fun r => String.eqb (at_a_id r) address) idx)) in
  enrich_address_txs db addressTxs.

Definition getNetworkHistory (w : World) (limit : Z)
  : result (list NetworkHistory) :=
  db <- connectToDatabase w ;;
  nhs <- networkhistories db ;;
  Ok (cursor_limit limit (sort_desc nh_timestamp nhs)).

(** A document of the [addresses] collection. *)
Record AddressRecord : Type := mkAddress {
  a_id : string;
  balance : Z
}.

(** getRichList and getAddressInfo read the [addresses] collection, which
    the store record above does not carry; it is passed alongside the
    world, and is read only once the connection is made. *)
Definition getRichList (w : World) (addresses : coll AddressRecord)
  (limit : Z) : result (list AddressRecord) :=
  db <- connectToDatabase w ;;
  docs <- addresses ;;
  Ok (cursor_limit limit (sort_desc balance docs)).

Definition getAddressInfo (w : World) (addresses : coll AddressRecord)
  (address : string) : result (option AddressRecord) :=
  db <- connectToDatabase w ;;
  docs <- addresses ;;
  Ok (findOne (filter (fun a => String.eqb (a_id a) address) docs)).

(** A document of the [peerinfo] collection, or an entry of the node's
    answer to [getpeerinfo]. *)
Record PeerInfo : Type := mkPeer {
  peer_addr : string;
  peer_lastsend : Z
}.

(** getPeerInfo reads the [peerinfo] collection and calls [getpeerinfo];
    both are passed alongside the world. *)
Definition getPeerInfo (w : World) (peerinfo : coll PeerInfo)
  (getpeerinfo : result (list PeerInfo)) : result (list PeerInfo) :=
  try_catch
    (db <- connectToDatabase w ;;
     docs <- peerinfo ;;
     let peerInfo := sort_desc peer_lastsend docs in
     match peerInfo with
     | _ :: _ => Ok peerInfo
     | [] => try_catch getpeerinfo (fun _ => Ok [])
     end)
    (fun _ => Ok []).

(* ------------------------------------------------------------------ *)
(** ** Known addresses (lib/known-addresses) *)

Inductive AddressType : Type := dev | pool | exchange | service | team | other.

Record KnownAddress : Type := mkKnown {
  ka_address : string;
  ka_tag : string;
  ka_description : option string;
  ka_url : option string;
  ka_type : AddressType
}.

Definition knownAddresses : list KnownAddress :=
  [ mkKnown "AeD4pPi3D5kB9aMEgH3eRHoD6XMKbrpRAW" "Dev Fund (Master Wallet)"
      (Some "AdventureCoin Development Fund (Master Wallet)") None dev;
    mkKnown "AKUg58E171GVJNw2RQzooQnuHs1zns2ecD" "Development Wallet"
      (Some "Team wallet") None team;
    mkKnown "AJzNjXgPYUGe9cmWz2ND7hrEYA1AiwpggX" "Community Wallet"
      (Some "Team wallet") None team;
    mkKnown "Ac2DHE6freiBENuzZ3VTfY8zwwKc2oX2Fw" "Charity Wallet"
      (Some "Team wallet") None team;
    mkKnown "AMmKZs3GTWQnGdk3WjR9Q35cizHDVtHjie" "Staff Payment Wallet"
      (Some "Team wallet") None team;
    mkKnown "AREstbeSFzzbMGToUF6E2i3DbPa5nJB4Lz" "NovaGrid"
      (Some "Mining Pool") (Some "https://novagrid.online/") pool;
    mkKnown "Ae5vqtfRFKWYVfgCzyR4iat8FuKfLH4jve" "Coin Miners"
      (Some "Mining Pool") (Some "https://pool.coin-miners.info/") pool;
    mkKnown "AXRdunEc71n9oKLyLabAzV9eATRgkmGzMd" "RPlant"
      (Some "Mining Pool") (Some "https://pool.rplant.xyz") pool;
    mkKnown "AKeNU8umLeCy4ZDJP5fkqM69VQEg4ydhka" "Eve Pool"
      (Some "Mining Pool") (Some "https://mine.evepool.pw") pool;
    mkKnown "AVayH8jK94vSHoden4UFjwnWqPGSEQvYpf" "Zerg Pool"
      (Some "Mining Pool") (Some "https://zergpool.com") pool;
    mkKnown "AQz6FkTNb3V5eMR42ui1YMge7vWMbgPNQq" "NestEx"
      (Some "Exchange") (Some "https://trade.nestex.one") exchange;
    mkKnown "AWxxu9EGYB6yjzaFuYBrW5UQ7LBTfdhbXf" "NestEx"
      (Some "Exchange") (Some "https://trade.nestex.one") exchange;
    mkKnown "AbsPyiG15Xn9ppKmCMNDmTBw41mJA963gC" "NestEx"
      (Some "Exchange") (Some "https://trade.nestex.one") exchange;
    mkKnown "AGiTbrSMmEMdqqp28T2V1iwFkmjUzDSguP" "NestEx"
      (Some "Exchange") (Some "https://trade.nestex.one") exchange;
    mkKnown "ASjX2TfboXYayMFc21K1DGvMsW9GT1kJKe" "NestEx"
      (Some "Exchange") (Some "https://trade.nestex.one") exchange ].

(** The own properties of a plain JS object, in insertion order. *)
Definition JsObject (V : Type) : Type := list (string * V).

(** [acc[k] = v] for a key other than "__proto__": an existing property is
    overwritten in place, a new one is added last. *)
Fixpoint obj_set {V} (acc : JsObject V) (k : string) (v : V) : JsObject V :=
  match acc with
  | [] => [(k, v)]
  | (k', v') :: rest =>
      if String.eqb k' k then (k, v) :: rest
      else (k', v') :: obj_set rest k v
  end.

Fixpoint obj_own {V} (o : JsObject V) (k : string) : option V :=
  match o with
  | [] => None
  | (k', v) :: rest => if String.eqb k' k then Some v else obj_own rest k
  end.

(** The property names every plain object inherits from Object.prototype. *)
Definition object_prototype_keys : list string :=
  [ "constructor"; "__defineGetter__"; "__defineSetter__"; "hasOwnProperty";
    "__lookupGetter__"; "__lookupSetter__"; "isPrototypeOf";
    "propertyIsEnumerable"; "toString"; "valueOf"; "__proto__";
    "toLocaleString" ].

(** The value of [o[k]]: an own property, something inherited from
    Object.prototype, or undefined. *)
Inductive jsget (V : Type) : Type :=
| Own (v : V)
| Inherited
| Undefined.

Arguments Own {V} v.
Arguments Inherited {V}.
Arguments Undefined {V}.

Definition obj_get {V} (o : JsObject V) (k : string) : jsget V :=
  match obj_own o k with
  | Some v => Own v
  | None =>
      if existsb (String.eqb k) object_prototype_keys then Inherited
      else Undefined
  end.

(** [knownAddresses.reduce((acc, addr) => { acc[addr.address] = addr;
    return acc }, {})] *)
Definition knownAddressesMap : JsObject KnownAddress :=
  fold_left (fun acc addr => obj_set acc (ka_address addr) addr)
            knownAddresses [].

(** [knownAddressesMap[address] || null]: an inherited member is truthy and
    is returned as it is; only undefined becomes null. *)
Definition getKnownAddress (address : string) : jsget KnownAddress :=
  obj_get knownAddressesMap address.

(** [knownAddressesMap[address]?.tag || null]: inherited members have no
    [tag]; an empty tag is falsy. *)
Definition getAddressTag (address : string) : option string :=
  match obj_get knownAddressesMap address with
  | Own k => if String.eqb (ka_tag k) "" then None else Some (ka_tag k)
  | _ => None
  end.

(* ------------------------------------------------------------------ *)
(** ** Vocabulary of the properties, and a concrete store *)

Definition ascending {A} (key : A -> Z) : list A -> Prop :=
  StronglySorted (fun a b => key a <= key b).

(** The transactions of [docs] that share the block hash [h]. *)
Definition group_of (docs : list TransactionRecord) (h : string)
  : list TransactionRecord :=
  filter (fun t => String.eqb (tx_blockhash t) h) docs.

(** The first input carries the "coinbase" marker. *)
Definition coinbase_marked (t : TransactionRecord) : bool :=
  match tx_vin t with
  | i :: _ => String.eqb (addresses i) "coinbase"
  | [] => false
  end.

(** The address of the first output; a transaction without outputs has
    none. *)
Definition first_output_address (t : TransactionRecord) : value string :=
  match tx_vout t with
  | o :: _ => VVal (addresses o)
  | [] => VMissing
  end.

(** What a group accumulated, in terms of the documents seen so far. *)
Definition group_good (seen : list TransactionRecord) (g : BlockGroup)
  : Prop :=
  g_transactions g = group_of seen (g_id g)
  /\ g_txCount g = Z.of_nat (List.length (g_transactions g))
  /\ g_hash g = g_id g
  /\ exists first rest,
       g_transactions g = first :: rest
       /\ g_height g = tx_blockindex first
       /\ g_timestamp g = tx_timestamp first.

(** What the aggregation derives from the stored group of [b]'s hash: [b]
    counts the group, and names as miner the first output address of a
    member whose first input carries the coinbase marker (of the member, if
    there is one only), or null if no member has such an input. *)
Definition derived_from (docs : list TransactionRecord) (b : DerivedBlock)
  : Prop :=
  let group := group_of docs (hash b) in
  group <> []
  /\ txCount b = Z.of_nat (List.length group)
  /\ (minedBy b = VNull <-> forall t, In t group -> coinbase_marked t = false)
  /\ ((exists t, In t group /\ coinbase_marked t = true) ->
      exists t, In t group /\ coinbase_marked t = true
                /\ minedBy b = first_output_address t)
  /\ (forall t, In t group -> coinbase_marked t = true ->
        (forall t', In t' group -> coinbase_marked t' = true -> t' = t) ->
        minedBy b = first_output_address t).

(** The blocks of a listing that carry the hash [h]. *)
Definition blocks_with_hash (h : string) (bs : list DerivedBlock)
  : list DerivedBlock :=
  filter (fun b => String.eqb (hash b) h) bs.

(** A block returned by one of the two listings. *)
Definition listed_block (w : World) (b : DerivedBlock) : Prop :=
  (exists page limit r,
      getPaginatedBlocks w page limit = Ok r /\ In b (bp_blocks r))
  \/ (exists limit bs, getLatestBlocks w limit = Ok bs /\ In b bs).

(** The page a listing would return for a collection of [n] items. *)
Definition page_ok (n page limit : Z) (p : Pagination) (len : Z) : Prop :=
  currentPage p = page
  /\ totalItems p = n
  /\ totalPages p = math_ceil_div n limit
  /\ (totalPages p - 1) * limit < n <= totalPages p * limit
  /\ len = Z.min limit (Z.max 0 (n - (page - 1) * limit))
  /\ len <= limit
  /\ (page <= totalPages p -> len = Z.min limit (n - (page - 1) * limit)).

(** The cache holds a price less than CACHE_DURATION old at time [t]. *)
Definition cache_valid (priceCache : option PriceCache) (t : Z) : bool :=
  match priceCache with
  | Some c => t - pc_timestamp c <? CACHE_DURATION
  | None => false
  end.

Definition fetch_fails (o : FetchOutcome) : bool :=
  match o with
  | Quote _ => false
  | _ => true
  end.

(** The output's [scriptPubKey] carries at least one address. *)
Definition has_address (o : RawOutput) : bool :=
  match ro_scriptPubKey o with
  | Some (mkSPK (Some (_ :: _))) => true
  | _ => false
  end.

Definition first_address (o : RawOutput) : string :=
  match ro_scriptPubKey o with
  | Some (mkSPK (Some (a :: _))) => a
  | _ => ""
  end.

(** The output's value in the smallest unit:
    [Math.round(output.value * 100000000)]. *)
Definition scaled_amount (o : RawOutput) : Z :=
  math_round (js_times (ro_value o) 100000000).

Definition enriched_output (o : RawOutput) : TxIO :=
  mkTxIO (first_address o) (scaled_amount o).

Definition sum_Z (l : list Z) : Z := fold_right Z.add 0 l.

(** The sum as JS adds it up: from 0, entry by entry, each partial sum a
    double. *)
Definition js_sum (l : list Z) : Z := fold_left js_plus l 0.

Definition sum_amounts (l : list TxIO) : Z := js_sum (map amount l).

(** The amounts add up within the integers a double holds exactly. *)
Definition exact_range (l : list TxIO) : Prop :=
  sum_Z (map (fun io => Z.abs (amount io)) l) <= 2 ^ 53.

(** The outputs a raw transaction lists. *)
Definition raw_outputs (raw : RawTx) : list RawOutput :=
  match rt_vout raw with
  | Some outs => outs
  | None => []
  end.



(** A raw coinbase transaction paying 5 coins to address X. *)
Definition example_raw : RawTx :=
  mkRawTx "m1"
    (Some [mkRawIn (Some "04ffff001d") None 0])
    (Some [mkRawOut 5 (Some (mkSPK (Some ["X"])))]).

(** The stored transaction with a given id, if any. *)
Definition tx_of (docs : list TransactionRecord) (txid : string)
  : option TransactionRecord :=
  find (fun t => String.eqb (tx_txid t) txid) docs.

(** The join of index records with the transaction log. *)
Definition joined (docs : list TransactionRecord) (recs : list AddressTx)
  : list EnrichedAddressTx :=
  flat_map (fun r => match tx_of docs (at_txid r) with
                     | Some t => [mkEAT r (tx_timestamp t)]
                     | None => []
                     end) recs.

Definition index_of (idx : list AddressTx) (address : string)
  : list AddressTx :=
  filter (fun r => String.eqb (at_a_id r) address) idx.

(** The point reconstructed for height [h], if the log has a transaction at
    that height. *)
Definition point_at (docs : list TransactionRecord)
  (nhs : list NetworkHistory) (h : Z) : list DifficultyPoint :=
  match find (fun t => tx_blockindex t =? h) docs with
  | Some tx =>
      [mkDP h
         (Some (nh_field_or0 nh_difficulty_pow
                  (findOne (sort_desc nh_blockindex
                              (filter (fun n => nh_blockindex n <=? h) nhs)))))
         (tx_timestamp tx)]
  | None => []
  end.

Definition tx_cb : TransactionRecord :=
  mkTx "t1" "h5" 5 1000 [mkTxIO "coinbase" 0] [mkTxIO "miner1" 300].
Definition tx_pay : TransactionRecord :=
  mkTx "t2" "h5" 5 1001 [mkTxIO "alice" 50] [mkTxIO "bob" 49].
Definition tx_old : TransactionRecord :=
  mkTx "t0" "h4" 4 900 [mkTxIO "carol" 5] [mkTxIO "dave" 5].

Definition example_txes : list TransactionRecord := [tx_old; tx_cb; tx_pay].

Definition example_index : list AddressTx :=
  [ mkAT "bob" "t2" 5 49; mkAT "bob" "gone" 3 7; mkAT "dave" "t0" 4 5 ].

Definition example_blocks : list BlockDoc :=
  [ mkBlockDoc 3 "h3" (Some 12%Q) 700; mkBlockDoc 1 "h1" None 500;
    mkBlockDoc 5 "h5" (Some 14%Q) 1000; mkBlockDoc 2 "h2" (Some 11%Q) 600;
    mkBlockDoc 4 "h4" (Some 13%Q) 900 ].

Definition example_mempool : list MempoolEntry :=
  [ mkMP "m1" (Some 225) (Some 1100) (Some (1 # 1000)) ].

Definition example_db : Database :=
  mkDb (Ok example_txes) (Ok []) (Ok [mkCS 450000 135000000 3 8])
       (Ok example_index) (Ok example_blocks) (Ok example_mempool) (Ok []).

Definition example_rpc : Rpc :=
  mkRpc (fun txid => if String.eqb txid "m1" then Ok (Some example_raw)
                     else Throw RpcError)
        (Throw RpcError) (Throw RpcError) (Throw RpcError) (Throw RpcError).

Definition example_world : World :=
  mkWorld (Ok example_db) example_rpc 1700000000000.

(** The same node with the database unreachable. *)
Definition world_down : World :=
  mkWorld (Throw StorageError) example_rpc 1700000000000.

(** The same store with the transaction log unreadable. *)
Definition unreadable_log_db : Database :=
  mkDb (Throw StorageError) (Ok []) (Ok [mkCS 450000 135000000 3 8])
       (Ok example_index) (Ok example_blocks) (Ok example_mempool) (Ok []).

Definition unreadable_log_world : World :=
  mkWorld (Ok unreadable_log_db) example_rpc 1700000000000.



Definition some_addresses (l : list string) : option ScriptPubKey :=
  Some (mkSPK (Some l)).









(** A pending transaction that spends three earlier outputs: one the node
    knows, one of a transaction the node cannot give, and one that has no
    [scriptPubKey]. *)
Definition spend_raw : RawTx :=
  mkRawTx "m5"
    (Some [mkRawIn None (Some "p1") 0;
           mkRawIn None (Some "p2") 0;
           mkRawIn None (Some "p4") 0])
    (Some [mkRawOut 3 (some_addresses ["Y"])]).

Definition paid_raw : RawTx :=
  mkRawTx "p1" (Some []) (Some [mkRawOut 2 (some_addresses ["alice"])]).

Definition keyless_raw : RawTx :=
  mkRawTx "p4" (Some []) (Some [mkRawOut 1 None]).

Definition spend_db : Database :=
  mkDb (Ok example_txes) (Ok []) (Ok [mkCS 450000 135000000 3 8])
       (Ok example_index) (Ok example_blocks)
       (Ok [mkMP "m5" (Some 300) (Some 1500) None]) (Ok []).

Definition spend_world : World :=
  mkWorld (Ok spend_db)
    (mkRpc (fun txid => if String.eqb txid "m5" then Ok (Some spend_raw)
                        else if String.eqb txid "p1" then Ok (Some paid_raw)
                        else if String.eqb txid "p4" then Ok (Some keyless_raw)
                        else Throw RpcError)
           (Throw RpcError) (Throw RpcError) (Throw RpcError)
           (Throw RpcError))
    1700000000000.

(** A log with transactions at heights 1 and 3. *)
Definition early_txes : list TransactionRecord :=
  [ mkTx "g1" "h1" 1 100 [mkTxIO "coinbase" 0] [mkTxIO "miner1" 300];
    mkTx "g3" "h3" 3 300 [mkTxIO "coinbase" 0] [mkTxIO "miner2" 300] ].

Definition early_db : Database :=
  mkDb (Ok early_txes) (Ok []) (Ok [mkCS 3 900 2 8])
       (Ok []) (Ok []) (Ok []) (Ok []).

Definition early_world : World :=
  mkWorld (Ok early_db) example_rpc 1700000000000.



Definition example_block : DerivedBlock :=
  mkBlock "h5" 5 "h5" 1000 2 (VVal "miner1").

(* ------------------------------------------------------------------ *)
(** ** Vocabulary of the further properties *)

(** A list in descending order of [key]. *)
Definition descending {A} (key : A -> Z) : list A -> Prop :=
  StronglySorted (fun a b => key b <= key a).

(** [top] holds the entries of [all] with the greatest keys: the entries
    left out have keys no greater than any entry kept. *)
Definition top_of {A} (key : A -> Z) (all top : list A) : Prop :=
  exists rest,
    Permutation all (top ++ rest)
    /\ forall x y, In x top -> In y rest -> key y <= key x.






(** The page numbers [1 .. totalPages]. *)
Definition page_numbers (totalPages : Z) : list Z :=
  map (fun i => Z.of_nat i + 1) (seq 0 (Z.to_nat totalPages)).

Definition blocks_on_page (w : World) (limit page : Z) : list DerivedBlock :=
  match getPaginatedBlocks w page limit with
  | Ok r => bp_blocks r
  | Throw _ => []
  end.

Definition transactions_on_page (w : World) (limit page : Z)
  : list TransactionRecord :=
  match getPaginatedTransactions w page limit with
  | Ok r => tp_transactions r
  | Throw _ => []
  end.

(** The height of the block [h]: the greatest block index among its
    transactions. *)
Definition group_height (docs : list TransactionRecord) (h : string) : Z :=
  match map tx_blockindex (group_of docs h) with
  | [] => 0
  | i :: rest => fold_right Z.max i rest
  end.

(** No two block hashes share a height. *)
Definition one_hash_per_height (docs : list TransactionRecord) : Prop :=
  forall t t', In t docs -> In t' docs ->
    tx_blockindex t = tx_blockindex t' -> tx_blockhash t = tx_blockhash t'.

(** Transactions that share a block hash share its timestamp. *)
Definition hash_fixes_timestamp (docs : list TransactionRecord) : Prop :=
  forall t t', In t docs -> In t' docs ->
    tx_blockhash t = tx_blockhash t' -> tx_timestamp t = tx_timestamp t'.

(** What a listing shows of a block whatever the order of equal keys. *)
Definition block_key (b : DerivedBlock) : string * Z * Z :=
  (hash b, height b, txCount b).

(** Transactions that share a block hash share its height. *)
Definition hash_fixes_height (docs : list TransactionRecord) : Prop :=
  forall t t', In t docs -> In t' docs ->
    tx_blockhash t = tx_blockhash t' -> tx_blockindex t = tx_blockindex t'.

(** The log is a chain: one block hash per height and one height per hash. *)
Definition chain_log (docs : list TransactionRecord) : Prop :=
  forall t t', In t docs -> In t' docs ->
    (tx_blockhash t = tx_blockhash t' <-> tx_blockindex t = tx_blockindex t').

(** The status of schedule entry [k] when the chain is in cycle [c]. *)
Definition expected_status (c k : Z) : HalvingStatus :=
  if k =? c then active else if k <? c then past else future.


(** Where an input shown by getTransactionById comes from. *)
Definition input_origin (w : World) (ins : list RawInput) (io : TxIO) : Prop :=
  io = mkTxIO "coinbase" 0
  \/ io = mkTxIO "unknown" 0
  \/ exists i t prev outs o a rest,
       In i ins /\ ri_txid i = Some t
       /\ getRawTransaction w t = Ok (Some prev)
       /\ rt_vout prev = Some outs
       /\ nth_error outs (ri_vout i) = Some o
       /\ ro_scriptPubKey o = Some (mkSPK (Some (a :: rest)))
       /\ io = mkTxIO a (scaled_amount o).

(** The previous transaction of a non-coinbase input cannot be fetched. *)
Definition previous_unavailable (w : World) (i : RawInput) : Prop :=
  truthy_str (ri_coinbase i) = false ->
  forall t, ri_txid i = Some t -> getRawTransaction w t = Ok None.

(** What the price cache has to offer: its price, or the default. *)
Definition cache_price (c : option PriceCache) : string :=
  match c with
  | Some pc => price pc
  | None => "0.000000"
  end.

(** A store that holds the transaction log only: no block store and no
    network history. *)
Definition log_only_db : Database :=
  mkDb (Ok example_txes) (Ok []) (Ok [mkCS 5 1500 3 8])
       (Ok example_index) (Ok []) (Ok example_mempool) (Ok []).

Definition log_only_world : World :=
  mkWorld (Ok log_only_db) example_rpc 1700000000000.

Definition example_addresses : list AddressRecord :=
  [ mkAddress "bob" 49; mkAddress "miner1" 300; mkAddress "dave" 5 ].

Definition example_history : list NetworkHistory :=
  [ mkNH 4 900 (Some 13%Q) None (Some 52000%Q);
    mkNH 5 1000 (Some 14%Q) None (Some 56000%Q) ].

(** The example store with two network-history snapshots. *)
Definition history_db : Database :=
  mkDb (Ok example_txes) (Ok example_history) (Ok [mkCS 450000 135000000 3 8])
       (Ok example_index) (Ok example_blocks) (Ok example_mempool) (Ok []).

Definition history_world : World :=
  mkWorld (Ok history_db) example_rpc 1700000000000.

(* ================================================================== *)
(** * Properties *)

(** ** Sorting and slicing *)

Section SortFacts.
Variable A : Type.
Variable le : A -> A -> bool.

Lemma insert_by_perm (x : A) (l : list A) :
  Permutation (insert_by le x l) (x :: l).
Proof.
  induction l as [|y l IH]; simpl; [reflexivity|].
  destruct (le x y); [reflexivity|].
  rewrite IH. apply perm_swap.
Qed.

Lemma sort_by_perm (l : list A) : Permutation (sort_by le l) l.
Proof.
  induction l as [|x l IH]; simpl; [constructor|].
  rewrite insert_by_perm. now constructor.
Qed.

Lemma sort_by_length (l : list A) :
  List.length (sort_by le l) = List.length l.
Proof. apply Permutation_length, sort_by_perm. Qed.

Lemma sort_by_In (l : list A) (x : A) : In x (sort_by le l) <-> In x l.
Proof.
  split; apply Permutation_in; [|symmetry]; apply sort_by_perm.
Qed.

Lemma sort_by_nil_inv (l : list A) : sort_by le l = [] -> l = [].
Proof.
  intros H. apply Permutation_nil. rewrite <- H. apply sort_by_perm.
Qed.

Hypothesis le_total : forall a b, le a b = true \/ le b a = true.

Lemma insert_by_sorted (x : A) (l : list A) :
  Sorted (fun a b => le a b = true) l ->
  Sorted (fun a b => le a b = true) (insert_by le x l).
Proof.
  induction 1 as [|y l Hs IH Hhd]; simpl.
  - repeat constructor.
  - destruct (le x y) eqn:E.
    + constructor; [constructor; assumption | now constructor].
    + constructor; [exact IH|].
      destruct l as [|z l]; simpl.
      * constructor. destruct (le_total x y); congruence.
      * destruct (le x z); constructor.
        -- destruct (le_total x y); congruence.
        -- now inversion Hhd.
Qed.

Lemma sort_by_sorted (l : list A) :
  Sorted (fun a b => le a b = true) (sort_by le l).
Proof.
  induction l as [|x l IH]; simpl; [constructor|].
  now apply insert_by_sorted.
Qed.
End SortFacts.

Lemma Sorted_weaken {A} (R1 R2 : A -> A -> Prop) (l : list A) :
  (forall a b, R1 a b -> R2 a b) -> Sorted R1 l -> Sorted R2 l.
Proof.
  intros HR. induction 1 as [|a l Hs IH Hhd]; constructor; auto.
  destruct Hhd; constructor; auto.
Qed.

Lemma sort_asc_ascending {A} (key : A -> Z) (l : list A) :
  ascending key (sort_asc key l).
Proof.
  apply Sorted_StronglySorted.
  - intros a b c; lia.
  - apply Sorted_weaken with (R1 := fun a b => (key a <=? key b) = true).
    + intros a b. apply Z.leb_le.
    + apply (sort_by_sorted _ (fun a b => key a <=? key b)).
      intros a b. rewrite !Z.leb_le. lia.
Qed.


Lemma In_firstn {A} (n : nat) (l : list A) (x : A) :
  In x (firstn n l) -> In x l.
Proof.
  intros H. rewrite <- (firstn_skipn n l). apply in_or_app. now left.
Qed.

Lemma In_skipn {A} (n : nat) (l : list A) (x : A) :
  In x (skipn n l) -> In x l.
Proof.
  intros H. rewrite <- (firstn_skipn n l). apply in_or_app. now right.
Qed.

Lemma slice_length {A} (s n : nat) (l : list A) :
  List.length (firstn n (skipn s l)) = Nat.min n (List.length l - s).
Proof. now rewrite length_firstn, length_skipn. Qed.

(* ------------------------------------------------------------------ *)
(** ** Block aggregation *)

Lemma group_stage_snoc docs t :
  group_stage (docs ++ [t]) = group_add t (group_stage docs).
Proof. unfold group_stage. now rewrite fold_left_app. Qed.

Lemma group_add_ids t gs x :
  In x (map g_id (group_add t gs))
  <-> x = tx_blockhash t \/ In x (map g_id gs).
Proof.
  induction gs as [|g gs IH]; simpl.
  - intuition.
  - destruct (String.eqb_spec (g_id g) (tx_blockhash t)) as [E|E]; simpl.
    + rewrite E. intuition.
    + rewrite IH. intuition.
Qed.

Lemma group_add_NoDup t gs :
  NoDup (map g_id gs) -> NoDup (map g_id (group_add t gs)).
Proof.
  induction gs as [|g gs IH]; simpl; intros H.
  - repeat constructor. intros [].
  - inversion H as [|? ? Hnin Hnd]; subst.
    destruct (String.eqb_spec (g_id g) (tx_blockhash t)) as [E|E]; simpl.
    + now constructor.
    + constructor; [|now apply IH].
      rewrite group_add_ids. intros [F|F]; [congruence | contradiction].
Qed.

Lemma group_add_In t gs g' :
  NoDup (map g_id gs) ->
  In g' (group_add t gs) ->
  (In g' gs /\ g_id g' <> tx_blockhash t)
  \/ (exists g, In g gs /\ g_id g = tx_blockhash t
                /\ g' = group_accumulate g t)
  \/ (g' = group_new t /\ forall g, In g gs -> g_id g <> tx_blockhash t).
Proof.
  induction gs as [|g gs IH]; simpl; intros Hnd Hin.
  - destruct Hin as [<-|[]]. right; right. split; [reflexivity | intros ? []].
  - inversion Hnd as [|? ? Hnin Hnd']; subst.
    destruct (String.eqb_spec (g_id g) (tx_blockhash t)) as [E|E].
    + destruct Hin as [<-|Hin].
      * right; left. exists g. auto.
      * left. split; [now right|]. intros F. apply Hnin. rewrite E, <- F.
        now apply in_map.
    + destruct Hin as [<-|Hin].
      * left. auto.
      * destruct (IH Hnd' Hin) as [[H1 H2]|[(g0 & H1 & H2 & H3)|[H1 H2]]].
        -- left. auto.
        -- right; left. exists g0. auto.
        -- right; right. split; [exact H1|].
           intros g0 [<-|H0]; auto.
Qed.

Lemma group_of_snoc docs t h :
  group_of (docs ++ [t]) h
  = group_of docs h ++ (if String.eqb (tx_blockhash t) h then [t] else []).
Proof. unfold group_of. now rewrite filter_app. Qed.

Lemma group_of_nil docs h :
  ~ In h (map tx_blockhash docs) -> group_of docs h = [].
Proof.
  induction docs as [|t docs IH]; simpl; intros H; [reflexivity|].
  destruct (String.eqb_spec (tx_blockhash t) h) as [E|E].
  - exfalso. apply H. now left.
  - apply IH. intros F. apply H. now right.
Qed.

Lemma group_stage_inv docs :
  NoDup (map g_id (group_stage docs))
  /\ (forall x, In x (map g_id (group_stage docs))
                <-> In x (map tx_blockhash docs))
  /\ forall g, In g (group_stage docs) -> group_good docs g.
Proof.
  induction docs as [|t docs (Hnd & Hids & Hgood)] using rev_ind.
  - split; [constructor|]. split; [reflexivity | intros ? []].
  - rewrite group_stage_snoc. split; [now apply group_add_NoDup|]. split.
    + intros x. rewrite group_add_ids, Hids, map_app, in_app_iff. simpl.
      intuition.
    + intros g' Hin.
      destruct (group_add_In _ _ _ Hnd Hin)
        as [[H1 H2]|[(g & H1 & H2 & ->)|[-> H2]]].
      * destruct (Hgood _ H1) as (G1 & G2 & G3 & G4).
        unfold group_good. rewrite group_of_snoc.
        destruct (String.eqb_spec (tx_blockhash t) (g_id g')) as [E|E];
          [congruence|]. rewrite app_nil_r. auto.
      * destruct (Hgood _ H1) as (G1 & G2 & G3 & first & rest & G4 & G5 & G6).
        unfold group_good; simpl.
        split.
        { rewrite group_of_snoc, G1, H2, String.eqb_refl. reflexivity. }
        split; [rewrite G2, length_app; simpl; lia|].
        split; [exact G3|].
        exists first, (rest ++ [t]). rewrite G4. auto.
      * unfold group_good; simpl. rewrite group_of_snoc, String.eqb_refl.
        rewrite group_of_nil.
        { split; [reflexivity|]. split; [reflexivity|]. split; [reflexivity|].
          exists t, []. auto. }
        rewrite <- Hids. intros F. apply in_map_iff in F.
        destruct F as (g & F1 & F2). now apply (H2 g).
Qed.

Lemma coinbase_first_marked t : coinbase_first t = coinbase_marked t.
Proof.
  unfold coinbase_first, coinbase_marked.
  destruct (tx_vin t); reflexivity.
Qed.

Lemma hd_error_filter {A} (f : A -> bool) (l : list A) :
  hd_error (filter f l) = find f l.
Proof.
  induction l as [|x l IH]; simpl; [reflexivity|].
  destruct (f x); [reflexivity | exact IH].
Qed.

Lemma arrayElemAt_0 {A} (l : list A) :
  arrayElemAt (VVal l) 0 =
  match hd_error l with
  | Some x => VVal x
  | None => VMissing
  end.
Proof. destruct l; reflexivity. Qed.

Lemma find_pointwise {A} (f g : A -> bool) (l : list A) :
  (forall x, f x = g x) -> find f l = find g l.
Proof.
  intros E. induction l as [|x l IH]; simpl; [reflexivity|].
  now rewrite E, IH.
Qed.

Lemma minedBy_expr_spec txs :
  minedBy_expr txs =
  match find coinbase_marked txs with
  | Some t => first_output_address t
  | None => VNull
  end.
Proof.
  unfold minedBy_expr. rewrite arrayElemAt_0, hd_error_filter.
  rewrite (find_pointwise _ _ txs coinbase_first_marked).
  destruct (find coinbase_marked txs) as [t|]; simpl; [|reflexivity].
  unfold first_output_address. destruct (tx_vout t); reflexivity.
Qed.

Lemma block_pipeline_In docs b :
  In b (block_pipeline docs) <->
  exists g, In g (group_stage (sort_desc tx_blockindex docs))
            /\ b = addFields_project g.
Proof.
  unfold block_pipeline, sort_desc at 1. rewrite sort_by_In, in_map_iff.
  split; intros (g & H1 & H2); exists g; auto.
Qed.

(** Every stored transaction's block is derived, once. *)
Lemma block_pipeline_complete docs t :
  In t docs ->
  exists b, In b (block_pipeline docs) /\ hash b = tx_blockhash t.
Proof.
  intros Hin.
  destruct (group_stage_inv (sort_desc tx_blockindex docs))
    as (_ & Hids & Hgood).
  assert (Hh : In (tx_blockhash t)
                  (map g_id (group_stage (sort_desc tx_blockindex docs)))).
  { apply Hids, in_map. unfold sort_desc. now apply sort_by_In. }
  apply in_map_iff in Hh. destruct Hh as (g & Hg & Hing).
  exists (addFields_project g). split.
  - apply block_pipeline_In. eauto.
  - simpl. destruct (Hgood g Hing) as (_ & _ & G3 & _). congruence.
Qed.

Lemma block_pipeline_hashes_NoDup docs :
  NoDup (map hash (block_pipeline docs)).
Proof.
  destruct (group_stage_inv (sort_desc tx_blockindex docs))
    as (Hnd & _ & Hgood).
  unfold block_pipeline, sort_desc at 1.
  eapply Permutation_NoDup.
  - symmetry. apply Permutation_map, sort_by_perm.
  - rewrite map_map.
    erewrite map_ext_in; [exact Hnd|].
    intros g Hg. simpl. now destruct (Hgood g Hg) as (_ & _ & G3 & _).
Qed.

Lemma group_of_perm_length docs docs' h :
  Permutation docs docs' ->
  List.length (group_of docs h) = List.length (group_of docs' h).
Proof.
  intros P. unfold group_of. apply Permutation_length.
  induction P; simpl.
  - constructor.
  - destruct (String.eqb _ _); auto.
  - repeat destruct (String.eqb _ _); auto using perm_swap.
  - etransitivity; eauto.
Qed.

Lemma listed_block_pipeline w b :
  listed_block w b ->
  exists db docs,
    connectToDatabase w = Ok db /\ txes db = Ok docs
    /\ In b (block_pipeline docs).
Proof.
  intros [(page & limit & r & Hr & Hb)|(limit & bs & Hr & Hb)].
  - unfold getPaginatedBlocks in Hr.
    destruct (connectToDatabase w) as [db|]; [simpl in Hr | discriminate].
    destruct (txes db) as [docs|] eqn:Ht; simpl in Hr.
    + exists db, docs. repeat split; try reflexivity; try assumption.
      unfold agg_skip, agg_limit in Hr.
      destruct ((page - 1) * limit <? 0); simpl in Hr.
      * inversion Hr; subst. destruct Hb.
      * destruct (limit <=? 0); simpl in Hr; inversion Hr; subst;
          simpl in Hb; [destruct Hb|].
        eapply In_skipn, In_firstn, Hb.
    + inversion Hr; subst. destruct Hb.
  - unfold getLatestBlocks in Hr.
    destruct (connectToDatabase w) as [db|]; simpl in Hr.
    + destruct (txes db) as [docs|] eqn:Ht; simpl in Hr.
      * exists db, docs. repeat split; try reflexivity; try assumption.
        unfold agg_limit in Hr.
        destruct (limit <=? 0); simpl in Hr; inversion Hr; subst;
          [destruct Hb|]. eapply In_firstn, Hb.
      * inversion Hr; subst. destruct Hb.
    + inversion Hr; subst. destruct Hb.
Qed.

Lemma group_of_In docs h t :
  In t (group_of docs h) <-> In t docs /\ tx_blockhash t = h.
Proof.
  unfold group_of. rewrite filter_In.
  destruct (String.eqb_spec (tx_blockhash t) h); intuition congruence.
Qed.

Lemma first_output_address_not_null t : first_output_address t <> VNull.
Proof. unfold first_output_address. destruct (tx_vout t); discriminate. Qed.

Lemma sort_desc_descending {A} (key : A -> Z) (l : list A) :
  descending key (sort_desc key l).
Proof.
  apply Sorted_StronglySorted.
  - intros a b c; lia.
  - apply Sorted_weaken with (R1 := fun a b => (key b <=? key a) = true).
    + intros a b. apply Z.leb_le.
    + apply (sort_by_sorted _ (fun a b => key b <=? key a)).
      intros a b. rewrite !Z.leb_le. lia.
Qed.

Lemma StronglySorted_app_inv {A} (R : A -> A -> Prop) (l1 l2 : list A) :
  StronglySorted R (l1 ++ l2) ->
  StronglySorted R l1 /\ StronglySorted R l2
  /\ forall x y, In x l1 -> In y l2 -> R x y.
Proof.
  induction l1 as [|a l1 IH]; simpl; intros H.
  - split; [constructor|]. split; [exact H | intros x y []].
  - inversion H as [|? ? Hs Hall]; subst.
    destruct (IH Hs) as (S1 & S2 & C).
    rewrite Forall_app in Hall. destruct Hall as [A1 A2].
    split; [now constructor|]. split; [exact S2|].
    intros x y [<-|Hx] Hy; [|now apply C].
    rewrite Forall_forall in A2. now apply A2.
Qed.

Lemma StronglySorted_firstn {A} (R : A -> A -> Prop) (n : nat) (l : list A) :
  StronglySorted R l -> StronglySorted R (firstn n l).
Proof.
  intros H. rewrite <- (firstn_skipn n l) in H.
  now apply StronglySorted_app_inv in H.
Qed.

Lemma cursor_limit_prefix {A} (n : Z) (l : list A) :
  exists rest, l = cursor_limit n l ++ rest.
Proof.
  unfold cursor_limit. destruct (n =? 0).
  - exists []. now rewrite app_nil_r.
  - exists (skipn (Z.abs_nat n) l). now rewrite firstn_skipn.
Qed.

Lemma cursor_limit_descending {A} (key : A -> Z) (n : Z) (l : list A) :
  descending key l -> descending key (cursor_limit n l).
Proof.
  unfold cursor_limit. destruct (n =? 0); [auto|].
  apply StronglySorted_firstn.
Qed.

Lemma prefix_top_of {A} (key : A -> Z) (all sorted top rest : list A) :
  Permutation all sorted -> descending key sorted -> sorted = top ++ rest ->
  top_of key all top.
Proof.
  intros P D ->. exists rest. split; [exact P|].
  apply StronglySorted_app_inv in D. destruct D as (_ & _ & C).
  intros x y Hx Hy. now apply C.
Qed.

Lemma cursor_limit_top_of {A} (key : A -> Z) (n : Z) (l : list A) :
  top_of key l (cursor_limit n (sort_desc key l)).
Proof.
  destruct (cursor_limit_prefix n (sort_desc key l)) as [rest E].
  eapply prefix_top_of; [| apply sort_desc_descending | exact E].
  symmetry. apply sort_by_perm.
Qed.

Lemma NoDup_firstn {A} (n : nat) (l : list A) : NoDup l -> NoDup (firstn n l).
Proof.
  intros H. rewrite <- (firstn_skipn n l) in H.
  now apply NoDup_app_remove_r in H.
Qed.

Lemma cursor_limit_In {A} (n : Z) (l : list A) (x : A) :
  In x (cursor_limit n l) -> In x l.
Proof.
  unfold cursor_limit. destruct (n =? 0); [auto | apply In_firstn].
Qed.


Lemma cursor_limit_length {A} (n : Z) (l : list A) :
  0 < n ->
  List.length (cursor_limit n l) = Nat.min (Z.to_nat n) (List.length l).
Proof.
  intros H. unfold cursor_limit. destruct (Z.eqb_spec n 0); [lia|].
  rewrite length_firstn, Zabs2Nat.abs_nat_nonneg by lia. reflexivity.
Qed.

Lemma findOne_sort_desc_max {A} (key : A -> Z) (l : list A) (x : A) :
  findOne (sort_desc key l) = Some x ->
  In x l /\ forall y, In y l -> key y <= key x.
Proof.
  intros H. pose proof (sort_desc_descending key l) as D.
  assert (P : forall y, In y (sort_desc key l) <-> In y l)
    by (intros y; apply sort_by_In).
  destruct (sort_desc key l) as [|z r]; [discriminate|].
  simpl in H. inversion H; subst z. split; [apply P; now left|].
  intros y Hy. apply P in Hy. inversion D as [|? ? _ Hall]; subst.
  destruct Hy as [<-|Hy]; [lia|].
  rewrite Forall_forall in Hall. now apply Hall.
Qed.

Lemma findOne_sort_asc_min {A} (key : A -> Z) (l : list A) (x : A) :
  findOne (sort_asc key l) = Some x ->
  In x l /\ forall y, In y l -> key x <= key y.
Proof.
  intros H. pose proof (sort_asc_ascending key l) as D.
  assert (P : forall y, In y (sort_asc key l) <-> In y l)
    by (intros y; apply sort_by_In).
  destruct (sort_asc key l) as [|z r]; [discriminate|].
  simpl in H. inversion H; subst z. split; [apply P; now left|].
  intros y Hy. apply P in Hy. inversion D as [|? ? _ Hall]; subst.
  destruct Hy as [<-|Hy]; [lia|].
  rewrite Forall_forall in Hall. now apply Hall.
Qed.

Lemma findOne_sort_none {A} (le : A -> A -> bool) (l : list A) :
  findOne (sort_by le l) = None <-> l = [].
Proof.
  split.
  - intros H. apply (sort_by_nil_inv _ le).
    destruct (sort_by le l); [reflexivity | discriminate].
  - intros ->. reflexivity.
Qed.


Lemma cursor_limit_nil {A} (n : Z) : cursor_limit n (@nil A) = [].
Proof. unfold cursor_limit. destruct (n =? 0); [reflexivity|]. apply firstn_nil. Qed.

Lemma cursor_limit_length_le {A} (n : Z) (l : list A) :
  0 < n -> Z.of_nat (List.length (cursor_limit n l)) <= n.
Proof. intros H. rewrite cursor_limit_length by exact H. lia. Qed.

(* ------------------------------------------------------------------ *)
(** ** Pagination *)

Lemma math_floor_div_Z (a b : Z) : 0 < b -> math_floor_div a b = a / b.
Proof.
  intros Hb. destruct b as [|p|p]; try lia.
  unfold math_floor_div, Qdiv, Qinv, Qmult, inject_Z. simpl.
  now rewrite Z.mul_1_r.
Qed.

Lemma math_ceil_div_Z (a b : Z) : 0 < b -> math_ceil_div a b = - (- a / b).
Proof.
  intros Hb. destruct b as [|p|p]; try lia.
  unfold math_ceil_div, Qceiling, Qdiv, Qinv, Qmult, Qopp, inject_Z. simpl.
  now rewrite Z.mul_1_r.
Qed.

(** [Math.ceil(a / b)] is the least [p] with [a <= p * b]. *)
Lemma math_ceil_div_least (a b : Z) :
  0 < b ->
  (math_ceil_div a b - 1) * b < a <= math_ceil_div a b * b.
Proof.
  intros Hb. rewrite math_ceil_div_Z by exact Hb.
  pose proof (Z.div_mod (- a) b ltac:(lia)) as E.
  pose proof (Z.mod_pos_bound (- a) b Hb) as M.
  nia.
Qed.

Lemma distinct_In (l : list string) (x : string) :
  In x (distinct l) <-> In x l.
Proof.
  induction l as [|y l IH]; simpl; [reflexivity|].
  rewrite filter_In, IH.
  destruct (String.eqb_spec x y) as [E|E]; simpl; intuition congruence.
Qed.

Lemma distinct_NoDup (l : list string) : NoDup (distinct l).
Proof.
  induction l as [|y l IH]; simpl; constructor.
  - rewrite filter_In, String.eqb_refl. simpl. intros [_ F]. discriminate.
  - now apply NoDup_filter.
Qed.

(** The [$group] stage makes as many groups as [distinct] finds hashes. *)
Lemma block_pipeline_length docs :
  List.length (block_pipeline docs)
  = List.length (distinct (map tx_blockhash docs)).
Proof.
  unfold block_pipeline, sort_desc at 1.
  rewrite sort_by_length, length_map.
  destruct (group_stage_inv (sort_desc tx_blockindex docs)) as (Hnd & Hids & _).
  rewrite <- (length_map g_id). apply Permutation_length.
  apply NoDup_Permutation; [exact Hnd | apply distinct_NoDup|].
  intros x. rewrite Hids, distinct_In, !in_map_iff.
  split; intros (t & E & H); exists t; (split; [exact E|]);
    unfold sort_desc in *;
    [apply sort_by_In in H; exact H | apply sort_by_In; exact H].
Qed.

Lemma slice_length_Z {A} (l : list A) (skip limit : Z) :
  0 <= skip -> 0 < limit ->
  Z.of_nat (List.length (firstn (Z.to_nat limit) (skipn (Z.to_nat skip) l)))
  = Z.min limit (Z.max 0 (Z.of_nat (List.length l) - skip)).
Proof. intros Hs Hl. rewrite slice_length. lia. Qed.

Lemma page_ok_intro (n page limit len : Z) :
  0 < limit -> 1 <= page -> 0 <= n ->
  len = Z.min limit (Z.max 0 (n - (page - 1) * limit)) ->
  page_ok n page limit (mkPagination page (math_ceil_div n limit) n) len.
Proof.
  intros Hl Hp Hn ->. unfold page_ok; simpl.
  pose proof (math_ceil_div_least n limit Hl) as C.
  repeat split; try lia.
  intros Hpage. nia.
Qed.

(** What the pipeline derives for a group does not depend on the order in
    which the documents reach it: it is stated on the stored group. *)
Lemma pipeline_block_derived docs b :
  In b (block_pipeline docs) -> derived_from docs b.
Proof.
  intros Hb. apply block_pipeline_In in Hb. destruct Hb as (g & Hg & ->).
  destruct (group_stage_inv (sort_desc tx_blockindex docs)) as (_ & _ & Hgood).
  destruct (Hgood _ Hg) as (G1 & G2 & G3 & first & rest & G4 & _).
  unfold derived_from. cbn zeta. simpl hash; simpl txCount; simpl minedBy.
  rewrite G3.
  assert (Hlen : List.length (group_of docs (g_id g))
                 = List.length (g_transactions g)).
  { rewrite G1. apply group_of_perm_length. symmetry. apply sort_by_perm. }
  assert (Hin : forall t, In t (g_transactions g)
                          <-> In t (group_of docs (g_id g))).
  { intros t. rewrite G1, !group_of_In. unfold sort_desc.
    now rewrite sort_by_In. }
  rewrite minedBy_expr_spec.
  split; [|split; [|split; [|split]]].
  - intros E. rewrite E, G4 in Hlen. discriminate.
  - now rewrite G2, Hlen.
  - destruct (find coinbase_marked _) as [t|] eqn:F.
    + split; [intros E; now apply first_output_address_not_null in E|].
      intros Hall. apply find_some in F. destruct F as [F1 F2].
      apply Hin in F1. rewrite (Hall _ F1) in F2. discriminate.
    + split; [|reflexivity]. intros _ t Ht'.
      apply Hin in Ht'. apply (find_none _ _ F) in Ht'. exact Ht'.
  - intros (t & Ht' & Hmk).
    destruct (find coinbase_marked _) as [t'|] eqn:F.
    + apply find_some in F. destruct F as [F1 F2]. apply Hin in F1.
      exists t'. auto.
    + apply Hin in Ht'. apply (find_none _ _ F) in Ht'. congruence.
  - intros t Ht' Hmk Huniq.
    destruct (find coinbase_marked _) as [t'|] eqn:F.
    + apply find_some in F. destruct F as [F1 F2]. apply Hin in F1.
      now rewrite (Huniq _ F1 F2).
    + apply Hin in Ht'. apply (find_none _ _ F) in Ht'. congruence.
Qed.

Lemma filter_unique {A} (f : A -> string) (l : list A) (x : A) :
  NoDup (map f l) -> In x l ->
  filter (fun y => String.eqb (f y) (f x)) l = [x].
Proof.
  induction l as [|y l IH]; simpl; intros Hnd Hin; [destruct Hin|].
  inversion Hnd as [|? ? Hnin Hnd']; subst.
  destruct Hin as [->|Hin].
  - rewrite String.eqb_refl. f_equal.
    clear IH Hnd Hnd'. induction l as [|z l IH]; simpl; [reflexivity|].
    destruct (String.eqb_spec (f z) (f x)) as [E|E].
    + exfalso. apply Hnin. left. exact E.
    + apply IH. intros F. apply Hnin. now right.
  - destruct (String.eqb_spec (f y) (f x)) as [E|E].
    + exfalso. apply Hnin. rewrite E. now apply in_map.
    + now apply IH.
Qed.

(** Every stored group is derived into one block. *)
Lemma pipeline_block_unique docs h :
  In h (map tx_blockhash docs) ->
  exists b, blocks_with_hash h (block_pipeline docs) = [b]
            /\ In b (block_pipeline docs) /\ hash b = h.
Proof.
  intros Hh. apply in_map_iff in Hh. destruct Hh as (t & <- & Ht).
  destruct (block_pipeline_complete docs t Ht) as (b & Hb & E).
  exists b. split; [|auto]. unfold blocks_with_hash. rewrite <- E.
  apply (filter_unique hash); [apply block_pipeline_hashes_NoDup | exact Hb].
Qed.

(** C1. Block aggregation on a readable log.  Every block that
    getPaginatedBlocks or getLatestBlocks returns, on any page and for any
    limit, comes from the non-empty group of stored transactions that share
    its hash: its [txCount] is the size of the group, its [minedBy] is the
    first output address of a member whose first input carries the
    "coinbase" marker (of the only such member, if there is just one), and
    is null exactly when no member has one.  And every group is derived: a
    listing that is long enough to hold all blocks returns exactly one block
    for each block hash of the log. *)
Theorem block_aggregation_txCount_minedBy (w : World) :
  (forall b, listed_block w b ->
     exists db docs,
       connectToDatabase w = Ok db /\ txes db = Ok docs
       /\ derived_from docs b)
  /\ (forall db docs h limit,
        connectToDatabase w = Ok db -> txes db = Ok docs ->
        In h (map tx_blockhash docs) ->
        Z.of_nat (List.length (distinct (map tx_blockhash docs))) <= limit ->
        (exists bs b,
            getLatestBlocks w limit = Ok bs
            /\ blocks_with_hash h bs = [b] /\ derived_from docs b)
        /\ (exists r b,
               getPaginatedBlocks w 1 limit = Ok r
               /\ blocks_with_hash h (bp_blocks r) = [b]
               /\ derived_from docs b)).
Proof.
  split.
  - intros b L.
    destruct (listed_block_pipeline _ _ L) as (db & docs & Hc & Ht & Hb).
    exists db, docs. split; [exact Hc|]. split; [exact Ht|].
    now apply pipeline_block_derived.
  - intros db docs h limit Hc Ht Hh Hl.
    destruct (pipeline_block_unique docs h Hh) as (b & Hu & Hb & _).
    assert (Hpos : 0 < limit).
    { destruct (distinct (map tx_blockhash docs)) as [|x l] eqn:E;
        [|simpl in Hl; lia].
      exfalso. apply (distinct_In (map tx_blockhash docs) h) in Hh.
      rewrite E in Hh. destruct Hh. }
    assert (Hall : firstn (Z.to_nat limit) (block_pipeline docs)
                   = block_pipeline docs).
    { apply firstn_all2. rewrite block_pipeline_length. lia. }
    split.
    + exists (block_pipeline docs), b. split; [|split].
      * unfold getLatestBlocks. rewrite Hc. simpl. rewrite Ht. simpl.
        unfold agg_limit. destruct (Z.leb_spec limit 0); [lia|].
        simpl. now rewrite Hall.
      * exact Hu.
      * now apply pipeline_block_derived.
    + exists (mkBlocksPage (block_pipeline docs)
                (mkPagination 1
                   (math_ceil_div
                      (Z.of_nat (List.length (distinct (map tx_blockhash docs))))
                      limit)
                   (Z.of_nat (List.length (distinct (map tx_blockhash docs)))))),
        b.
      split; [|split].
      * unfold getPaginatedBlocks. rewrite Hc. simpl. rewrite Ht. simpl.
        unfold agg_skip, agg_limit. simpl.
        destruct (Z.leb_spec limit 0); [lia|]. simpl. now rewrite Hall.
      * exact Hu.
      * now apply pipeline_block_derived.
Qed.
(** C2 (as amended). With the connection made, a positive [limit] and a
    page number from 1 on: when the log can be read,
    getPaginatedTransactions and getPaginatedBlocks return
    [totalPages = ceil(totalCount / limit)] (the least number of pages of
    [limit] items that hold [totalCount] items) and a slice of
    [min(limit, totalCount - (page - 1) * limit)] items on every page up to
    [totalPages] (none beyond), never more than [limit]; when the log cannot
    be read, getPaginatedBlocks returns its empty page, with [totalPages = 1]
    and [totalItems = 0], and getPaginatedTransactions fails. *)
Theorem pagination_totalPages_and_slice (w : World) (db : Database)
  (page limit : Z) :
  connectToDatabase w = Ok db ->
  0 < limit ->
  1 <= page ->
  (forall docs,
      txes db = Ok docs ->
      (exists r,
          getPaginatedTransactions w page limit = Ok r
          /\ page_ok (Z.of_nat (List.length docs)) page limit (tp_pagination r)
                     (Z.of_nat (List.length (tp_transactions r))))
      /\ (exists r,
             getPaginatedBlocks w page limit = Ok r
             /\ page_ok
                  (Z.of_nat (List.length (distinct (map tx_blockhash docs))))
                  page limit (bp_pagination r)
                  (Z.of_nat (List.length (bp_blocks r)))))
  /\ (forall e,
        txes db = Throw e ->
        getPaginatedBlocks w page limit
        = Ok (mkBlocksPage [] (mkPagination page 1 0))
        /\ getPaginatedTransactions w page limit = Throw e).
Proof.
  intros Hc Hl Hp.
  assert (Hs : ((page - 1) * limit <? 0) = false) by (apply Z.ltb_ge; nia).
  split.
  - intros docs Ht. split.
    + unfold getPaginatedTransactions. rewrite Hc. simpl. rewrite Ht. simpl.
      unfold cursor_skip. rewrite Hs. simpl. eexists. split; [reflexivity|].
      simpl. apply page_ok_intro; try lia.
      unfold cursor_limit. destruct (Z.eqb_spec limit 0) as [E|_]; [lia|].
      rewrite Zabs2Nat.abs_nat_nonneg by lia.
      rewrite slice_length_Z by nia.
      unfold sort_desc. now rewrite sort_by_length.
    + unfold getPaginatedBlocks. rewrite Hc. simpl. rewrite Ht. simpl.
      unfold agg_skip, agg_limit. rewrite Hs. simpl.
      destruct (Z.leb_spec limit 0) as [E|_]; [lia|]. simpl.
      eexists. split; [reflexivity|]. simpl.
      apply page_ok_intro; try lia.
      rewrite slice_length_Z by nia. now rewrite block_pipeline_length.
  - intros e Ht. unfold getPaginatedBlocks, getPaginatedTransactions.
    rewrite Hc. simpl. rewrite Ht. simpl. auto.
Qed.

(** C2 as stated fails when the log cannot be read: the page that
    getPaginatedBlocks then returns has one page for no items, where
    [ceil(0 / limit)] is 0. *)
Lemma getPaginatedBlocks_fallback_totalPages :
  exists r,
    getPaginatedBlocks unreadable_log_world 1 20 = Ok r
    /\ totalItems (bp_pagination r) = 0
    /\ totalPages (bp_pagination r) = 1
    /\ totalPages (bp_pagination r)
       <> math_ceil_div (totalItems (bp_pagination r)) 20.
Proof.
  eexists. split; [reflexivity|]. simpl.
  split; [reflexivity|]. split; [reflexivity|].
  vm_compute. discriminate.
Qed.
(* ------------------------------------------------------------------ *)
(** ** Error boundaries *)

Lemma try_catch_returns {A} (body : result A) (handler : error -> result A) :
  (forall e, returns (handler e)) -> returns (try_catch body handler).
Proof.
  intros H. destruct body as [a|e]; simpl; [now exists a | apply H].
Qed.

Lemma returns_Ok {A} (a : A) : returns (Ok a).
Proof. now exists a. Qed.

#[local] Hint Resolve returns_Ok : core.

Lemma getPaginatedBlocks_returns w db page limit :
  connectToDatabase w = Ok db -> returns (getPaginatedBlocks w page limit).
Proof.
  intros H. unfold getPaginatedBlocks. rewrite H. simpl.
  apply try_catch_returns. auto.
Qed.

Lemma getMempoolTransactions_returns w db :
  connectToDatabase w = Ok db -> returns (getMempoolTransactions w).
Proof.
  intros H. unfold getMempoolTransactions. rewrite H. simpl.
  apply try_catch_returns. auto.
Qed.

Lemma getDifficultyHistory_returns w db limit :
  connectToDatabase w = Ok db -> returns (getDifficultyHistory w limit).
Proof.
  intros H. unfold getDifficultyHistory. rewrite H. simpl.
  apply try_catch_returns. auto.
Qed.

(** The fallback page of getPaginatedBlocks when a read of [txes] fails. *)
Lemma getPaginatedBlocks_fallback w db e page limit :
  connectToDatabase w = Ok db -> txes db = Throw e ->
  getPaginatedBlocks w page limit
  = Ok (mkBlocksPage [] (mkPagination page 1 0)).
Proof.
  intros H1 H2. unfold getPaginatedBlocks. rewrite H1. simpl.
  now rewrite H2.
Qed.

Lemma getBlockByHash_returns w db docs nhs h :
  connectToDatabase w = Ok db -> txes db = Ok docs ->
  networkhistories db = Ok nhs -> returns (getBlockByHash w h).
Proof.
  intros H1 H2 H3. unfold getBlockByHash. rewrite H1. simpl.
  rewrite H2. simpl. destruct (filter _ docs); [auto|].
  rewrite H3. simpl. auto.
Qed.

Lemma detail_input_step_returns w vin input :
  returns (detail_input_step w vin input).
Proof.
  unfold detail_input_step.
  destruct (truthy_str (ri_coinbase input)); [auto|].
  destruct (truthy_str (ri_txid input)); [|auto].
  apply try_catch_returns. auto.
Qed.

Lemma getTransactionById_returns w db docs mp txid :
  connectToDatabase w = Ok db -> txes db = Ok docs -> mempool db = Ok mp ->
  returns (getTransactionById w txid).
Proof.
  intros H1 H2 H3. unfold getTransactionById. rewrite H1. simpl.
  rewrite H2. simpl. destruct (findOne (filter _ docs)); [auto|].
  rewrite H3. simpl. destruct (findOne (filter _ mp)); [|auto].
  match goal with
  | |- returns (bind (try_catch ?b ?h) _) =>
      destruct (try_catch_returns b h) as [a ->]; [auto|]
  end.
  simpl. destruct a; auto.
Qed.

(** C3 (as amended). Which operations stop a failure at their boundary.
    getNetworkStats, getLatestBlocks, getRecentTransactions,
    getNextBlockHash and getPeerInfo always return a value, and it is their
    fallback (zeroed statistics, an empty list, null) when the connection
    or a read they need fails.  getPaginatedBlocks, getMempoolTransactions
    and getDifficultyHistory return a value once the connection is made,
    their fallback (the empty page, the empty view, the empty list) when a
    read fails.  The other operations have no catch around their storage
    access: getBlockByHash and getTransactionById return a value when the
    collections they read are readable, and a failed connection or read is
    passed on to the caller. *)
Theorem error_boundaries (w : World) :
  ((exists ns,
       getNetworkStats w = Ok ns
       /\ (forall e, connectToDatabase w = Throw e ->
                     ns = networkStats_fallback)
       /\ (forall db, connectToDatabase w = Ok db ->
             (forall e, coinstats db = Throw e -> ns = networkStats_fallback)
             /\ (coinstats db = Ok [] -> ns = networkStats_fallback)
             /\ (forall e, networkhistories db = Throw e ->
                           ns = networkStats_fallback)))
   /\ (forall limit, exists bs,
          getLatestBlocks w limit = Ok bs
          /\ (forall e, connectToDatabase w = Throw e -> bs = [])
          /\ (forall db e, connectToDatabase w = Ok db ->
                           txes db = Throw e -> bs = []))
   /\ (forall limit, exists ts,
          getRecentTransactions w limit = Ok ts
          /\ (forall e, connectToDatabase w = Throw e -> ts = [])
          /\ (forall db e, connectToDatabase w = Ok db ->
                           txes db = Throw e -> ts = []))
   /\ (forall h, exists r,
          getNextBlockHash w h = Ok r
          /\ (forall e, connectToDatabase w = Throw e -> r = None)
          /\ (forall db e, connectToDatabase w = Ok db ->
                           blocks db = Throw e -> r = None)
          /\ (forall db bs e,
                connectToDatabase w = Ok db -> blocks db = Ok bs ->
                (forall b, In b bs -> bd_height b <> h + 1) ->
                txes db = Throw e -> r = None))
   /\ (forall peerinfo getpeerinfo, exists ps,
          getPeerInfo w peerinfo getpeerinfo = Ok ps
          /\ (forall e, connectToDatabase w = Throw e -> ps = [])
          /\ (forall e, peerinfo = Throw e -> ps = [])
          /\ (forall db e, connectToDatabase w = Ok db -> peerinfo = Ok [] ->
                           getpeerinfo = Throw e -> ps = [])))
  /\ (forall db,
        connectToDatabase w = Ok db ->
        (forall page limit,
            returns (getPaginatedBlocks w page limit)
            /\ forall e, txes db = Throw e ->
                 getPaginatedBlocks w page limit
                 = Ok (mkBlocksPage [] (mkPagination page 1 0)))
        /\ (returns (getMempoolTransactions w)
            /\ (forall e, mempool db = Throw e ->
                  getMempoolTransactions w = Ok (mkMempoolView [] stats_zero))
            /\ (forall e, mempoolstats db = Throw e ->
                  getMempoolTransactions w = Ok (mkMempoolView [] stats_zero)))
        /\ (forall limit,
              returns (getDifficultyHistory w limit)
              /\ forall e, networkhistories db = Throw e ->
                   getDifficultyHistory w limit = Ok []))
  /\ (forall db docs nhs mp,
        connectToDatabase w = Ok db -> txes db = Ok docs ->
        networkhistories db = Ok nhs -> mempool db = Ok mp ->
        (forall h, returns (getBlockByHash w h))
        /\ (forall txid, returns (getTransactionById w txid)))
  /\ (forall e,
        connectToDatabase w = Throw e ->
        (forall h, getBlockByHash w h = Throw e)
        /\ (forall h, getTransactionsByBlockHash w h = Throw e)
        /\ (forall txid, getTransactionById w txid = Throw e)
        /\ (forall c a, getAddressInfo w c a = Throw e)
        /\ (forall a limit, getAddressTransactions w a limit = Throw e)
        /\ (forall c limit, getRichList w c limit = Throw e)
        /\ (forall limit, getNetworkHistory w limit = Throw e)
        /\ (forall page limit, getPaginatedTransactions w page limit = Throw e)
        /\ (forall a page limit,
              getPaginatedAddressTransactions w a page limit = Throw e))
  /\ (forall db e,
        connectToDatabase w = Ok db ->
        (txes db = Throw e ->
           (forall h, getBlockByHash w h = Throw e)
           /\ (forall h, getTransactionsByBlockHash w h = Throw e)
           /\ (forall txid, getTransactionById w txid = Throw e)
           /\ (forall page limit,
                 getPaginatedTransactions w page limit = Throw e))
        /\ (addresstxes db = Throw e ->
              (forall a limit, getAddressTransactions w a limit = Throw e)
              /\ (forall a page limit,
                    getPaginatedAddressTransactions w a page limit = Throw e))
        /\ (networkhistories db = Throw e ->
              forall limit, getNetworkHistory w limit = Throw e)
        /\ (forall a limit,
              getAddressInfo w (Throw e) a = Throw e
              /\ getRichList w (Throw e) limit = Throw e)).
Proof.
  split; [|split; [|split; [|split]]].
  - split; [|split; [|split; [|split]]].
    + unfold getNetworkStats.
      destruct (connectToDatabase w) as [db|e0]; simpl.
      2:{ eexists. split; [reflexivity|]. split; [reflexivity|].
          discriminate. }
      destruct (coinstats db) as [[|cs l]|e1] eqn:Hs; simpl.
      * eexists. split; [reflexivity|]. split; [discriminate|].
        intros db' E. inversion E; subst db'. auto.
      * destruct (networkhistories db) as [nhs|e2] eqn:Hn; simpl.
        -- eexists. split; [reflexivity|]. split; [discriminate|].
           intros db' E. inversion E; subst db'.
           split; [intros; congruence|]. split; intros; congruence.
        -- eexists. split; [reflexivity|]. split; [discriminate|].
           intros db' E. inversion E; subst db'. auto.
      * eexists. split; [reflexivity|]. split; [discriminate|].
        intros db' E. inversion E; subst db'. auto.
    + intros limit. unfold getLatestBlocks.
      destruct (connectToDatabase w) as [db|e0]; simpl.
      2:{ exists []. split; [reflexivity|]. split; [reflexivity|].
          discriminate. }
      destruct (txes db) as [docs|e1] eqn:Ht; simpl.
      * destruct (agg_limit limit (block_pipeline docs)) as [bs|e2]; simpl;
          eexists; (split; [reflexivity|]); (split; [discriminate|]);
          intros db' e E; inversion E; subst db'; congruence.
      * exists []. split; [reflexivity|]. split; [discriminate|]. reflexivity.
    + intros limit. unfold getRecentTransactions.
      destruct (connectToDatabase w) as [db|e0]; simpl.
      2:{ exists []. split; [reflexivity|]. split; [reflexivity|].
          discriminate. }
      destruct (txes db) as [docs|e1] eqn:Ht; simpl.
      * eexists. split; [reflexivity|]. split; [discriminate|].
        intros db' e E; inversion E; subst db'; congruence.
      * exists []. split; [reflexivity|]. split; [discriminate|]. reflexivity.
    + intros h. unfold getNextBlockHash.
      destruct (connectToDatabase w) as [db|e0]; simpl.
      2:{ exists None. split; [reflexivity|]. split; [reflexivity|].
          split; discriminate. }
      destruct (blocks db) as [bs|e1] eqn:Hb; simpl.
      2:{ exists None. split; [reflexivity|]. split; [discriminate|].
          split; reflexivity. }
      unfold findOne at 1. rewrite hd_error_filter.
      destruct (find _ bs) as [b|] eqn:Fb.
      * eexists. split; [reflexivity|]. split; [discriminate|].
        split; [intros db' e E; inversion E; subst db'; congruence|].
        intros db' bs' e E1 E2 No _. inversion E1; subst db'.
        rewrite Hb in E2. inversion E2; subst bs'.
        apply find_some in Fb. destruct Fb as [B1 B2].
        apply Z.eqb_eq in B2. now destruct (No b B1).
      * destruct (txes db) as [docs|e2] eqn:Ht; simpl.
        -- destruct (findOne _); eexists; (split; [reflexivity|]);
             (split; [discriminate|]);
             (split; [intros db' e E; inversion E; subst db'; congruence|]);
             intros db' bs' e E1 _ _ E3; inversion E1; subst db'; congruence.
        -- exists None. split; [reflexivity|]. split; [discriminate|].
           split; reflexivity.
    + intros peerinfo getpeerinfo. unfold getPeerInfo.
      destruct (connectToDatabase w) as [db|e0]; simpl.
      2:{ exists []. split; [reflexivity|]. split; [reflexivity|].
          split; [reflexivity | discriminate]. }
      destruct peerinfo as [docs|e1]; simpl.
      2:{ exists []. split; [reflexivity|]. split; [discriminate|].
          split; [reflexivity|]. discriminate. }
      destruct (sort_desc peer_lastsend docs) as [|p ps] eqn:S.
      * apply (sort_by_nil_inv _ _ _) in S. subst docs.
        destruct getpeerinfo as [ps|e2]; simpl;
          eexists; (split; [reflexivity|]); (split; [discriminate|]);
          (split; [discriminate|]); intros; congruence.
      * eexists. split; [reflexivity|]. split; [discriminate|].
        split; [discriminate|]. intros db' e _ E. inversion E; subst docs.
        discriminate.
  - intros db Hc. split; [|split].
    + intros page limit. split; [eapply getPaginatedBlocks_returns, Hc|].
      intros e He. now apply (getPaginatedBlocks_fallback w db e).
    + split; [eapply getMempoolTransactions_returns, Hc|].
      unfold getMempoolTransactions. rewrite Hc. simpl.
      split; intros e He; rewrite He; simpl; [reflexivity|].
      destruct (mempool db); reflexivity.
    + intros limit. split; [eapply getDifficultyHistory_returns, Hc|].
      intros e He. unfold getDifficultyHistory. rewrite Hc. simpl.
      now rewrite He.
  - intros db docs nhs mp H1 H2 H3 H4. split; intros.
    + eapply getBlockByHash_returns; eassumption.
    + eapply getTransactionById_returns; eassumption.
  - intros e H.
    unfold getBlockByHash, getTransactionsByBlockHash, getTransactionById,
      getAddressInfo, getAddressTransactions, getRichList, getNetworkHistory,
      getPaginatedTransactions, getPaginatedAddressTransactions.
    rewrite H. simpl. intuition.
  - intros db e Hc.
    unfold getBlockByHash, getTransactionsByBlockHash, getTransactionById,
      getAddressInfo, getAddressTransactions, getRichList, getNetworkHistory,
      getPaginatedTransactions, getPaginatedAddressTransactions.
    rewrite Hc. simpl.
    split; [|split; [|split]].
    + intros He. rewrite He. simpl. intuition.
    + intros He. rewrite He. simpl. intuition.
    + intros He. rewrite He. simpl. intuition.
    + intros a limit. simpl. auto.
Qed.
(** getPaginatedBlocks, getMempoolTransactions and getDifficultyHistory
    connect before their [try]: a failed connection escapes their catch
    block, where getLatestBlocks, which connects inside, returns its
    fallback. *)
Lemma connection_outside_try (w : World) (e : error) :
  connectToDatabase w = Throw e ->
  (forall page limit, getPaginatedBlocks w page limit = Throw e)
  /\ getMempoolTransactions w = Throw e
  /\ (forall limit, getDifficultyHistory w limit = Throw e)
  /\ (forall limit, getLatestBlocks w limit = Ok []).
Proof.
  intros H.
  unfold getPaginatedBlocks, getMempoolTransactions, getDifficultyHistory,
    getLatestBlocks.
  rewrite H. simpl. auto.
Qed.
(* ------------------------------------------------------------------ *)
(** ** The price cache *)

Lemma getADVCPrice_valid (c : PriceCache) (q : PriceQuery) :
  q_now q - pc_timestamp c < CACHE_DURATION ->
  getADVCPrice (Some c) q = mkReply (price c) FromValidCache (Some c).
Proof.
  intros H. unfold getADVCPrice.
  destruct (Z.ltb_spec (q_now q - pc_timestamp c) CACHE_DURATION);
    [reflexivity | lia].
Qed.

Lemma getADVCPrice_stale_failure (c : PriceCache) (q : PriceQuery) :
  CACHE_DURATION <= q_now q - pc_timestamp c ->
  fetch_fails (q_fetch q) = true ->
  getADVCPrice (Some c) q = mkReply (price c) FromStaleCache (Some c).
Proof.
  intros H F. unfold getADVCPrice.
  destruct (Z.ltb_spec (q_now q - pc_timestamp c) CACHE_DURATION); [lia|].
  destruct (q_fetch q); try reflexivity. discriminate.
Qed.

Lemma getADVCPrice_stale_attempts (c : PriceCache) (q : PriceQuery) :
  CACHE_DURATION <= q_now q - pc_timestamp c ->
  fetch_attempted (getADVCPrice (Some c) q) = true.
Proof.
  intros H. unfold getADVCPrice.
  destruct (Z.ltb_spec (q_now q - pc_timestamp c) CACHE_DURATION); [lia|].
  destruct (q_fetch q); reflexivity.
Qed.

Lemma getADVCPrice_empty_failure (q : PriceQuery) :
  fetch_fails (q_fetch q) = true ->
  getADVCPrice None q = mkReply "0.000000" FromDefault None.
Proof.
  intros F. unfold getADVCPrice. simpl.
  destruct (q_fetch q); try reflexivity. discriminate.
Qed.

Lemma getADVCPrice_refresh (c : option PriceCache) (q : PriceQuery) (usd : Q) :
  cache_valid c (q_now q) = false ->
  q_fetch q = Quote usd ->
  getADVCPrice c q
  = mkReply (toFixed6 usd) FromFetch
            (Some (mkPriceCache (toFixed6 usd) (q_now_stored q))).
Proof.
  intros V F. unfold getADVCPrice. rewrite F.
  destruct c as [c|]; [|reflexivity]. simpl in V. now rewrite V.
Qed.

(** C4. After a successful fetch stored price [P] at time [T]: every query
    made less than CACHE_DURATION after [T] returns [P] without a request and
    leaves the cache as it is; a query made CACHE_DURATION or more after [T]
    makes a request and, if that fails, still returns [P]; with an empty
    cache a failing request gives "0.000000". *)
Theorem price_cache_window (c : option PriceCache) (q0 : PriceQuery) (usd : Q) :
  cache_valid c (q_now q0) = false ->
  q_fetch q0 = Quote usd ->
  let P := toFixed6 usd in
  let T := q_now_stored q0 in
  let stored := Some (mkPriceCache P T) in
  (returned (getADVCPrice c q0) = P
   /\ fetch_attempted (getADVCPrice c q0) = true
   /\ cache_after (getADVCPrice c q0) = stored)
  /\ (forall qs,
        Forall (fun q => q_now q - T < CACHE_DURATION) qs ->
        Forall (fun r => returned r = P /\ fetch_attempted r = false
                         /\ cache_after r = stored)
               (run_queries stored qs))
  /\ (forall q,
        CACHE_DURATION <= q_now q - T ->
        fetch_attempted (getADVCPrice stored q) = true
        /\ (fetch_fails (q_fetch q) = true ->
            returned (getADVCPrice stored q) = P
            /\ cache_after (getADVCPrice stored q) = stored))
  /\ (forall q,
        fetch_fails (q_fetch q) = true ->
        returned (getADVCPrice None q) = "0.000000"
        /\ fetch_attempted (getADVCPrice None q) = true
        /\ cache_after (getADVCPrice None q) = None).
Proof.
  intros V F P T stored. subst stored. split; [|split; [|split]].
  - rewrite (getADVCPrice_refresh c q0 usd V F). auto.
  - induction 1 as [|q qs Hq _ IH]; cbn [run_queries]; [constructor|].
    rewrite getADVCPrice_valid by exact Hq. cbn [cache_after].
    constructor; auto.
  - intros q Hq. split.
    + now apply getADVCPrice_stale_attempts.
    + intros Hf. now rewrite getADVCPrice_stale_failure.
  - intros q Hf. now rewrite getADVCPrice_empty_failure.
Qed.

(** The scenario of the design document: a fetch at [T] gives 1.23456; 19
    minutes later the price is served without a request; 21 minutes later a
    request is made and fails, and the price is served all the same. *)
Example price_cache_scenario (T : Z) :
  let r0 := getADVCPrice None (mkQuery T (Quote (123456 # 100000)) T) in
  let r1 := getADVCPrice (cache_after r0)
              (mkQuery (T + 19 * 60000) FetchRejects (T + 19 * 60000)) in
  let r2 := getADVCPrice (cache_after r1)
              (mkQuery (T + 21 * 60000) ResponseNotOk (T + 21 * 60000)) in
  returned r0 = "1.234560"
  /\ (returned r1 = "1.234560" /\ fetch_attempted r1 = false)
  /\ (returned r2 = "1.234560" /\ fetch_attempted r2 = true).
Proof.
  cbn zeta.
  rewrite (getADVCPrice_refresh None _ (123456 # 100000)) by reflexivity.
  replace (toFixed6 (123456 # 100000)) with "1.234560" by (vm_compute; reflexivity).
  cbn [cache_after returned q_now_stored].
  rewrite getADVCPrice_valid
    by (cbn [q_now pc_timestamp]; unfold CACHE_DURATION; lia).
  cbn [cache_after returned].
  rewrite getADVCPrice_stale_failure;
    [| cbn [q_now pc_timestamp]; unfold CACHE_DURATION; lia | reflexivity].
  cbn. auto.
Qed.

Lemma getADVCPrice_keeps_cache (c : PriceCache) (q : PriceQuery) :
  exists c', cache_after (getADVCPrice (Some c) q) = Some c'.
Proof.
  unfold getADVCPrice.
  destruct (q_now q - pc_timestamp c <? CACHE_DURATION); simpl; [eauto|].
  destruct (q_fetch q); simpl; eauto.
Qed.

(** C9 (as amended). Once the cache holds a price it is never emptied: each
    later call leaves a price in it, never takes the default branch, and
    returns either the price it just fetched or the price the cache held
    when it was called. *)
Theorem price_cache_never_cleared (c : PriceCache) :
  (forall q,
      let r := getADVCPrice (Some c) q in
      cache_after r <> None
      /\ served r <> FromDefault
      /\ ((exists usd, q_fetch q = Quote usd /\ served r = FromFetch
                       /\ returned r = toFixed6 usd)
          \/ returned r = price c))
  /\ (forall qs,
        Forall (fun r => served r <> FromDefault /\ cache_after r <> None)
               (run_queries (Some c) qs)).
Proof.
  assert (Step : forall c0 q,
             let r := getADVCPrice (Some c0) q in
             cache_after r <> None
             /\ served r <> FromDefault
             /\ ((exists usd, q_fetch q = Quote usd /\ served r = FromFetch
                              /\ returned r = toFixed6 usd)
                 \/ returned r = price c0)).
  { intros c0 q. unfold getADVCPrice.
    destruct (q_now q - pc_timestamp c0 <? CACHE_DURATION); simpl.
    - repeat split; try discriminate. now right.
    - destruct (q_fetch q) eqn:F; simpl; repeat split; try discriminate;
        try (now right). left. eauto. }
  split; [apply Step|].
  intros qs. revert c. induction qs as [|q qs IH]; intros c;
    cbn [run_queries].
  - constructor.
  - destruct (Step c q) as (S1 & S2 & _). constructor; [auto|].
    destruct (getADVCPrice_keeps_cache c q) as [c' ->]. apply IH.
Qed.

(** C9 as stated fails when the quoted price rounds to zero: the price
    the cache then holds and serves is the string "0.000000" itself. *)
Lemma price_cache_serves_zero_string :
  let first := getADVCPrice None (mkQuery 0 (Quote 0) 0) in
  let later := getADVCPrice (cache_after first)
                 (mkQuery 1500000 FetchRejects 1500000) in
  served first = FromFetch
  /\ cache_after first = Some (mkPriceCache "0.000000" 0)
  /\ returned later = "0.000000"
  /\ ~ (returned later <> "0.000000").
Proof. vm_compute. repeat split; auto. Qed.

(* ------------------------------------------------------------------ *)
(** ** The halving schedule *)




(** The reward column of the halving table agrees with the formula on the
    entries the table lists. *)
Lemma halving_table_rewards (cycle h : Z) :
  Forall (fun e => (hv_reward e == 300 / 2 ^ hv_halving e)%Q
                   /\ hv_height e = hv_halving e * halvingInterval)
         (halving_table cycle h).
Proof.
  unfold halving_table. repeat constructor; reflexivity.
Qed.

(** A store without a [coinstats] record makes getMiningStats throw, where
    getNetworkStats falls back to zeroes. *)
Lemma getMiningStats_without_coinstats (w : World) (db : Database) :
  connectToDatabase w = Ok db ->
  coinstats db = Ok [] ->
  getMiningStats w = Throw TypeError
  /\ getNetworkStats w = Ok networkStats_fallback.
Proof.
  intros H1 H2. unfold getMiningStats, getNetworkStats.
  rewrite H1. simpl. rewrite H2. simpl. auto.
Qed.
(* ------------------------------------------------------------------ *)
(** ** JS numbers *)

(** Integers up to 2^53 are doubles. *)
Lemma double_of_Z_exact (n : Z) : Z.abs n <= 2 ^ 53 -> double_of_Z n = n.
Proof.
  intros H. unfold double_of_Z.
  destruct (Z.leb_spec (Z.log2 (Z.abs n) - 52) 0) as [L|L]; [reflexivity|].
  assert (E : Z.abs n = 2 ^ 53).
  { assert (53 <= Z.log2 (Z.abs n)) by lia.
    assert (0 < Z.abs n) by (destruct (Z.abs n) eqn:A; simpl in *; lia).
    pose proof (Z.log2_spec (Z.abs n) ltac:(lia)) as [S _].
    assert (2 ^ 53 <= 2 ^ Z.log2 (Z.abs n))
      by (apply Z.pow_le_mono_r; lia).
    lia. }
  destruct (Z.abs_eq_or_opp n) as [A|A]; rewrite A in E.
  - subst n. vm_compute. reflexivity.
  - assert (n = - 2 ^ 53) by lia. subst n. vm_compute. reflexivity.
Qed.

Lemma js_plus_exact (a b : Z) : Z.abs (a + b) <= 2 ^ 53 -> js_plus a b = a + b.
Proof. apply double_of_Z_exact. Qed.

Lemma fold_js_plus_exact (l : list Z) (acc : Z) :
  Z.abs acc + sum_Z (map Z.abs l) <= 2 ^ 53 ->
  fold_left js_plus l acc = acc + sum_Z l.
Proof.
  revert acc. induction l as [|x l IH]; intros acc H; simpl in *; [lia|].
  assert (0 <= sum_Z (map Z.abs l)).
  { clear. induction l as [|y l IH]; simpl; lia. }
  rewrite js_plus_exact by lia. rewrite IH by lia. lia.
Qed.

(** Within 2^53 the running total is the sum. *)
Lemma sum_amounts_exact (l : list TxIO) :
  exact_range l -> sum_amounts l = sum_Z (map amount l).
Proof.
  unfold exact_range, sum_amounts, js_sum. intros H.
  rewrite fold_js_plus_exact; [reflexivity|].
  rewrite map_map. simpl. exact H.
Qed.

(* ------------------------------------------------------------------ *)
(** ** Output processing: mempool enrichment and transaction detail *)




Lemma detail_output_step_spec (acc : list TxIO * Z) (o : RawOutput) :
  ro_scriptPubKey o <> None ->
  detail_output_step acc o
  = Ok (if has_address o
        then (fst acc ++ [enriched_output o],
              js_plus (snd acc) (scaled_amount o))
        else acc).
Proof.
  unfold detail_output_step, output_addresses, has_address, enriched_output,
    first_address, scaled_amount, SATOSHIS.
  destruct (ro_scriptPubKey o) as [[[[|a l]|]]|]; simpl; congruence.
Qed.

Lemma detail_output_fold (outs : list RawOutput) (acc : list TxIO * Z) :
  Forall (fun o => ro_scriptPubKey o <> None) outs ->
  foldM detail_output_step outs acc
  = Ok (fst acc ++ map enriched_output (filter has_address outs),
        fold_left js_plus (map scaled_amount (filter has_address outs))
                  (snd acc)).
Proof.
  intros H. revert acc.
  induction H as [|o outs Ho _ IH]; intros [vout total]; simpl.
  - now rewrite app_nil_r.
  - rewrite detail_output_step_spec by exact Ho. simpl. rewrite IH.
    destruct (has_address o); simpl; [|reflexivity].
    rewrite <- app_assoc. reflexivity.
Qed.

(** An output without a [scriptPubKey] stops the output loop of
    getTransactionById with a TypeError. *)
Lemma detail_output_fold_throws (outs : list RawOutput) (acc : list TxIO * Z) :
  Exists (fun o => ro_scriptPubKey o = None) outs ->
  foldM detail_output_step outs acc = Throw TypeError.
Proof.
  intros H. revert acc. induction H as [o outs Ho|o outs _ IH]; intros acc.
  - simpl. unfold detail_output_step, output_addresses. now rewrite Ho.
  - simpl. unfold detail_output_step at 1, output_addresses.
    destruct (ro_scriptPubKey o) as [spk|]; simpl; [|reflexivity].
    destruct (match spk_addresses spk with Some l => l | None => [] end);
      simpl; apply IH.
Qed.

Lemma foldM_returns {A B} (f : A -> B -> result A) (l : list B) (a : A) :
  (forall a x, returns (f a x)) -> returns (foldM f l a).
Proof.
  intros H. revert a. induction l as [|x l IH]; intros a; simpl; [auto|].
  destruct (H a x) as [a' ->]. simpl. apply IH.
Qed.

Lemma sum_amounts_enriched (outs : list RawOutput) :
  sum_amounts (map enriched_output outs)
  = fold_left js_plus (map scaled_amount outs) 0.
Proof.
  unfold sum_amounts, js_sum. rewrite map_map. reflexivity.
Qed.











Lemma process_raw_outputs (w : World) (mempoolTx : MempoolEntry)
  (raw : RawTx) :
  Forall (fun o => ro_scriptPubKey o <> None) (raw_outputs raw) ->
  exists p,
    process_raw w mempoolTx raw = Ok p
    /\ p_vout p = map enriched_output (filter has_address (raw_outputs raw))
    /\ p_total p = sum_amounts (p_vout p).
Proof.
  intros F. unfold process_raw.
  assert (I : returns (match rt_vin raw with
                       | Some ins => foldM (detail_input_step w) ins []
                       | None => Ok []
                       end)).
  { destruct (rt_vin raw); [|auto].
    apply foldM_returns, detail_input_step_returns. }
  destruct I as [vin ->]. simpl. unfold raw_outputs in *.
  destruct (rt_vout raw) as [outs|].
  - rewrite detail_output_fold by exact F. simpl.
    eexists. split; [reflexivity|]. simpl.
    split; [reflexivity|]. now rewrite sum_amounts_enriched.
  - simpl. eexists. split; [reflexivity|]. simpl. auto.
Qed.

Lemma process_raw_throws (w : World) (mempoolTx : MempoolEntry)
  (raw : RawTx) :
  Exists (fun o => ro_scriptPubKey o = None) (raw_outputs raw) ->
  process_raw w mempoolTx raw = Throw TypeError.
Proof.
  intros E. unfold process_raw.
  assert (I : returns (match rt_vin raw with
                       | Some ins => foldM (detail_input_step w) ins []
                       | None => Ok []
                       end)).
  { destruct (rt_vin raw); [|auto].
    apply foldM_returns, detail_input_step_returns. }
  destruct I as [vin ->]. simpl. unfold raw_outputs in E.
  destruct (rt_vout raw) as [outs|]; [|inversion E].
  now rewrite detail_output_fold_throws.
Qed.



(* ------------------------------------------------------------------ *)
(** ** The address / transaction join *)

Lemma enrich_address_txs_joined (db : Database)
  (docs : list TransactionRecord) (recs : list AddressTx) :
  txes db = Ok docs -> enrich_address_txs db recs = Ok (joined docs recs).
Proof.
  intros H. induction recs as [|r recs IH]; simpl; [reflexivity|].
  rewrite H. simpl. rewrite IH. simpl.
  unfold findOne, tx_of. rewrite hd_error_filter.
  destruct (find _ docs); reflexivity.
Qed.

Lemma joined_records (docs : list TransactionRecord) (recs : list AddressTx) :
  map eat_record (joined docs recs)
  = filter (fun r => match tx_of docs (at_txid r) with
                     | Some _ => true
                     | None => false
                     end) recs.
Proof.
  induction recs as [|r recs IH]; simpl; [reflexivity|].
  destruct (tx_of docs (at_txid r)); simpl; now rewrite IH.
Qed.

Lemma joined_In (docs : list TransactionRecord) (recs : list AddressTx)
  (e : EnrichedAddressTx) :
  In e (joined docs recs) ->
  In (eat_record e) recs
  /\ exists t, In t docs /\ tx_txid t = at_txid (eat_record e)
               /\ eat_timestamp e = tx_timestamp t.
Proof.
  unfold joined. rewrite in_flat_map. intros (r & Hr & He).
  destruct (tx_of docs (at_txid r)) as [t|] eqn:F; [|destruct He].
  destruct He as [<-|[]]. simpl. split; [exact Hr|].
  apply find_some in F. destruct F as [F1 F2].
  apply String.eqb_eq in F2. eauto.
Qed.

(** C7. getPaginatedAddressTransactions returns, of the index records on the
    requested page, exactly those whose [txid] names a stored transaction,
    each with that transaction's timestamp; a record whose [txid] matches no
    stored transaction is never returned; and [totalItems] is the number of
    index records of the address, whatever the transaction log holds. *)
Theorem address_join_drops_unmatched (w : World) (db : Database)
  (idx : list AddressTx) (docs : list TransactionRecord)
  (address : string) (page limit : Z) :
  connectToDatabase w = Ok db ->
  addresstxes db = Ok idx ->
  txes db = Ok docs ->
  0 <= (page - 1) * limit ->
  let on_page :=
    cursor_limit limit
      (skipn (Z.to_nat ((page - 1) * limit))
             (sort_desc at_blockindex (index_of idx address))) in
  exists r,
    getPaginatedAddressTransactions w address page limit = Ok r
    /\ totalItems (ap_pagination r)
       = Z.of_nat (List.length (index_of idx address))
    /\ map eat_record (ap_transactions r)
       = filter (fun rec => match tx_of docs (at_txid rec) with
                            | Some _ => true
                            | None => false
                            end) on_page
    /\ (forall e, In e (ap_transactions r) ->
          In (eat_record e) idx
          /\ at_a_id (eat_record e) = address
          /\ exists t, In t docs /\ tx_txid t = at_txid (eat_record e)
                       /\ eat_timestamp e = tx_timestamp t)
    /\ (forall rec,
          (forall t, In t docs -> tx_txid t <> at_txid rec) ->
          forall e, In e (ap_transactions r) -> eat_record e <> rec).
Proof.
  intros Hc Hi Ht Hs on_page.
  unfold getPaginatedAddressTransactions. rewrite Hc. simpl.
  rewrite Hi. simpl. unfold cursor_skip.
  destruct (Z.ltb_spec ((page - 1) * limit) 0) as [F|_]; [lia|]. simpl.
  rewrite (enrich_address_txs_joined db docs _ Ht). simpl.
  eexists. split; [reflexivity|]. simpl.
  split; [reflexivity|]. split; [apply joined_records|].
  assert (J : forall e, In e (joined docs on_page) ->
              In (eat_record e) idx
              /\ at_a_id (eat_record e) = address
              /\ exists t, In t docs /\ tx_txid t = at_txid (eat_record e)
                           /\ eat_timestamp e = tx_timestamp t).
  { intros e He. apply joined_In in He. destruct He as [H1 H2].
    apply cursor_limit_In, In_skipn in H1.
    unfold sort_desc in H1. apply sort_by_In in H1.
    unfold index_of in H1. apply filter_In in H1. destruct H1 as [H1 H3].
    apply String.eqb_eq in H3. auto. }
  split; [exact J|].
  intros rec Hno e He <-. destruct (J e He) as (_ & _ & t & T1 & T2 & _).
  now apply (Hno t).
Qed.

(* ------------------------------------------------------------------ *)
(** ** Difficulty history *)

Lemma reconstruct_fold (db : Database) (docs : list TransactionRecord)
  (nhs : list NetworkHistory) (hs : list Z) (acc : list DifficultyPoint) :
  txes db = Ok docs -> networkhistories db = Ok nhs ->
  foldM (reconstruct_step db) hs acc
  = Ok (acc ++ flat_map (point_at docs nhs) hs).
Proof.
  intros Ht Hn. revert acc.
  induction hs as [|h hs IH]; intros acc; simpl.
  - now rewrite app_nil_r.
  - assert (Step : reconstruct_step db acc h
                   = Ok (acc ++ point_at docs nhs h)).
    { unfold reconstruct_step, point_at, findOne. rewrite Ht. simpl.
      rewrite hd_error_filter.
      destruct (find _ docs); simpl;
        [rewrite Hn; reflexivity | now rewrite app_nil_r]. }
    rewrite Step. simpl. rewrite IH, <- app_assoc. reflexivity.
Qed.





Lemma point_at_length docs nhs h : (List.length (point_at docs nhs h) <= 1)%nat.
Proof. unfold point_at. destruct (find _ docs); simpl; lia. Qed.

Lemma flat_map_point_at_length docs nhs hs :
  (List.length (flat_map (point_at docs nhs) hs) <= List.length hs)%nat.
Proof.
  induction hs as [|h hs IH]; simpl; [lia|].
  rewrite length_app. pose proof (point_at_length docs nhs h). lia.
Qed.

Lemma block_heights_length s l n :
  (List.length (block_heights s l n) <= Z.to_nat n)%nat.
Proof.
  unfold block_heights.
  etransitivity; [apply filter_length_le|].
  now rewrite length_map, length_seq.
Qed.






Lemma StronglySorted_filter {A} (R : A -> A -> Prop) (f : A -> bool)
  (l : list A) :
  StronglySorted R l -> StronglySorted R (filter f l).
Proof.
  induction 1 as [|a l Hs IH Hall]; simpl; [constructor|].
  destruct (f a); [|exact IH]. constructor; [exact IH|].
  rewrite Forall_forall in *. intros y Hy. apply filter_In in Hy.
  now apply Hall.
Qed.








(* ------------------------------------------------------------------ *)
(** ** A concrete store, and the theorems at work on it *)

Lemma block_aggregation_witness :
  In "h5" (map tx_blockhash example_txes)
  /\ exists bs b,
       getLatestBlocks example_world 10 = Ok bs
       /\ blocks_with_hash "h5" bs = [b]
       /\ txCount b = 2
       /\ minedBy b = VVal "miner1".
Proof.
  split; [simpl; auto|].
  destruct (block_aggregation_txCount_minedBy example_world) as [_ C].
  destruct (C example_db example_txes "h5" 10 eq_refl eq_refl
              ltac:(simpl; auto) ltac:(vm_compute; discriminate))
    as [(bs & b & H1 & H2 & H3) _].
  exists bs, b. split; [exact H1|]. split; [exact H2|].
  assert (Hh : hash b = "h5").
  { assert (I : In b (blocks_with_hash "h5" bs)) by (rewrite H2; now left).
    apply filter_In in I. destruct I as [_ I]. now apply String.eqb_eq. }
  destruct H3 as (_ & T & _ & _ & U). rewrite Hh in T, U.
  split; [exact T|].
  apply (U tx_cb); [simpl; auto | reflexivity|].
  intros t' [<-|[<-|[]]] M; [reflexivity | discriminate].
Defined.

Lemma pagination_witness :
  (0 < 2 /\ 1 <= 1)
  /\ exists r,
       getPaginatedTransactions example_world 1 2 = Ok r
       /\ totalPages (tp_pagination r) = 2
       /\ List.length (tp_transactions r) = 2%nat.
Proof.
  split; [lia|].
  destruct (pagination_totalPages_and_slice example_world example_db 1 2
              eq_refl ltac:(lia) ltac:(lia)) as [R _].
  destruct (R example_txes eq_refl) as [(r & Hr & P) _].
  exists r. split; [exact Hr|].
  destruct P as (_ & _ & P3 & _ & P5 & _). split; [exact P3|].
  apply Nat2Z.inj. rewrite P5. reflexivity.
Defined.

Lemma error_boundaries_witness :
  getLatestBlocks world_down 10 = Ok []
  /\ getPaginatedBlocks unreadable_log_world 1 20
     = Ok (mkBlocksPage [] (mkPagination 1 1 0))
  /\ returns (getBlockByHash example_world "h5")
  /\ getBlockByHash world_down "h5" = Throw StorageError.
Proof.
  destruct (error_boundaries world_down) as ((_ & L & _) & _ & _ & D & _).
  destruct (error_boundaries unreadable_log_world) as (_ & B & _).
  destruct (error_boundaries example_world) as (_ & _ & U & _).
  split; [|split; [|split]].
  - destruct (L 10) as (bs & H1 & H2 & _).
    rewrite H1. f_equal. apply (H2 StorageError eq_refl).
  - destruct (B unreadable_log_db eq_refl) as [P _].
    destruct (P 1 20) as [_ F]. apply (F StorageError eq_refl).
  - apply (U example_db example_txes [] example_mempool
             eq_refl eq_refl eq_refl eq_refl).
  - apply (D StorageError eq_refl).
Defined.

(** C3 as stated fails: with the database unreachable getBlockByHash
    rejects. *)
Lemma getBlockByHash_propagates_failure :
  getBlockByHash world_down "h5" = Throw StorageError
  /\ ~ returns (getBlockByHash world_down "h5").
Proof.
  split; [reflexivity|]. intros [a H]. discriminate.
Qed.

Lemma price_cache_window_witness :
  (cache_valid None 0 = false)
  /\ returned (getADVCPrice (Some (mkPriceCache "1.234560" 0))
                 (mkQuery 1260000 FetchRejects 1260000))
     = "1.234560".
Proof.
  split; [reflexivity|].
  destruct (price_cache_window None (mkQuery 0 (Quote (123456 # 100000)) 0)
              (123456 # 100000) eq_refl eq_refl)
    as (_ & _ & S & _).
  destruct (S (mkQuery 1260000 FetchRejects 1260000)
              ltac:(unfold CACHE_DURATION; simpl; lia)) as [_ S2].
  apply (S2 eq_refl).
Defined.



Lemma address_join_witness :
  (0 <= (1 - 1) * 20)
  /\ exists r,
       getPaginatedAddressTransactions example_world "bob" 1 20 = Ok r
       /\ totalItems (ap_pagination r) = 2
       /\ forall e, In e (ap_transactions r) ->
                    eat_record e <> mkAT "bob" "gone" 3 7.
Proof.
  split; [lia|].
  destruct (address_join_drops_unmatched example_world example_db
              example_index example_txes "bob" 1 20
              eq_refl eq_refl eq_refl ltac:(lia))
    as (r & Hr & Ht & _ & _ & Hd).
  exists r. split; [exact Hr|]. split; [exact Ht|].
  apply Hd. intros t [<-|[<-|[<-|[]]]]; discriminate.
Defined.



(* ------------------------------------------------------------------ *)
(** ** Ordered, bounded listings *)

(** The statements of this section do not depend on the order the store
    gives to entries with equal sort keys: they speak of keys, of counts and
    of membership, and of whole entries only where the keys are distinct. *)

Lemma block_pipeline_descending docs : descending height (block_pipeline docs).
Proof. apply sort_desc_descending. Qed.

Lemma fold_max_spec (i : Z) (rest : list Z) :
  In (fold_right Z.max i rest) (i :: rest)
  /\ forall j, In j (i :: rest) -> j <= fold_right Z.max i rest.
Proof.
  induction rest as [|k rest [IH1 IH2]].
  - split; [now left|]. intros j [<-|[]]. simpl. lia.
  - cbn [fold_right]. split.
    + destruct (Z.max_spec k (fold_right Z.max i rest)) as [[_ ->]|[_ ->]].
      * destruct IH1 as [E|I]; [left; exact E | right; right; exact I].
      * right; left; reflexivity.
    + intros j [<-|[<-|Hj]].
      * specialize (IH2 i (or_introl eq_refl)). lia.
      * lia.
      * specialize (IH2 j (or_intror Hj)). lia.
Qed.

(** [group_height] is the block index of a member of the group, and the
    greatest one. *)
Lemma group_height_spec docs h :
  group_of docs h <> [] ->
  (exists t, In t (group_of docs h) /\ tx_blockindex t = group_height docs h)
  /\ forall t, In t (group_of docs h) ->
       tx_blockindex t <= group_height docs h.
Proof.
  unfold group_height. intros Hne.
  destruct (group_of docs h) as [|t0 g]; [congruence|].
  cbn [map].
  destruct (fold_max_spec (tx_blockindex t0) (map tx_blockindex g))
    as [F1 F2].
  change (tx_blockindex t0 :: map tx_blockindex g)
    with (map tx_blockindex (t0 :: g)) in F1, F2.
  split.
  - apply in_map_iff in F1. destruct F1 as (t & E1 & I). exists t. auto.
  - intros t I. apply F2. now apply in_map.
Qed.

(** The height of a derived block is the greatest height in its group. *)
Lemma derived_height_max docs b :
  In b (block_pipeline docs) ->
  forall t, In t (group_of docs (hash b)) -> tx_blockindex t <= height b.
Proof.
  intros Hb t Ht. apply block_pipeline_In in Hb. destruct Hb as (g & Hg & ->).
  destruct (group_stage_inv (sort_desc tx_blockindex docs)) as (_ & _ & Hgood).
  destruct (Hgood g Hg) as (G1 & _ & G3 & first & rest & G4 & G5 & _).
  simpl in *. rewrite G3 in Ht. rewrite G5.
  assert (D : descending tx_blockindex (g_transactions g)).
  { rewrite G1. apply StronglySorted_filter, sort_desc_descending. }
  assert (Hin : In t (g_transactions g)).
  { rewrite G1. apply group_of_In. apply group_of_In in Ht.
    destruct Ht as [Ht1 Ht2]. split; [|exact Ht2].
    unfold sort_desc. now apply sort_by_In. }
  rewrite G4 in D, Hin. inversion D as [|? ? _ Hall]; subst.
  destruct Hin as [<-|Hin]; [lia|].
  rewrite Forall_forall in Hall. now apply Hall.
Qed.

(** ... and it is the height of a member of the group. *)
Lemma derived_height_member docs b :
  In b (block_pipeline docs) ->
  exists t, In t (group_of docs (hash b)) /\ tx_blockindex t = height b.
Proof.
  intros Hb. apply block_pipeline_In in Hb. destruct Hb as (g & Hg & ->).
  destruct (group_stage_inv (sort_desc tx_blockindex docs)) as (_ & _ & Hgood).
  destruct (Hgood g Hg) as (G1 & _ & G3 & first & rest & G4 & G5 & _).
  simpl. rewrite G3, G5. exists first. split; [|reflexivity].
  assert (Hin : In first (g_transactions g)) by (rewrite G4; now left).
  rewrite G1 in Hin. apply group_of_In in Hin. apply group_of_In.
  destruct Hin as [H1 H2]. split; [|exact H2].
  unfold sort_desc in H1. now apply sort_by_In in H1.
Qed.

Lemma pipeline_height docs b :
  In b (block_pipeline docs) -> height b = group_height docs (hash b).
Proof.
  intros Hb.
  destruct (pipeline_block_derived docs b Hb) as [Hne _].
  destruct (group_height_spec docs (hash b) Hne) as [(t & It & Et) Hmax].
  destruct (derived_height_member docs b Hb) as (t' & It' & Et').
  pose proof (derived_height_max docs b Hb t It).
  pose proof (Hmax t' It'). lia.
Qed.

Lemma pipeline_hash_In docs b :
  In b (block_pipeline docs) -> In (hash b) (map tx_blockhash docs).
Proof.
  intros Hb. destruct (pipeline_block_derived docs b Hb) as [Hne _].
  destruct (group_of docs (hash b)) as [|t g] eqn:E; [congruence|].
  assert (I : In t (group_of docs (hash b))) by (rewrite E; now left).
  apply group_of_In in I. destruct I as [I1 I2]. rewrite <- I2.
  now apply in_map.
Qed.

(** The hashes of the derived blocks are the distinct hashes of the log. *)
Lemma pipeline_hashes_perm docs :
  Permutation (map hash (block_pipeline docs))
              (distinct (map tx_blockhash docs)).
Proof.
  apply NoDup_Permutation;
    [apply block_pipeline_hashes_NoDup | apply distinct_NoDup|].
  intros h. rewrite distinct_In. split.
  - intros I. apply in_map_iff in I. destruct I as (b & <- & Hb).
    now apply pipeline_hash_In.
  - intros I. apply in_map_iff in I. destruct I as (t & <- & Ht).
    destruct (block_pipeline_complete docs t Ht) as (b & Hb & E).
    rewrite <- E. now apply in_map.
Qed.

Lemma pipeline_heights_perm docs :
  Permutation (map height (block_pipeline docs))
              (map (group_height docs) (distinct (map tx_blockhash docs))).
Proof.
  rewrite (map_ext_in height (fun b => group_height docs (hash b)))
    by (intros b Hb; now apply pipeline_height).
  rewrite <- (map_map hash (group_height docs)).
  apply Permutation_map, pipeline_hashes_perm.
Qed.

(** A front of the derived list leaves out no block that is higher than one
    it holds. *)
Lemma pipeline_front_highest docs n b h :
  In b (firstn n (block_pipeline docs)) ->
  In h (map tx_blockhash docs) ->
  ~ In h (map hash (firstn n (block_pipeline docs))) ->
  group_height docs h <= height b.
Proof.
  intros Hb Hh Hn.
  destruct (pipeline_block_unique docs h Hh) as (b' & _ & Hb' & <-).
  rewrite <- (pipeline_height docs b' Hb').
  rewrite <- (firstn_skipn n (block_pipeline docs)) in Hb'.
  apply in_app_or in Hb'. destruct Hb' as [I|I].
  - exfalso. apply Hn. now apply in_map.
  - pose proof (block_pipeline_descending docs) as D.
    rewrite <- (firstn_skipn n (block_pipeline docs)) in D.
    apply StronglySorted_app_inv in D. destruct D as (_ & _ & C).
    now apply C.
Qed.

(** X1. getLatestBlocks always returns a list: it is in descending order
    of height and holds no two blocks with the same hash; it is empty when
    the connection or the read of the log fails.  On a readable log and for
    a positive limit it holds min(limit, number of block hashes) blocks,
    each derived from the stored group of its hash and carrying the greatest
    height of that group, and no block hash left out has a greater height
    than a block listed. *)
Theorem getLatestBlocks_highest_first (w : World) (limit : Z) :
  exists bs,
    getLatestBlocks w limit = Ok bs
    /\ descending height bs
    /\ NoDup (map hash bs)
    /\ (forall e, connectToDatabase w = Throw e -> bs = [])
    /\ (forall db e,
          connectToDatabase w = Ok db -> txes db = Throw e -> bs = [])
    /\ forall db docs,
         connectToDatabase w = Ok db -> txes db = Ok docs -> 0 < limit ->
         Z.of_nat (List.length bs)
         = Z.min limit
             (Z.of_nat (List.length (distinct (map tx_blockhash docs))))
         /\ (forall b, In b bs ->
               derived_from docs b
               /\ height b = group_height docs (hash b))
         /\ (forall b h,
               In b bs -> In h (map tx_blockhash docs) ->
               ~ In h (map hash bs) -> group_height docs h <= height b).
Proof.
  assert (Nil : forall P : Prop, P ->
            @descending DerivedBlock height [] /\ NoDup (map hash [])
            /\ (forall e, connectToDatabase w = Throw e ->
                  @nil DerivedBlock = [])
            /\ (forall db e, connectToDatabase w = Ok db ->
                  txes db = Throw e -> @nil DerivedBlock = [])
            /\ P).
  { intros P HP. split; [constructor|]. split; [constructor|].
    split; [reflexivity|]. split; [reflexivity | exact HP]. }
  unfold getLatestBlocks.
  destruct (connectToDatabase w) as [db|e]; simpl.
  2:{ exists []. split; [reflexivity|]. apply Nil. discriminate. }
  destruct (txes db) as [docs|e] eqn:Ht; simpl.
  2:{ exists []. split; [reflexivity|]. apply Nil.
      intros db' docs' H1 H2. inversion H1; subst. congruence. }
  unfold agg_limit. destruct (Z.leb_spec limit 0) as [Hl|Hl]; simpl.
  - exists []. split; [reflexivity|]. apply Nil. intros; lia.
  - eexists. split; [reflexivity|].
    split; [apply StronglySorted_firstn, block_pipeline_descending|].
    split.
    { rewrite <- firstn_map. apply NoDup_firstn, block_pipeline_hashes_NoDup. }
    split; [discriminate|].
    split.
    { intros db' e H1 H2. inversion H1; subst db'. congruence. }
    intros db' docs' H1 H2 _. inversion H1; subst db'.
    rewrite Ht in H2. inversion H2; subst docs'. split; [|split].
    + rewrite length_firstn, block_pipeline_length. lia.
    + intros b Hb. apply In_firstn in Hb.
      split; [now apply pipeline_block_derived | now apply pipeline_height].
    + intros b h. apply pipeline_front_highest.
Qed.

(** X2. With the connection made and a positive limit, getLatestBlocks(limit)
    and page 1 of getPaginatedBlocks(1, limit) both return; both are empty
    when the read of the log fails; on a readable log they have the same
    length and the same heights in the same order, and when no two block
    hashes share a height they list the same blocks (hash, height and
    transaction count) in the same order. *)
Theorem getLatestBlocks_is_first_page (w : World) (db : Database) (limit : Z) :
  connectToDatabase w = Ok db ->
  0 < limit ->
  exists r bs,
    getPaginatedBlocks w 1 limit = Ok r
    /\ getLatestBlocks w limit = Ok bs
    /\ (forall e, txes db = Throw e -> bs = [] /\ bp_blocks r = [])
    /\ forall docs, txes db = Ok docs ->
         List.length bs = List.length (bp_blocks r)
         /\ map height bs = map height (bp_blocks r)
         /\ (one_hash_per_height docs ->
             map block_key bs = map block_key (bp_blocks r)).
Proof.
  intros Hc Hl. unfold getPaginatedBlocks, getLatestBlocks. rewrite Hc. simpl.
  destruct (txes db) as [docs|e]; simpl.
  2:{ do 2 eexists. split; [reflexivity|]. split; [reflexivity|].
      split; [auto | discriminate]. }
  unfold agg_skip, agg_limit. simpl.
  destruct (Z.leb_spec limit 0); [lia|]. simpl.
  do 2 eexists. split; [reflexivity|]. split; [reflexivity|].
  split; [discriminate|]. intros docs' _. simpl. auto.
Qed.

Lemma firstn_add {A} (a b : nat) (l : list A) :
  firstn (a + b) l = firstn a l ++ firstn b (skipn a l).
Proof.
  revert l. induction a as [|a IH]; intros l; simpl; [reflexivity|].
  destruct l as [|x l]; simpl.
  - now rewrite firstn_nil.
  - now rewrite IH.
Qed.

(** Consecutive slices of [n] items put together give back the front of the
    list. *)
Lemma slices_concat {A} (n m : nat) (l : list A) :
  flat_map (fun i => firstn n (skipn (i * n) l)) (seq 0 m)
  = firstn (m * n) l.
Proof.
  induction m as [|m IH]; [reflexivity|].
  rewrite seq_S, flat_map_app, IH. simpl flat_map. rewrite app_nil_r.
  replace (S m * n)%nat with (m * n + n)%nat by lia.
  now rewrite firstn_add.
Qed.

Lemma pages_concat {A} (f : Z -> list A) (l : list A) (limit n : Z) :
  0 < limit -> n = Z.of_nat (List.length l) ->
  (forall page, 1 <= page ->
     f page = firstn (Z.to_nat limit) (skipn (Z.to_nat ((page - 1) * limit)) l)) ->
  flat_map f (page_numbers (math_ceil_div n limit)) = l.
Proof.
  intros Hl Hn Hf. unfold page_numbers. rewrite flat_map_concat_map, map_map.
  rewrite <- flat_map_concat_map.
  rewrite (flat_map_ext _ (fun i => firstn (Z.to_nat limit)
                                      (skipn (i * Z.to_nat limit) l))).
  - rewrite slices_concat. apply firstn_all2.
    pose proof (math_ceil_div_least n limit Hl). nia.
  - intros i. rewrite Hf by lia. do 2 f_equal. nia.
Qed.

Lemma block_pages_concat (w : World) (db : Database)
  (docs : list TransactionRecord) (limit : Z) :
  connectToDatabase w = Ok db -> txes db = Ok docs -> 0 < limit ->
  flat_map (blocks_on_page w limit)
    (page_numbers
       (math_ceil_div (Z.of_nat (List.length (distinct (map tx_blockhash docs))))
                      limit))
  = block_pipeline docs.
Proof.
  intros Hc Ht Hl.
  apply pages_concat; [exact Hl | now rewrite block_pipeline_length |].
  intros page Hp. unfold blocks_on_page, getPaginatedBlocks.
  rewrite Hc. simpl. rewrite Ht. simpl. unfold agg_skip, agg_limit.
  destruct (Z.ltb_spec ((page - 1) * limit) 0); [nia|]. simpl.
  destruct (Z.leb_spec limit 0); [lia|]. reflexivity.
Qed.

Lemma transaction_pages_concat (w : World) (db : Database)
  (docs : list TransactionRecord) (limit : Z) :
  connectToDatabase w = Ok db -> txes db = Ok docs -> 0 < limit ->
  flat_map (transactions_on_page w limit)
    (page_numbers (math_ceil_div (Z.of_nat (List.length docs)) limit))
  = sort_desc tx_timestamp docs.
Proof.
  intros Hc Ht Hl.
  apply pages_concat;
    [exact Hl | unfold sort_desc; now rewrite sort_by_length |].
  intros page Hp. unfold transactions_on_page, getPaginatedTransactions.
  rewrite Hc. simpl. rewrite Ht. simpl. unfold cursor_skip, cursor_limit.
  destruct (Z.ltb_spec ((page - 1) * limit) 0); [nia|]. simpl.
  destruct (Z.eqb_spec limit 0); [lia|].
  now rewrite Zabs2Nat.abs_nat_nonneg by lia.
Qed.

(** X3. Paging loses and repeats no sort key: for a readable log and a
    positive limit, the pages 1 .. totalPages of getPaginatedBlocks, put
    together in order, hold as many blocks as the log has block hashes, in
    descending order of height, each derived from the stored group of its
    hash, and their heights are the heights of the block hashes, each once;
    when no two block hashes share a height, every block hash is listed
    exactly once.  The pages of getPaginatedTransactions, put together, are
    in descending order of timestamp and their timestamps are those of the
    log, each as often as in the log; when the timestamps of the log are
    distinct, they hold every transaction exactly once. *)
Theorem pages_cover_everything (w : World) (db : Database)
  (docs : list TransactionRecord) (limit : Z) :
  connectToDatabase w = Ok db ->
  txes db = Ok docs ->
  0 < limit ->
  let hashes := distinct (map tx_blockhash docs) in
  let blocks :=
    flat_map (blocks_on_page w limit)
      (page_numbers (math_ceil_div (Z.of_nat (List.length hashes)) limit)) in
  let txs :=
    flat_map (transactions_on_page w limit)
      (page_numbers (math_ceil_div (Z.of_nat (List.length docs)) limit)) in
  (List.length blocks = List.length hashes
   /\ descending height blocks
   /\ Forall (derived_from docs) blocks
   /\ Permutation (map height blocks) (map (group_height docs) hashes)
   /\ (one_hash_per_height docs -> Permutation (map hash blocks) hashes))
  /\ (descending tx_timestamp txs
      /\ Permutation (map tx_timestamp txs) (map tx_timestamp docs)
      /\ (NoDup (map tx_timestamp docs) -> Permutation txs docs)).
Proof.
  intros Hc Ht Hl hashes blocks txs. subst hashes blocks txs.
  rewrite (block_pages_concat w db docs limit Hc Ht Hl).
  rewrite (transaction_pages_concat w db docs limit Hc Ht Hl).
  split; [split; [|split; [|split; [|split]]] | split; [|split]].
  - apply block_pipeline_length.
  - apply block_pipeline_descending.
  - apply Forall_forall. intros b. apply pipeline_block_derived.
  - apply pipeline_heights_perm.
  - intros _. apply pipeline_hashes_perm.
  - apply sort_desc_descending.
  - apply Permutation_map, sort_by_perm.
  - intros _. apply sort_by_perm.
Qed.

(* ------------------------------------------------------------------ *)
(** ** Block detail *)

(** X4. The block detail agrees with the block list: for every block the
    listings return, getBlockByHash of its hash returns a block with the
    same transaction count, which is also the number of transactions
    getTransactionsByBlockHash returns, and with a height no greater than
    the listed one; when transactions sharing a hash share their height the
    heights agree, and when they share their timestamp the timestamps
    agree. *)
Theorem block_detail_agrees_with_list (w : World) (db : Database)
  (nhs : list NetworkHistory) (d : DerivedBlock) :
  connectToDatabase w = Ok db ->
  networkhistories db = Ok nhs ->
  listed_block w d ->
  exists docs b,
    txes db = Ok docs
    /\ getBlockByHash w (hash d) = Ok (Some b)
    /\ getTransactionsByBlockHash w (hash d) = Ok (group_of docs (hash d))
    /\ bk_txCount b = txCount d
    /\ Z.of_nat (List.length (group_of docs (hash d))) = txCount d
    /\ bk_height b <= height d
    /\ (hash_fixes_height docs -> bk_height b = height d)
    /\ (hash_fixes_timestamp docs -> bk_timestamp b = timestamp d).
Proof.
  intros Hc Hn L.
  destruct (listed_block_pipeline _ _ L) as (db' & docs & Hc' & Ht & Hb).
  rewrite Hc in Hc'. inversion Hc'; subst db'. clear Hc'.
  pose proof (derived_height_max docs d Hb) as Hmax.
  apply block_pipeline_In in Hb. destruct Hb as (g & Hg & ->).
  destruct (group_stage_inv (sort_desc tx_blockindex docs)) as (_ & _ & Hgood).
  destruct (Hgood g Hg) as (G1 & G2 & G3 & first & rest & G4 & G5 & G6).
  simpl hash in *. simpl txCount. simpl height in *. simpl timestamp.
  rewrite G3 in *.
  assert (Hlen : List.length (group_of docs (g_id g))
                 = List.length (g_transactions g)).
  { rewrite G1. apply group_of_perm_length. symmetry. apply sort_by_perm. }
  assert (Hfirst : In first docs /\ tx_blockhash first = g_id g).
  { assert (I : In first (g_transactions g)) by (rewrite G4; now left).
    rewrite G1 in I. apply group_of_In in I. destruct I as [I1 I2].
    unfold sort_desc in I1. apply sort_by_In in I1. auto. }
  destruct Hfirst as [F1 F2].
  unfold getBlockByHash, getTransactionsByBlockHash.
  rewrite Hc. simpl. rewrite Ht. simpl. fold (group_of docs (g_id g)).
  destruct (group_of docs (g_id g)) as [|t0 ts] eqn:E.
  { rewrite G4 in Hlen. discriminate. }
  assert (T0 : In t0 docs /\ tx_blockhash t0 = g_id g).
  { apply group_of_In. rewrite E. now left. }
  destruct T0 as [T1 T2].
  rewrite Hn. simpl. exists docs. eexists. split; [reflexivity|].
  split; [reflexivity|]. split; [now rewrite E|]. simpl.
  split; [now rewrite G2, <- Hlen|].
  split; [now rewrite ?E, G2, <- Hlen|].
  split; [apply Hmax; now left|].
  split.
  - intros WF. rewrite G5. apply WF; congruence.
  - intros WF. rewrite G6. apply WF; congruence.
Qed.

(** X5. What getBlockByHash attaches to a block at height [H]: the previous
    hash is that of a stored transaction at height [H - 1] (the one with the
    latest timestamp) and is null exactly when there is none; the
    difficulty is that of the snapshot with the greatest block index not
    above [H], and 0 when no snapshot is that old. *)
Theorem block_detail_links (w : World) (db : Database)
  (docs : list TransactionRecord) (nhs : list NetworkHistory)
  (h : string) (b : BlockDetail) :
  connectToDatabase w = Ok db ->
  txes db = Ok docs ->
  networkhistories db = Ok nhs ->
  getBlockByHash w h = Ok (Some b) ->
  let H := bk_height b in
  (match bk_previousblockhash b with
   | Some p =>
       exists t, In t docs /\ tx_blockindex t = H - 1 /\ tx_blockhash t = p
                 /\ forall t', In t' docs -> tx_blockindex t' = H - 1 ->
                               tx_timestamp t' <= tx_timestamp t
   | None => forall t, In t docs -> tx_blockindex t <> H - 1
   end)
  /\ ((exists n, In n nhs /\ nh_blockindex n <= H
                 /\ (forall n', In n' nhs -> nh_blockindex n' <= H ->
                                nh_blockindex n' <= nh_blockindex n)
                 /\ bk_difficulty b = nh_difficulty_pow n)
      \/ ((forall n, In n nhs -> H < nh_blockindex n)
          /\ bk_difficulty b = Some 0%Q)).
Proof.
  intros Hc Ht Hn Hb. unfold getBlockByHash in Hb.
  rewrite Hc in Hb. simpl in Hb. rewrite Ht in Hb. simpl in Hb.
  destruct (filter _ docs) as [|first rest]; [discriminate|].
  rewrite Hn in Hb. simpl in Hb. inversion Hb; subst b. clear Hb. simpl.
  split.
  - destruct (findOne (sort_desc tx_timestamp _)) as [p|] eqn:F; simpl.
    + apply findOne_sort_desc_max in F. destruct F as [F1 F2].
      apply filter_In in F1. destruct F1 as [F1 F3]. apply Z.eqb_eq in F3.
      exists p. repeat split; auto.
      intros t' Ht' Hh. apply F2, filter_In. split; [exact Ht'|].
      now apply Z.eqb_eq.
    + apply findOne_sort_none in F. intros t Hin Hh.
      assert (In t (filter (fun t0 => tx_blockindex t0 =? tx_blockindex first - 1)
                      docs)).
      { apply filter_In. split; [exact Hin | now apply Z.eqb_eq]. }
      rewrite F in H. destruct H.
  - destruct (findOne (sort_desc nh_blockindex _)) as [n|] eqn:F.
    + left. apply findOne_sort_desc_max in F. destruct F as [F1 F2].
      apply filter_In in F1. destruct F1 as [F1 F3]. apply Z.leb_le in F3.
      exists n. repeat split; auto.
      intros n' Hn' Hle. apply F2, filter_In. split; [exact Hn'|].
      now apply Z.leb_le.
    + right. apply findOne_sort_none in F. split; [|reflexivity].
      intros n Hin.
      destruct (Z.leb_spec (nh_blockindex n) (tx_blockindex first)) as [L|L];
        [|exact L].
      assert (In n (filter (fun n0 => nh_blockindex n0 <=? tx_blockindex first)
                      nhs)).
      { apply filter_In. split; [exact Hin | now apply Z.leb_le]. }
      rewrite F in H. destruct H.
Qed.

(** X6. Next and previous are inverse on a chain: when the log has one
    hash per height and one height per hash and the block store has no
    entry for the next height, the hash getNextBlockHash gives for a
    block's height names a block one higher whose previous hash is the
    block started from. *)
Theorem next_then_previous (w : World) (db : Database)
  (docs : list TransactionRecord) (nhs : list NetworkHistory)
  (bs : list BlockDoc) (h0 h1 : string) (b0 : BlockDetail) :
  connectToDatabase w = Ok db ->
  txes db = Ok docs ->
  networkhistories db = Ok nhs ->
  blocks db = Ok bs ->
  chain_log docs ->
  (forall d, In d bs -> bd_height d <> bk_height b0 + 1) ->
  getBlockByHash w h0 = Ok (Some b0) ->
  getNextBlockHash w (bk_height b0) = Ok (Some h1) ->
  exists b1,
    getBlockByHash w h1 = Ok (Some b1)
    /\ bk_height b1 = bk_height b0 + 1
    /\ bk_previousblockhash b1 = Some h0.
Proof.
  intros Hc Ht Hn Hbs Chain NoDoc Hb0 Hnext.
  (* the block started from *)
  unfold getBlockByHash in Hb0. rewrite Hc in Hb0. simpl in Hb0.
  rewrite Ht in Hb0. simpl in Hb0.
  destruct (filter (fun t => String.eqb (tx_blockhash t) h0) docs)
    as [|f0 r0] eqn:E0; [discriminate|].
  rewrite Hn in Hb0. simpl in Hb0. inversion Hb0; subst b0. clear Hb0.
  simpl in NoDoc, Hnext |- *.
  assert (F0 : In f0 docs /\ tx_blockhash f0 = h0).
  { assert (I : In f0 (filter (fun t => String.eqb (tx_blockhash t) h0) docs))
      by (rewrite E0; now left).
    apply filter_In in I. destruct I as [I1 I2].
    apply String.eqb_eq in I2. auto. }
  destruct F0 as [F0in F0h].
  (* the next hash comes from the log *)
  unfold getNextBlockHash in Hnext. rewrite Hc in Hnext. simpl in Hnext.
  rewrite Hbs in Hnext. simpl in Hnext.
  destruct (findOne (filter _ bs)) as [d|] eqn:Fd.
  { exfalso. destruct (filter _ bs) as [|d' ds] eqn:Fl; [discriminate|].
    simpl in Fd. inversion Fd; subst d'.
    assert (I : In d (filter (fun b => bd_height b =? tx_blockindex f0 + 1) bs))
      by (rewrite Fl; now left).
    apply filter_In in I. destruct I as [I1 I2]. apply Z.eqb_eq in I2.
    now apply (NoDoc d I1). }
  rewrite Ht in Hnext. simpl in Hnext.
  destruct (findOne (sort_asc tx_timestamp _)) as [t1|] eqn:F1;
    simpl in Hnext; [|discriminate].
  inversion Hnext; subst h1. clear Hnext.
  apply findOne_sort_asc_min in F1. destruct F1 as [F1 _].
  apply filter_In in F1. destruct F1 as [T1in T1h]. apply Z.eqb_eq in T1h.
  (* the block it names *)
  unfold getBlockByHash. rewrite Hc. simpl. rewrite Ht. simpl.
  destruct (filter (fun t => String.eqb (tx_blockhash t) (tx_blockhash t1)) docs)
    as [|f1 r1] eqn:E1.
  { exfalso.
    assert (I : In t1 (filter (fun t => String.eqb (tx_blockhash t)
                                          (tx_blockhash t1)) docs)).
    { apply filter_In. split; [exact T1in | apply String.eqb_refl]. }
    rewrite E1 in I. destruct I. }
  assert (F1' : In f1 docs /\ tx_blockhash f1 = tx_blockhash t1).
  { assert (I : In f1 (filter (fun t => String.eqb (tx_blockhash t)
                                          (tx_blockhash t1)) docs))
      by (rewrite E1; now left).
    apply filter_In in I. destruct I as [I1 I2].
    apply String.eqb_eq in I2. auto. }
  destruct F1' as [F1in F1h].
  assert (Hh : tx_blockindex f1 = tx_blockindex f0 + 1).
  { rewrite <- T1h. apply (Chain f1 t1 F1in T1in). exact F1h. }
  rewrite Hn. simpl. eexists. split; [reflexivity|]. simpl.
  split; [exact Hh|].
  destruct (findOne (sort_desc tx_timestamp _)) as [p|] eqn:Fp; simpl.
  - apply findOne_sort_desc_max in Fp. destruct Fp as [Fp _].
    apply filter_In in Fp. destruct Fp as [Pin Ph]. apply Z.eqb_eq in Ph.
    f_equal. rewrite <- F0h. apply (Chain p f0 Pin F0in). lia.
  - exfalso. apply findOne_sort_none in Fp.
    assert (I : In f0 (filter (fun t => tx_blockindex t =? tx_blockindex f1 - 1)
                         docs)).
    { apply filter_In. split; [exact F0in | apply Z.eqb_eq; lia]. }
    rewrite Fp in I. destruct I.
Qed.


(* ------------------------------------------------------------------ *)
(** ** Network and mining statistics *)

Lemma getMiningStats_fields (w : World) (db : Database)
  (coinStats : CoinStats) (others : list CoinStats) (nhs : list NetworkHistory) :
  connectToDatabase w = Ok db ->
  coinstats db = Ok (coinStats :: others) ->
  networkhistories db = Ok nhs ->
  let latest := findOne (sort_desc nh_timestamp nhs) in
  let stored_difficulty := nh_field_or0 nh_difficulty_pow latest in
  let stored_hashps := (nh_field_or0 nh_nethash latest / 1000)%Q in
  exists s,
    getMiningStats w = Ok s
    /\ st_blocks s = cs_count coinStats
    /\ currentSupply s = cs_supply coinStats
    /\ (st_difficulty s, st_networkhashps s)
       = mining_from_rpc w stored_difficulty stored_hashps
    /\ halvingSchedule s
       = halving_table (math_floor_div (cs_count coinStats) halvingInterval)
                       (cs_count coinStats)
    /\ currentReward s
       = div_by (inject_Z blockReward)
           (math_pow2 (math_floor_div (cs_count coinStats) halvingInterval))
    /\ specialBlocks s = special_blocks_loop db special_blocks_init
    /\ getNetworkStats w
       = Ok (mkNS (cs_count coinStats) (cs_supply coinStats)
                  (cs_txes coinStats) (cs_connections coinStats)
                  stored_hashps stored_difficulty
                  (nh_field_or0 nh_difficulty_pos latest)).
Proof.
  intros H1 H2 H3 latest sd sh. unfold getMiningStats, getNetworkStats.
  rewrite H1. simpl. rewrite H2. simpl. rewrite H3. simpl.
  fold latest. fold sd. fold sh.
  destruct (mining_from_rpc w sd sh) as [d n].
  eexists. split; [reflexivity|]. simpl. repeat split; reflexivity.
Qed.

(** X7. Where difficulty and hash rate come from.  Without mining info from
    the node (the call fails or gives null) getMiningStats reports exactly
    what getNetworkStats reports for height, supply, difficulty and hash
    rate, and the hash-rate call is not used even if it would succeed.
    With mining info, a non-zero difficulty from the node replaces the
    stored one and a zero or absent one does not; the node's hash rate,
    divided by 1000, is used when that call succeeds with a non-zero
    value. *)
Theorem mining_stats_sources (w : World) (db : Database)
  (coinStats : CoinStats) (others : list CoinStats) (nhs : list NetworkHistory) :
  connectToDatabase w = Ok db ->
  coinstats db = Ok (coinStats :: others) ->
  networkhistories db = Ok nhs ->
  exists s ns,
    getMiningStats w = Ok s /\ getNetworkStats w = Ok ns
    /\ st_blocks s = ns_count ns
    /\ currentSupply s = ns_supply ns
    /\ ((forall mi, getmininginfo (rpc w) <> Ok (Some mi)) ->
        st_difficulty s = ns_difficulty_pow ns
        /\ st_networkhashps s = ns_nethash ns)
    /\ (forall mi,
          getmininginfo (rpc w) = Ok (Some mi) ->
          st_difficulty s
          = match mi_difficulty mi with
            | Some d => if Qeq_bool d 0 then ns_difficulty_pow ns else d
            | None => ns_difficulty_pow ns
            end
          /\ st_networkhashps s
             = match getnetworkhashps (rpc w) with
               | Ok hashps =>
                   if Qeq_bool hashps 0 then ns_nethash ns
                   else (hashps / 1000)%Q
               | Throw _ => ns_nethash ns
               end).
Proof.
  intros H1 H2 H3.
  destruct (getMiningStats_fields w db coinStats others nhs H1 H2 H3)
    as (s & Hs & S1 & S2 & S3 & _ & _ & _ & Hns).
  eexists s, _. split; [exact Hs|]. split; [exact Hns|]. simpl.
  split; [exact S1|]. split; [exact S2|].
  unfold mining_from_rpc in S3. split.
  - intros Hno. destruct (getmininginfo (rpc w)) as [[mi|]|e];
      [now destruct (Hno mi) | |]; inversion S3; auto.
  - intros mi Hmi. rewrite Hmi in S3. unfold or_num in S3.
    destruct (getnetworkhashps (rpc w)) as [hashps|e];
      [destruct (Qeq_bool hashps 0)|]; inversion S3; auto.
Qed.

Lemma status_at_expected (h k : Z) :
  0 <= h -> 1 <= k ->
  status_at (h / 300000) h k (k * 300000) = expected_status (h / 300000) k.
Proof.
  intros Hh Hk. unfold status_at, expected_status.
  pose proof (Z.div_mod h 300000 ltac:(lia)) as E.
  pose proof (Z.mod_pos_bound h 300000 ltac:(lia)) as M.
  rewrite (Z.eqb_sym k).
  destruct (Z.eqb_spec (h / 300000) k); [reflexivity|].
  destruct (Z.leb_spec (k * 300000) h), (Z.ltb_spec k (h / 300000));
    try reflexivity; nia.
Qed.

Lemma halving_table_statuses (h : Z) :
  0 <= h ->
  Forall (fun e => hv_status e = expected_status (h / 300000) (hv_halving e))
         (halving_table (h / 300000) h).
Proof.
  intros Hh. unfold halving_table.
  assert (Z0 : (if h / 300000 =? 0 then active else past)
               = expected_status (h / 300000) 0).
  { unfold expected_status. rewrite (Z.eqb_sym 0).
    destruct (Z.eqb_spec (h / 300000) 0); [reflexivity|].
    pose proof (Z.div_pos h 300000 Hh ltac:(lia)).
    destruct (Z.ltb_spec 0 (h / 300000)); [reflexivity | lia]. }
  repeat (constructor;
          [first [exact Z0
                 | apply (status_at_expected h 1); lia
                 | apply (status_at_expected h 2); lia
                 | apply (status_at_expected h 3); lia
                 | apply (status_at_expected h 4); lia
                 | apply (status_at_expected h 5); lia
                 | apply (status_at_expected h 6); lia
                 | apply (status_at_expected h 7); lia
                 | apply (status_at_expected h 8); lia
                 | apply (status_at_expected h 9); lia
                 | apply (status_at_expected h 10); lia]|]).
  constructor.
Qed.

(** X8. The halving table follows the height: for a height [h >= 0] in
    cycle [c = floor(h / 300000)], the entry numbered [c] (if the table has
    one, that is [c <= 10]) is the only active one, every lower-numbered
    entry is past and every higher-numbered one is future; and the active
    entry carries the reward getMiningStats reports as [currentReward]. *)
Theorem halving_table_follows_height (w : World) (db : Database)
  (coinStats : CoinStats) (others : list CoinStats) (nhs : list NetworkHistory) :
  connectToDatabase w = Ok db ->
  coinstats db = Ok (coinStats :: others) ->
  networkhistories db = Ok nhs ->
  0 <= cs_count coinStats ->
  let c := cs_count coinStats / 300000 in
  exists s,
    getMiningStats w = Ok s
    /\ (forall e, In e (halvingSchedule s) ->
          (hv_status e = active <-> hv_halving e = c)
          /\ (hv_status e = past <-> hv_halving e < c)
          /\ (hv_status e = future <-> c < hv_halving e))
    /\ (forall e, In e (halvingSchedule s) -> hv_status e = active ->
          (hv_reward e == currentReward s)%Q)
    /\ (c <= 10 ->
        exists e, In e (halvingSchedule s) /\ hv_status e = active)
    /\ (10 < c ->
        forall e, In e (halvingSchedule s) -> hv_status e = past).
Proof.
  intros H1 H2 H3 Hh c.
  destruct (getMiningStats_fields w db coinStats others nhs H1 H2 H3)
    as (s & Hs & _ & _ & _ & S4 & S5 & _).
  rewrite math_floor_div_Z in S4, S5 by reflexivity.
  unfold halvingInterval in S4, S5. fold c in S4, S5.
  exists s. split; [exact Hs|].
  pose proof (halving_table_statuses (cs_count coinStats) Hh) as St.
  fold c in St. rewrite <- S4 in St. rewrite Forall_forall in St.
  assert (Cases : forall e, In e (halvingSchedule s) ->
            (hv_status e = active <-> hv_halving e = c)
            /\ (hv_status e = past <-> hv_halving e < c)
            /\ (hv_status e = future <-> c < hv_halving e)).
  { intros e He. rewrite (St e He). unfold expected_status.
    destruct (Z.eqb_spec (hv_halving e) c);
      [|destruct (Z.ltb_spec (hv_halving e) c)];
      repeat split; intros; try discriminate; try lia; try reflexivity. }
  split; [exact Cases|].
  assert (Rw : forall e, In e (halvingSchedule s) ->
                 (hv_reward e == 300 / 2 ^ hv_halving e)%Q).
  { intros e He. rewrite S4 in He.
    pose proof (halving_table_rewards c (cs_count coinStats)) as R.
    rewrite Forall_forall in R. now apply R. }
  split; [|split].
  - intros e He Ha. apply Cases in Ha; [|exact He].
    assert (Hk : hv_halving e <= 10).
    { rewrite S4 in He. unfold halving_table in He. simpl in He.
      repeat (destruct He as [<-|He]; [simpl; lia|]). destruct He. }
    rewrite (Rw e He), S5, Ha. unfold math_pow2.
    destruct (Z.leb_spec 1024 c); [lia|]. reflexivity.
  - intros Hc.
    assert (Hc0 : 0 <= c) by (apply Z.div_pos; lia).
    assert (Ex : exists e, In e (halving_table c (cs_count coinStats))
                           /\ hv_halving e = c).
    { unfold halving_table.
      assert (C : c = 0 \/ c = 1 \/ c = 2 \/ c = 3 \/ c = 4 \/ c = 5
                  \/ c = 6 \/ c = 7 \/ c = 8 \/ c = 9 \/ c = 10) by lia.
      pose (tbl := halving_table c (cs_count coinStats)).
      pose (dflt := mkHalving 0 0 0 0 "" past).
      destruct C as [C|[C|[C|[C|[C|[C|[C|[C|[C|[C|C]]]]]]]]]].
      - exists (nth 0 tbl dflt). split; [simpl; auto 20 | now rewrite C].
      - exists (nth 1 tbl dflt). split; [simpl; auto 20 | now rewrite C].
      - exists (nth 2 tbl dflt). split; [simpl; auto 20 | now rewrite C].
      - exists (nth 3 tbl dflt). split; [simpl; auto 20 | now rewrite C].
      - exists (nth 4 tbl dflt). split; [simpl; auto 20 | now rewrite C].
      - exists (nth 5 tbl dflt). split; [simpl; auto 20 | now rewrite C].
      - exists (nth 6 tbl dflt). split; [simpl; auto 20 | now rewrite C].
      - exists (nth 7 tbl dflt). split; [simpl; auto 20 | now rewrite C].
      - exists (nth 8 tbl dflt). split; [simpl; auto 20 | now rewrite C].
      - exists (nth 9 tbl dflt). split; [simpl; auto 20 | now rewrite C].
      - exists (nth 10 tbl dflt). split; [simpl; auto 20 | now rewrite C]. }
    destruct Ex as (e & He & Hk). rewrite <- S4 in He.
    exists e. split; [exact He|]. now apply Cases.
  - intros Hc e He. apply Cases; [exact He|].
    rewrite S4 in He. unfold halving_table in He. simpl in He.
    repeat (destruct He as [<-|He]; [simpl; lia|]). destruct He.
Qed.

Lemma special_blocks_loop_heights db bs :
  map sb_height (special_blocks_loop db bs) = map sb_height bs.
Proof.
  induction bs as [|b bs IH]; simpl; [reflexivity|].
  destruct (txes db) as [docs|]; [|reflexivity].
  destruct (findOne _); simpl; now rewrite IH.
Qed.

Lemma special_blocks_loop_ok db docs bs :
  txes db = Ok docs ->
  special_blocks_loop db bs
  = map (fun b =>
           match find (fun t => tx_blockindex t =? sb_height b) docs with
           | Some tx => mkSpecial (sb_height b) (sb_reward b)
                                  (sb_description b) (Some (tx_blockhash tx))
           | None => b
           end) bs.
Proof.
  intros H. induction bs as [|b bs IH]; simpl; [reflexivity|].
  rewrite H. unfold findOne. rewrite hd_error_filter.
  destruct (find _ docs); simpl; now rewrite IH.
Qed.

(** X9. The special blocks never stop the mining statistics: with the
    height and the network history readable getMiningStats returns the
    entries for heights 1, 2 and 3 in that order even when the transaction
    log cannot be read (then without hashes); with a readable log an entry
    has the hash of a stored transaction at its height, and none exactly
    when the log has no transaction at that height. *)
Theorem special_blocks_tolerate_failure (w : World) (db : Database)
  (coinStats : CoinStats) (others : list CoinStats) (nhs : list NetworkHistory) :
  connectToDatabase w = Ok db ->
  coinstats db = Ok (coinStats :: others) ->
  networkhistories db = Ok nhs ->
  exists s,
    getMiningStats w = Ok s
    /\ map sb_height (specialBlocks s) = [1; 2; 3]
    /\ (forall e, txes db = Throw e ->
          Forall (fun b => sb_hash b = None) (specialBlocks s))
    /\ (forall docs, txes db = Ok docs ->
          Forall (fun b =>
                    match sb_hash b with
                    | Some h => exists t, In t docs
                                          /\ tx_blockindex t = sb_height b
                                          /\ tx_blockhash t = h
                    | None => forall t, In t docs ->
                                        tx_blockindex t <> sb_height b
                    end) (specialBlocks s)).
Proof.
  intros H1 H2 H3.
  destruct (getMiningStats_fields w db coinStats others nhs H1 H2 H3)
    as (s & Hs & _ & _ & _ & _ & _ & S6 & _).
  exists s. split; [exact Hs|]. rewrite S6. split; [|split].
  - now rewrite special_blocks_loop_heights.
  - intros e He. simpl. rewrite He. repeat constructor.
  - intros docs Hd. rewrite (special_blocks_loop_ok db docs _ Hd).
    apply Forall_map, Forall_forall. intros b Hb.
    destruct (find _ docs) as [tx|] eqn:F; simpl.
    + apply find_some in F. destruct F as [F1 F2]. apply Z.eqb_eq in F2.
      eauto.
    + assert (Hn : sb_hash b = None).
      { simpl in Hb. destruct Hb as [<-|[<-|[<-|[]]]]; reflexivity. }
      rewrite Hn. intros t Ht. apply (find_none _ _ F) in Ht.
      now apply Z.eqb_neq in Ht.
Qed.


(* ------------------------------------------------------------------ *)
(** ** The mempool view *)





(* ------------------------------------------------------------------ *)
(** ** Transaction detail *)

Lemma detail_output_total (outs : list RawOutput) (acc acc' : list TxIO * Z) :
  snd acc = sum_amounts (fst acc) ->
  foldM detail_output_step outs acc = Ok acc' ->
  snd acc' = sum_amounts (fst acc').
Proof.
  revert acc. induction outs as [|o outs IH]; intros acc Ha; simpl.
  - intros H. inversion H. now subst.
  - unfold detail_output_step at 1.
    destruct (output_addresses o) as [[|a l]|e]; simpl; try discriminate.
    + apply IH. exact Ha.
    + apply IH. simpl. unfold sum_amounts, js_sum in *.
      rewrite map_app, fold_left_app, <- Ha. reflexivity.
Qed.

Lemma detail_input_step_origin (w : World) (ins : list RawInput)
  (vin vin' : list TxIO) (i : RawInput) :
  In i ins ->
  Forall (input_origin w ins) vin ->
  detail_input_step w vin i = Ok vin' ->
  Forall (input_origin w ins) vin'
  /\ (List.length vin' <= S (List.length vin))%nat
  /\ (previous_unavailable w i ->
      vin' = if truthy_str (ri_coinbase i)
             then vin ++ [mkTxIO "coinbase" 0] else vin).
Proof.
  intros Hi Hv. unfold detail_input_step.
  assert (New : forall io, input_origin w ins io ->
                           Forall (input_origin w ins) (vin ++ [io])).
  { intros io Hio. apply Forall_app. split; [exact Hv | now constructor]. }
  destruct (truthy_str (ri_coinbase i)) eqn:Cb.
  { intros H. inversion H; subst. split; [apply New; now left|].
    split; [rewrite length_app; simpl; lia | reflexivity]. }
  destruct (truthy_str (ri_txid i)) eqn:Tx.
  2:{ intros H. inversion H; subst. split; [exact Hv|]. split; [lia|auto]. }
  destruct (ri_txid i) as [t|] eqn:Et; [|discriminate].
  destruct (getRawTransaction w t) as [[prev|]|e] eqn:Gp; simpl.
  3:{ intros H. inversion H; subst. split; [apply New; right; now left|].
      split; [rewrite length_app; simpl; lia|].
      intros U. specialize (U Cb t Et). congruence. }
  2:{ intros H. inversion H; subst. split; [exact Hv|]. split; [lia|auto]. }
  destruct (rt_vout prev) as [outs|] eqn:Ev; simpl.
  2:{ intros H. inversion H; subst. split; [exact Hv|]. split; [lia|].
      intros U. specialize (U Cb t Et). congruence. }
  destruct (nth_error outs (ri_vout i)) as [o|] eqn:En; simpl.
  2:{ intros H. inversion H; subst. split; [exact Hv|]. split; [lia|].
      intros U. specialize (U Cb t Et). congruence. }
  unfold output_addresses.
  destruct (ro_scriptPubKey o) as [[[[|a rest]|]]|] eqn:Es; simpl;
    intros H; inversion H; subst;
    (split; [|split; [rewrite ?length_app; simpl; lia
                     | intros U; specialize (U Cb t Et);
                       congruence]]);
    try exact Hv.
  - apply New. right; right. exists i, t, prev, outs, o, a, rest.
    unfold SATOSHIS. repeat split; auto.
  - apply New. right; now left.
Qed.

Lemma detail_input_fold (w : World) (ins all : list RawInput)
  (vin vin' : list TxIO) :
  incl ins all ->
  Forall (input_origin w all) vin ->
  foldM (detail_input_step w) ins vin = Ok vin' ->
  Forall (input_origin w all) vin'
  /\ (List.length vin' <= List.length vin + List.length ins)%nat
  /\ (Forall (previous_unavailable w) ins ->
      vin' = vin ++ map (fun _ => mkTxIO "coinbase" 0)
                        (filter (fun i => truthy_str (ri_coinbase i)) ins)).
Proof.
  revert vin. induction ins as [|i ins IH]; intros vin Hincl Hv; simpl.
  - intros H. inversion H; subst. split; [exact Hv|]. split; [lia|].
    intros _. now rewrite app_nil_r.
  - destruct (detail_input_step w vin i) as [v1|e] eqn:S1; simpl;
      [|discriminate].
    intros H.
    destruct (detail_input_step_origin w all vin v1 i
                (Hincl i (or_introl eq_refl)) Hv S1) as (O1 & O2 & O3).
    destruct (IH v1 (fun x Hx => Hincl x (or_intror Hx)) O1 H)
      as (I1 & I2 & I3).
    split; [exact I1|]. split; [lia|].
    intros U. inversion U as [|? ? U1 U2]; subst.
    rewrite (I3 U2), (O3 U1).
    destruct (truthy_str (ri_coinbase i)); simpl;
      [now rewrite <- app_assoc | reflexivity].
Qed.
Lemma process_raw_facts (w : World) (mempoolTx : MempoolEntry)
  (raw : RawTx) (p : ProcessedTx) :
  process_raw w mempoolTx raw = Ok p ->
  let ins := match rt_vin raw with Some ins => ins | None => [] end in
  p_txid p = rt_txid raw
  /\ p_timestamp p = mp_time mempoolTx
  /\ p_isPending p = true
  /\ p_total p = sum_amounts (p_vout p)
  /\ Forall (input_origin w ins) (p_vin p)
  /\ (List.length (p_vin p) <= List.length ins)%nat
  /\ (Forall (previous_unavailable w) ins ->
      p_vin p = map (fun _ => mkTxIO "coinbase" 0)
                    (filter (fun i => truthy_str (ri_coinbase i)) ins)).
Proof.
  intros H ins. unfold process_raw in H.
  destruct (match rt_vin raw with
            | Some ins => foldM (detail_input_step w) ins []
            | None => Ok []
            end) as [vin|e] eqn:V; simpl in H; [|discriminate].
  destruct (match rt_vout raw with
            | Some outs => foldM detail_output_step outs ([], 0)
            | None => Ok ([], 0)
            end) as [out|e] eqn:O; simpl in H; [|discriminate].
  inversion H; subst p; simpl. clear H.
  split; [reflexivity|]. split; [reflexivity|]. split; [reflexivity|].
  split.
  { destruct (rt_vout raw) as [outs|].
    - eapply detail_output_total; [|exact O]. reflexivity.
    - inversion O. reflexivity. }
  subst ins. destruct (rt_vin raw) as [ins|].
  - destruct (detail_input_fold w ins ins [] vin (incl_refl _)
                (Forall_nil _) V) as (F1 & F2 & F3).
    split; [exact F1|]. split; [simpl in F2; lia | exact F3].
  - inversion V; subst. split; [constructor|]. split; [simpl; lia|].
    reflexivity.
Qed.

(** X12. The order in which getTransactionById resolves an id.  With the
    log readable: a stored transaction with that id is returned as it is,
    whatever the mempool and the node hold; otherwise, with the mempool
    readable, the result is null exactly when the mempool has no entry
    with that id, and else a pending transaction that is flagged pending,
    carries the mempool entry's time, has [total] equal to its listed
    output amounts added up one by one as doubles (their exact sum while
    they stay within 2^53), and is either built from the node's raw
    transaction or is the bare entry with no inputs, no outputs and
    total 0. *)
Theorem transaction_resolution_order (w : World) (db : Database)
  (docs : list TransactionRecord) (txid : string) :
  connectToDatabase w = Ok db ->
  txes db = Ok docs ->
  match tx_of docs txid with
  | Some t => getTransactionById w txid = Ok (Some (Confirmed t))
  | None =>
      forall mp, mempool db = Ok mp ->
        match find (fun e => String.eqb (mp_txid e) txid) mp with
        | None => getTransactionById w txid = Ok None
        | Some e =>
            exists p,
              getTransactionById w txid = Ok (Some (Pending p))
              /\ p_isPending p = true
              /\ p_timestamp p = mp_time e
              /\ p_total p = sum_amounts (p_vout p)
              /\ (exact_range (p_vout p) ->
                  p_total p = sum_Z (map amount (p_vout p)))
              /\ (p = pending_fallback e
                  \/ exists raw,
                       getRawTransaction w txid = Ok (Some raw)
                       /\ process_raw w e raw = Ok p)
        end
  end.
Proof.
  intros Hc Ht. unfold getTransactionById. rewrite Hc. simpl.
  rewrite Ht. simpl. unfold findOne, tx_of. rewrite hd_error_filter.
  destruct (find _ docs) as [t|]; [reflexivity|].
  intros mp Hm. rewrite Hm. simpl. rewrite hd_error_filter.
  destruct (find _ mp) as [e|]; [|reflexivity].
  assert (Fb : exists p,
             Ok (Some (Pending (pending_fallback e)))
             = Ok (Some (Pending p))
             /\ p_isPending p = true /\ p_timestamp p = mp_time e
             /\ p_total p = sum_amounts (p_vout p)
             /\ (exact_range (p_vout p) ->
                 p_total p = sum_Z (map amount (p_vout p)))
             /\ (p = pending_fallback e
                 \/ exists raw, getRawTransaction w txid = Ok (Some raw)
                                /\ process_raw w e raw = Ok p)).
  { exists (pending_fallback e). simpl. repeat split; auto. }
  destruct (getRawTransaction w txid) as [[raw|]|er] eqn:G; simpl;
    try exact Fb.
  destruct (process_raw w e raw) as [p|ep] eqn:P; simpl; try exact Fb.
  destruct (process_raw_facts w e raw p P) as (_ & F2 & F3 & F4 & _).
  exists p. split; [reflexivity|]. split; [exact F3|]. split; [exact F2|].
  split; [exact F4|]. split.
  - intros X. rewrite F4. now apply sum_amounts_exact.
  - right. exists raw. auto.
Qed.

(** X13. How getTransactionById resolves inputs.  For an id that is not in
    the log but in the mempool, and whose raw transaction the node gives, a
    pending transaction is returned.  Every input it shows is a "coinbase"
    entry of amount 0, an "unknown" entry of amount 0, or the first address
    and the scaled value of the output that the input spends, read from the
    previous transaction the node returned; there are never more entries
    than raw inputs.  When every output of the raw transaction has a
    scriptPubKey and the node cannot give the previous transactions, the
    inputs spending them are left out altogether, so only the coinbase
    entries remain; when an output has no scriptPubKey the bare mempool
    entry is returned, with no inputs at all. *)
Theorem transaction_inputs_resolved (w : World) (db : Database)
  (docs : list TransactionRecord) (mp : list MempoolEntry)
  (e : MempoolEntry) (txid : string) (raw : RawTx) :
  connectToDatabase w = Ok db ->
  txes db = Ok docs ->
  tx_of docs txid = None ->
  mempool db = Ok mp ->
  find (fun e => String.eqb (mp_txid e) txid) mp = Some e ->
  getRawTransaction w txid = Ok (Some raw) ->
  let ins := match rt_vin raw with Some ins => ins | None => [] end in
  exists p,
    getTransactionById w txid = Ok (Some (Pending p))
    /\ Forall (input_origin w ins) (p_vin p)
    /\ (List.length (p_vin p) <= List.length ins)%nat
    /\ (Forall (fun o => ro_scriptPubKey o <> None) (raw_outputs raw) ->
        Forall (previous_unavailable w) ins ->
        p_vin p = map (fun _ => mkTxIO "coinbase" 0)
                      (filter (fun i => truthy_str (ri_coinbase i)) ins))
    /\ (Exists (fun o => ro_scriptPubKey o = None) (raw_outputs raw) ->
        p = pending_fallback e).
Proof.
  intros Hc Ht Hn Hm Hf Hr ins.
  unfold getTransactionById. rewrite Hc. simpl.
  rewrite Ht. simpl. unfold findOne, tx_of in *.
  rewrite hd_error_filter, Hn, Hm. simpl.
  rewrite hd_error_filter, Hf, Hr. simpl.
  destruct (process_raw w e raw) as [p|ep] eqn:P; simpl.
  - destruct (process_raw_facts w e raw p P)
      as (_ & _ & _ & _ & F5 & F6 & F7).
    exists p. split; [reflexivity|]. split; [exact F5|]. split; [exact F6|].
    split; [intros _; exact F7|].
    intros X. rewrite (process_raw_throws w e raw X) in P. discriminate.
  - exists (pending_fallback e). split; [reflexivity|]. simpl.
    split; [constructor|]. split; [lia|]. split; [|reflexivity].
    intros F _. destruct (process_raw_outputs w e raw F) as (p & P' & _).
    rewrite P' in P. discriminate.
Qed.

(* ------------------------------------------------------------------ *)
(** ** Difficulty history: size and failures *)

(** X14. The size of the difficulty history and what a failing source
    does.  Once the connection is made getDifficultyHistory returns a
    list; for a positive [limit] it has at most [limit] points; and a read
    that fails ends the cascade with an empty list: a failing network
    history is not replaced by the block store, nor a failing block store
    by the reconstruction from the log. *)
Theorem difficulty_history_bounded (w : World) (db : Database) (limit : Z) :
  connectToDatabase w = Ok db ->
  exists r,
    getDifficultyHistory w limit = Ok r
    /\ (0 < limit -> Z.of_nat (List.length r) <= limit)
    /\ (forall e, networkhistories db = Throw e -> r = [])
    /\ (forall e, networkhistories db = Ok [] -> blocks db = Throw e ->
                  r = [])
    /\ (forall e, networkhistories db = Ok [] -> blocks db = Ok [] ->
                  txes db = Throw e -> r = [])
    /\ (networkhistories db = Ok [] -> blocks db = Ok [] ->
        txes db = Ok [] -> r = []).
Proof.
  intros Hc. unfold getDifficultyHistory. rewrite Hc. simpl.
  destruct (networkhistories db) as [nhs|e1] eqn:Hn; simpl.
  2:{ exists []. split; [reflexivity|]. split; [simpl; lia|].
      repeat split. }
  destruct (cursor_limit limit (sort_desc nh_blockindex nhs))
    as [|n0 hsrc] eqn:E1.
  2:{ eexists. split; [reflexivity|]. split.
      - intros Hl. rewrite length_map. unfold sort_asc.
        rewrite sort_by_length, <- E1. now apply cursor_limit_length_le.
      - repeat split; intros; try discriminate;
          match goal with
          | H : Ok nhs = Ok [] |- _ =>
              inversion H; subst; simpl in *;
              rewrite cursor_limit_nil in *; discriminate
          end. }
  destruct (blocks db) as [bs|e2] eqn:Hb; simpl.
  2:{ exists []. split; [reflexivity|]. split; [simpl; lia|].
      repeat split. }
  destruct (cursor_limit limit (sort_desc bd_height bs))
    as [|b0 bsrc] eqn:E2.
  2:{ eexists. split; [reflexivity|]. split.
      - intros Hl. rewrite length_map. unfold sort_asc.
        rewrite sort_by_length, <- E2. now apply cursor_limit_length_le.
      - repeat split; intros; try discriminate;
          match goal with
          | H : Ok bs = Ok [] |- _ =>
              inversion H; subst; simpl in *;
              rewrite cursor_limit_nil in *; discriminate
          end. }
  destruct (txes db) as [docs|e3] eqn:Ht; simpl.
  2:{ exists []. split; [reflexivity|]. split; [simpl; lia|].
      repeat split. }
  destruct (cursor_limit 1 (sort_desc tx_blockindex docs))
    as [|latest ls] eqn:E3; simpl.
  { exists []. split; [reflexivity|]. split; [simpl; lia|].
    repeat split. }
  rewrite (reconstruct_fold db docs nhs _ _ Ht Hn). simpl.
  eexists. split; [reflexivity|]. split.
  - intros Hl. unfold sort_asc. rewrite sort_by_length.
    pose proof (flat_map_point_at_length docs nhs
                  (block_heights (Z.max 1 (tx_blockindex latest - limit + 1))
                                 (tx_blockindex latest) limit)).
    pose proof (block_heights_length
                  (Z.max 1 (tx_blockindex latest - limit + 1))
                  (tx_blockindex latest) limit).
    lia.
  - repeat split; intros; try discriminate.
    match goal with
    | H : Ok docs = Ok [] |- _ =>
        inversion H; subst; simpl in *; discriminate
    end.
Qed.


(* ------------------------------------------------------------------ *)
(** ** The price cache: replies and failures *)

Lemma getADVCPrice_step (c : option PriceCache) (q : PriceQuery) :
  let r := getADVCPrice c q in
  returned r = cache_price (cache_after r)
  /\ (cache_after r = c
      \/ exists usd, q_fetch q = Quote usd /\ served r = FromFetch
                     /\ cache_after r
                        = Some (mkPriceCache (toFixed6 usd) (q_now_stored q))).
Proof.
  unfold getADVCPrice.
  destruct c as [pc|];
    [destruct (q_now q - pc_timestamp pc <? CACHE_DURATION)|];
    destruct (q_fetch q) eqn:F; simpl; (split; [reflexivity|]);
    try (left; reflexivity); right; eexists; repeat split; reflexivity.
Qed.

(** X15. Reply and cache go together: in any run of calls, from any
    starting cache, each call returns exactly the price the cache holds
    when the call ends (the default "0.000000" if it then holds none), and
    the cache a run ends with differs from the one it started with only if
    some call of the run fetched a quote. *)
Theorem price_reply_matches_cache (c : option PriceCache)
  (qs : list PriceQuery) :
  Forall (fun r => returned r = cache_price (cache_after r))
         (run_queries c qs)
  /\ (final_cache c qs = c
      \/ Exists (fun r => served r = FromFetch) (run_queries c qs)).
Proof.
  revert c. induction qs as [|q qs IH]; intros c; cbn [run_queries].
  - split; [constructor | now left].
  - destruct (getADVCPrice_step c q) as [S1 S2]. cbv zeta in S1, S2.
    destruct (IH (cache_after (getADVCPrice c q))) as [I1 I2].
    split; [constructor; assumption|].
    unfold final_cache in *. simpl.
    destruct I2 as [I2|I2]; [|right; now apply Exists_cons_tl].
    destruct S2 as [S2|(usd & _ & S2 & _)].
    + left. now rewrite I2.
    + right. now apply Exists_cons_hd.
Qed.

(** X16. A failure is never remembered: while the cache is empty or no
    longer valid and the feed keeps failing, every call makes a request,
    leaves the cache as it found it and returns what the cache has to
    offer. *)
Theorem price_failure_not_cached (c : option PriceCache)
  (qs : list PriceQuery) :
  Forall (fun q => fetch_fails (q_fetch q) = true
                   /\ cache_valid c (q_now q) = false) qs ->
  Forall (fun r => fetch_attempted r = true /\ cache_after r = c
                   /\ returned r = cache_price c)
         (run_queries c qs)
  /\ final_cache c qs = c.
Proof.
  induction 1 as [|q qs [Hf Hv] _ [IH1 IH2]]; cbn [run_queries].
  - split; [constructor | reflexivity].
  - assert (E : getADVCPrice c q
                = mkReply (cache_price c)
                          (match c with
                           | Some _ => FromStaleCache
                           | None => FromDefault
                           end) c).
    { unfold getADVCPrice. destruct c as [pc|]; simpl in *.
      - rewrite Hv. destruct (q_fetch q); try reflexivity; discriminate.
      - destruct (q_fetch q); try reflexivity; discriminate. }
    unfold final_cache in *. simpl. rewrite E. simpl. split; [|exact IH2].
    constructor; [|exact IH1].
    unfold fetch_attempted. simpl. destruct c; auto.
Qed.


(* ------------------------------------------------------------------ *)
(** ** Address views, rich list, recent transactions *)


(** X18. The rich list holds the richest addresses: with the connection
    made and the collection readable, getRichList returns addresses in
    descending order of balance, none left out has a greater balance than
    one listed, a positive [limit] gives min(limit, number of addresses)
    entries, and getAddressInfo finds a record for each listed address. *)
Theorem rich_list_richest (w : World) (db : Database)
  (docs : list AddressRecord) (limit : Z) :
  connectToDatabase w = Ok db ->
  exists r,
    getRichList w (Ok docs) limit = Ok r
    /\ descending balance r
    /\ top_of balance docs r
    /\ (0 < limit ->
        Z.of_nat (List.length r)
        = Z.min limit (Z.of_nat (List.length docs)))
    /\ forall a, In a r ->
         exists a', getAddressInfo w (Ok docs) (a_id a) = Ok (Some a')
                    /\ a_id a' = a_id a /\ In a' docs.
Proof.
  intros Hc. unfold getRichList, getAddressInfo. rewrite Hc. simpl.
  eexists. split; [reflexivity|].
  split; [apply cursor_limit_descending, sort_desc_descending|].
  split; [apply cursor_limit_top_of|]. split.
  - intros Hl. rewrite cursor_limit_length by exact Hl.
    unfold sort_desc. rewrite sort_by_length. lia.
  - intros a Ha. apply cursor_limit_In in Ha. unfold sort_desc in Ha.
    apply sort_by_In in Ha. unfold findOne. rewrite hd_error_filter.
    destruct (find _ docs) as [a'|] eqn:F.
    + apply find_some in F. destruct F as [F1 F2].
      apply String.eqb_eq in F2. eauto.
    + apply (find_none _ _ F) in Ha. rewrite String.eqb_refl in Ha.
      discriminate.
Qed.
(** X19. getRecentTransactions always returns a list, newest first, and
    an empty one when the connection or the read of the log fails.  With a
    readable log it holds the transactions with the latest timestamps:
    none left out is newer than one listed, and a positive limit gives
    min(limit, number of transactions) of them; the first page of
    getPaginatedTransactions for the same limit shows the same timestamps
    in the same order, and the same transactions when the timestamps of
    the log are distinct; and getTransactionById resolves the id of each
    as a confirmed transaction with that id. *)
Theorem recent_transactions_newest (w : World) (limit : Z) :
  exists ts,
    getRecentTransactions w limit = Ok ts
    /\ descending tx_timestamp ts
    /\ (forall e, connectToDatabase w = Throw e -> ts = [])
    /\ (forall db e,
          connectToDatabase w = Ok db -> txes db = Throw e -> ts = [])
    /\ forall db docs,
         connectToDatabase w = Ok db -> txes db = Ok docs ->
         top_of tx_timestamp docs ts
         /\ (0 < limit ->
             Z.of_nat (List.length ts)
             = Z.min limit (Z.of_nat (List.length docs)))
         /\ (exists r, getPaginatedTransactions w 1 limit = Ok r
                       /\ map tx_timestamp (tp_transactions r)
                          = map tx_timestamp ts
                       /\ (NoDup (map tx_timestamp docs) ->
                           tp_transactions r = ts))
         /\ forall t, In t ts ->
              exists t', getTransactionById w (tx_txid t)
                         = Ok (Some (Confirmed t'))
                         /\ tx_txid t' = tx_txid t.
Proof.
  unfold getRecentTransactions.
  destruct (connectToDatabase w) as [db|e] eqn:Hc; simpl.
  2:{ exists []. split; [reflexivity|]. split; [constructor|].
      split; [reflexivity|]. split; [reflexivity | discriminate]. }
  destruct (txes db) as [docs|e] eqn:Ht; simpl.
  2:{ exists []. split; [reflexivity|]. split; [constructor|].
      split; [reflexivity|]. split; [reflexivity|].
      intros db' docs' H1 H2. inversion H1; subst. congruence. }
  eexists. split; [reflexivity|].
  split; [apply cursor_limit_descending, sort_desc_descending|].
  split; [discriminate|]. split.
  { intros db' e H1 H2. inversion H1; subst. congruence. }
  intros db' docs' H1 H2. inversion H1; subst db'.
  rewrite Ht in H2. inversion H2; subst docs'.
  split; [apply cursor_limit_top_of|]. split; [|split].
  - intros Hl. rewrite cursor_limit_length by exact Hl.
    unfold sort_desc. rewrite sort_by_length. lia.
  - unfold getPaginatedTransactions. rewrite Hc. simpl. rewrite Ht. simpl.
    eexists. split; [reflexivity|]. simpl. auto.
  - intros t Hin. apply cursor_limit_In in Hin. unfold sort_desc in Hin.
    apply sort_by_In in Hin.
    unfold getTransactionById. rewrite Hc. simpl. rewrite Ht. simpl.
    unfold findOne. rewrite hd_error_filter.
    destruct (find _ docs) as [t'|] eqn:F.
    + apply find_some in F. destruct F as [_ F].
      apply String.eqb_eq in F. eauto.
    + apply (find_none _ _ F) in Hin. rewrite String.eqb_refl in Hin.
      discriminate.
Qed.



(* ------------------------------------------------------------------ *)
(** ** Known addresses *)

Lemma obj_own_set {V} (acc : JsObject V) (k a : string) (v : V) :
  obj_own (obj_set acc k v) a
  = if String.eqb k a then Some v else obj_own acc a.
Proof.
  induction acc as [|[k' v'] acc IH]; simpl.
  - reflexivity.
  - destruct (String.eqb_spec k' k) as [->|Hk]; simpl.
    + destruct (String.eqb k a); reflexivity.
    + rewrite IH. destruct (String.eqb_spec k' a) as [->|Ha];
        [|reflexivity].
      destruct (String.eqb_spec k a); [congruence | reflexivity].
Qed.

Lemma find_app_first {A} (f : A -> bool) (l1 l2 : list A) :
  find f (l1 ++ l2)
  = match find f l1 with
    | Some x => Some x
    | None => find f l2
    end.
Proof.
  induction l1 as [|x l1 IH]; simpl; [reflexivity|].
  destruct (f x); [reflexivity | exact IH].
Qed.

(** Building the map keeps, for each address, the last entry that has it. *)
Lemma build_map_own (l : list KnownAddress) (acc : JsObject KnownAddress)
  (a : string) :
  obj_own (fold_left (fun acc addr => obj_set acc (ka_address addr) addr)
                     l acc) a
  = match find (fun k => String.eqb (ka_address k) a) (rev l) with
    | Some k => Some k
    | None => obj_own acc a
    end.
Proof.
  revert acc. induction l as [|x l IH]; intros acc; simpl; [reflexivity|].
  rewrite IH, find_app_first, obj_own_set. simpl.
  destruct (find _ (rev l)); [reflexivity|].
  destruct (String.eqb (ka_address x) a); reflexivity.
Qed.

Lemma NoDup_map_injective {A B} (f : A -> B) (l : list A) (x y : A) :
  NoDup (map f l) -> In x l -> In y l -> f x = f y -> x = y.
Proof.
  induction l as [|z l IH]; simpl; intros Hnd Hx Hy E; [destruct Hx|].
  inversion Hnd as [|? ? Hnin Hnd']; subst.
  destruct Hx as [->|Hx], Hy as [->|Hy]; auto.
  - exfalso. apply Hnin. rewrite E. now apply in_map.
  - exfalso. apply Hnin. rewrite <- E. now apply in_map.
Qed.

Lemma knownAddresses_distinct : NoDup (map ka_address knownAddresses).
Proof.
  unfold knownAddresses. simpl.
  repeat (constructor; [simpl; intuition discriminate|]). constructor.
Qed.

Lemma knownAddresses_tagged :
  Forall (fun k => String.eqb (ka_tag k) "" = false) knownAddresses.
Proof. unfold knownAddresses. repeat constructor. Qed.

Lemma knownAddressesMap_own (a : string) :
  obj_own knownAddressesMap a
  = find (fun k => String.eqb (ka_address k) a) (rev knownAddresses).
Proof.
  unfold knownAddressesMap. rewrite build_map_own.
  destruct (find _ (rev knownAddresses)); reflexivity.
Qed.

(** X21. Lookup in the known-address map.  Every address of the table is
    found with its own record and tag.  An address that is not in the
    table has no tag, and getKnownAddress gives null for it, unless the
    string is one of the member names a plain object inherits (such as
    "constructor"), for which it returns the inherited member instead of
    null.  Whatever record is found belongs to the table and has the
    address asked for. *)
Theorem known_address_lookup :
  (forall k, In k knownAddresses ->
     getKnownAddress (ka_address k) = Own k
     /\ getAddressTag (ka_address k) = Some (ka_tag k))
  /\ (forall a, (forall k, In k knownAddresses -> ka_address k <> a) ->
        getAddressTag a = None
        /\ (if existsb (String.eqb a) object_prototype_keys
            then getKnownAddress a = Inherited
            else getKnownAddress a = Undefined))
  /\ (forall a k, getKnownAddress a = Own k ->
        In k knownAddresses /\ ka_address k = a)
  /\ (forall a t, getAddressTag a = Some t <->
        exists k, In k knownAddresses /\ ka_address k = a /\ ka_tag k = t).
Proof.
  assert (Found : forall k, In k knownAddresses ->
            obj_own knownAddressesMap (ka_address k) = Some k).
  { intros k Hk. rewrite knownAddressesMap_own.
    destruct (find _ (rev knownAddresses)) as [k'|] eqn:F.
    - apply find_some in F. destruct F as [F1 F2].
      apply in_rev in F1. apply String.eqb_eq in F2. f_equal.
      now apply (NoDup_map_injective ka_address knownAddresses k' k
                   knownAddresses_distinct).
    - apply in_rev in Hk. apply (find_none _ _ F) in Hk.
      rewrite String.eqb_refl in Hk. discriminate. }
  assert (Missing : forall a,
            (forall k, In k knownAddresses -> ka_address k <> a) ->
            obj_own knownAddressesMap a = None).
  { intros a Ha. rewrite knownAddressesMap_own.
    destruct (find _ (rev knownAddresses)) as [k'|] eqn:F; [|reflexivity].
    apply find_some in F. destruct F as [F1 F2].
    apply in_rev in F1. apply String.eqb_eq in F2.
    now destruct (Ha k' F1). }
  assert (Sound : forall a k, obj_own knownAddressesMap a = Some k ->
            In k knownAddresses /\ ka_address k = a).
  { intros a k H. rewrite knownAddressesMap_own in H.
    apply find_some in H. destruct H as [H1 H2].
    apply in_rev in H1. apply String.eqb_eq in H2. auto. }
  assert (Tag : forall k, In k knownAddresses ->
                          String.eqb (ka_tag k) "" = false).
  { intros k Hk. pose proof knownAddresses_tagged as T.
    rewrite Forall_forall in T. now apply T. }
  split; [|split; [|split]].
  - intros k Hk. unfold getKnownAddress, getAddressTag, obj_get.
    rewrite (Found k Hk), (Tag k Hk). auto.
  - intros a Ha. unfold getKnownAddress, getAddressTag, obj_get.
    rewrite (Missing a Ha).
    destruct (existsb (String.eqb a) object_prototype_keys); auto.
  - intros a k. unfold getKnownAddress, obj_get.
    destruct (obj_own knownAddressesMap a) as [k'|] eqn:O.
    + intros H. inversion H; subst. now apply Sound.
    + destruct (existsb _ _); discriminate.
  - intros a t. unfold getAddressTag, obj_get. split.
    + destruct (obj_own knownAddressesMap a) as [k|] eqn:O.
      * destruct (Sound a k O) as [S1 S2]. rewrite (Tag k S1).
        intros H. inversion H. eauto.
      * destruct (existsb _ _); discriminate.
    + intros (k & K1 & <- & <-). now rewrite (Found k K1), (Tag k K1).
Qed.

(* ------------------------------------------------------------------ *)
(** ** Next block, and blocks that are not there *)

(** X22. What getNextBlockHash answers for a readable store: the hash of
    the block store's entry for the next height if it has one, else the
    block hash of a stored transaction at that height (the earliest by
    timestamp), and null exactly when neither the block store nor the log
    has the next height; and it answers null, not an error, when the block
    store cannot be read, even if the log has the next height. *)
Theorem next_block_hash_sources (w : World) (db : Database)
  (currentHeight : Z) :
  connectToDatabase w = Ok db ->
  exists r,
    getNextBlockHash w currentHeight = Ok r
    /\ (forall e, blocks db = Throw e -> r = None)
    /\ (forall bs docs, blocks db = Ok bs -> txes db = Ok docs ->
          (forall b, find (fun b => bd_height b =? currentHeight + 1) bs
                     = Some b -> r = Some (bd_hash b))
          /\ (forall h, r = Some h ->
                (exists b, In b bs /\ bd_height b = currentHeight + 1
                           /\ bd_hash b = h)
                \/ (exists t, In t docs
                              /\ tx_blockindex t = currentHeight + 1
                              /\ tx_blockhash t = h
                              /\ forall t', In t' docs ->
                                   tx_blockindex t' = currentHeight + 1 ->
                                   tx_timestamp t <= tx_timestamp t'))
          /\ (r = None <->
              (forall b, In b bs -> bd_height b <> currentHeight + 1)
              /\ (forall t, In t docs ->
                            tx_blockindex t <> currentHeight + 1))).
Proof.
  intros Hc. unfold getNextBlockHash. rewrite Hc. simpl.
  destruct (blocks db) as [bs|e] eqn:Hb; simpl.
  2:{ exists None. split; [reflexivity|]. split; [reflexivity|].
      discriminate. }
  unfold findOne at 1. rewrite hd_error_filter.
  destruct (find _ bs) as [b|] eqn:Fb.
  { exists (Some (bd_hash b)). split; [reflexivity|]. split; [discriminate|].
    intros bs' docs H1 _. inversion H1; subst bs'.
    apply find_some in Fb as Fb'. destruct Fb' as [B1 B2].
    apply Z.eqb_eq in B2. split; [|split].
    - intros b' Hb'. rewrite Fb in Hb'. now inversion Hb'.
    - intros h Hh. inversion Hh; subst. left. eauto.
    - split; [discriminate|]. intros [N _]. now destruct (N b B1). }
  destruct (txes db) as [docs|e] eqn:Ht; simpl.
  2:{ exists None. split; [reflexivity|]. split; [reflexivity|].
      discriminate. }
  assert (NoDoc : forall b, In b bs -> bd_height b <> currentHeight + 1).
  { intros b B1 B2. apply (find_none _ _ Fb) in B1.
    apply Z.eqb_neq in B1. contradiction. }
  destruct (findOne (sort_asc tx_timestamp _)) as [t|] eqn:Fx.
  - exists (Some (tx_blockhash t)). split; [reflexivity|].
    split; [discriminate|].
    intros bs' docs' H1 H2. inversion H1; subst bs'.
    inversion H2; subst docs'.
    apply findOne_sort_asc_min in Fx. destruct Fx as [X1 X2].
    apply filter_In in X1. destruct X1 as [X1 X3]. apply Z.eqb_eq in X3.
    split; [|split].
    + intros b Hb'. rewrite Fb in Hb'. discriminate.
    + intros h Hh. inversion Hh; subst. right. exists t.
      repeat split; auto. intros t' T1 T2. apply X2, filter_In.
      split; [exact T1 | now apply Z.eqb_eq].
    + split; [discriminate|]. intros [_ N]. now destruct (N t X1).
  - exists None. split; [reflexivity|]. split; [reflexivity|].
    intros bs' docs' H1 H2. inversion H1; subst bs'.
    inversion H2; subst docs'.
    apply findOne_sort_none in Fx.
    split; [|split].
    + intros b Hb'. rewrite Fb in Hb'. discriminate.
    + discriminate.
    + split; [|reflexivity]. intros _. split; [exact NoDoc|].
      intros t T1 T2.
      assert (In t (filter (fun t0 => tx_blockindex t0 =? currentHeight + 1)
                      docs)).
      { apply filter_In. split; [exact T1 | now apply Z.eqb_eq]. }
      rewrite Fx in H. destruct H.
Qed.

(** X23. A hash that names no block: with the log readable getBlockByHash
    answers null exactly when getTransactionsByBlockHash finds no
    transaction, and then without reading the network history; a block it
    does return carries the hash asked for and counts at least one
    transaction. *)
Theorem unknown_block_hash (w : World) (db : Database)
  (docs : list TransactionRecord) (h : string) :
  connectToDatabase w = Ok db ->
  txes db = Ok docs ->
  getTransactionsByBlockHash w h = Ok (group_of docs h)
  /\ (group_of docs h = [] <-> getBlockByHash w h = Ok None)
  /\ (forall b, getBlockByHash w h = Ok (Some b) ->
        bk_hash b = h
        /\ bk_txCount b = Z.of_nat (List.length (group_of docs h))
        /\ 1 <= bk_txCount b).
Proof.
  intros Hc Ht. unfold getTransactionsByBlockHash, getBlockByHash.
  rewrite Hc. simpl. rewrite Ht. simpl. fold (group_of docs h).
  split; [reflexivity|].
  destruct (group_of docs h) as [|t ts] eqn:E.
  - split; [tauto | discriminate].
  - destruct (networkhistories db) as [nhs|e]; simpl.
    + split; [split; discriminate|].
      intros b Hb. inversion Hb; subst b. simpl.
      repeat split; lia.
    + split; [split; discriminate | discriminate].
Qed.


(* ------------------------------------------------------------------ *)
(** ** The further properties at work on the concrete stores *)

Lemma example_txes_chain : chain_log example_txes.
Proof.
  intros t t' Ht Ht'. simpl in Ht, Ht'.
  destruct Ht as [<-|[<-|[<-|[]]]], Ht' as [<-|[<-|[<-|[]]]];
    simpl; split; intros H; try reflexivity; discriminate.
Qed.

Lemma chain_one_hash docs : chain_log docs -> one_hash_per_height docs.
Proof. intros C t t' H H' E. now apply (C t t' H H'). Qed.

Lemma chain_fixes_height docs : chain_log docs -> hash_fixes_height docs.
Proof. intros C t t' H H' E. now apply (C t t' H H'). Qed.

Lemma getLatestBlocks_highest_first_witness :
  (0 < 1)
  /\ (exists bs,
        getLatestBlocks example_world 1 = Ok bs
        /\ Z.of_nat (List.length bs) = 1
        /\ (forall b, In b bs ->
              height b = group_height example_txes (hash b))
        /\ (forall b, In b bs -> ~ In "h4" (map hash bs) -> 4 <= height b))
  /\ getLatestBlocks unreadable_log_world 1 = Ok [].
Proof.
  split; [lia|]. split.
  - destruct (getLatestBlocks_highest_first example_world 1)
      as (bs & H1 & _ & _ & _ & _ & H6).
    destruct (H6 example_db example_txes eq_refl eq_refl ltac:(lia))
      as (L & D & T).
    exists bs. split; [exact H1|]. split; [exact L|]. split.
    + intros b Hb. now apply D.
    + intros b Hb Hn. apply (T b "h4" Hb); [simpl; auto | exact Hn].
  - destruct (getLatestBlocks_highest_first unreadable_log_world 1)
      as (bs & H1 & _ & _ & _ & H5 & _).
    rewrite (H5 unreadable_log_db StorageError eq_refl eq_refl) in H1.
    exact H1.
Defined.

Lemma getLatestBlocks_is_first_page_witness :
  (connectToDatabase example_world = Ok example_db /\ 0 < 1)
  /\ exists r bs,
       getPaginatedBlocks example_world 1 1 = Ok r
       /\ getLatestBlocks example_world 1 = Ok bs
       /\ map block_key bs = map block_key (bp_blocks r).
Proof.
  split; [split; [reflexivity | lia]|].
  destruct (getLatestBlocks_is_first_page example_world example_db 1
              eq_refl ltac:(lia)) as (r & bs & H1 & H2 & _ & H4).
  destruct (H4 example_txes eq_refl) as (_ & _ & K).
  exists r, bs. split; [exact H1|]. split; [exact H2|].
  apply K, chain_one_hash, example_txes_chain.
Defined.

Lemma pages_cover_everything_witness :
  (0 < 1)
  /\ Permutation
       (map hash (flat_map (blocks_on_page example_world 1) (page_numbers 2)))
       ["h4"; "h5"]
  /\ Permutation
       (map tx_timestamp
          (flat_map (transactions_on_page example_world 1) (page_numbers 3)))
       [900; 1000; 1001].
Proof.
  split; [lia|].
  destruct (pages_cover_everything example_world example_db example_txes 1
              eq_refl eq_refl ltac:(lia))
    as [(_ & _ & _ & _ & B) (_ & T & _)].
  split; [|exact T].
  apply B, chain_one_hash, example_txes_chain.
Defined.

Lemma block_detail_agrees_with_list_witness :
  listed_block example_world example_block
  /\ exists docs b,
       txes example_db = Ok docs
       /\ getBlockByHash example_world (hash example_block) = Ok (Some b)
       /\ bk_txCount b = txCount example_block
       /\ bk_height b = height example_block.
Proof.
  assert (L : listed_block example_world example_block).
  { right. exists 10, [example_block; mkBlock "h4" 4 "h4" 900 1 VNull].
    split; [reflexivity | left; reflexivity]. }
  split; [exact L|].
  destruct (block_detail_agrees_with_list example_world example_db []
              example_block eq_refl eq_refl L)
    as (docs & b & H1 & H2 & _ & H4 & _ & _ & H7 & _).
  exists docs, b. split; [exact H1|]. split; [exact H2|].
  split; [exact H4|]. apply H7.
  assert (E : docs = example_txes) by (inversion H1; reflexivity).
  rewrite E. apply chain_fixes_height, example_txes_chain.
Defined.

Lemma block_detail_links_witness :
  getBlockByHash example_world "h5"
  = Ok (Some (mkBlockDetail "h5" 5 (Some "h4") 1000 2
                "Not available in this data model" (Some 0%Q) 0 0))
  /\ exists t, In t example_txes /\ tx_blockindex t = 5 - 1
               /\ tx_blockhash t = "h4".
Proof.
  split; [reflexivity|].
  destruct (block_detail_links example_world example_db example_txes [] "h5"
              (mkBlockDetail "h5" 5 (Some "h4") 1000 2
                 "Not available in this data model" (Some 0%Q) 0 0)
              eq_refl eq_refl eq_refl eq_refl) as [P _].
  simpl in P. destruct P as (t & T1 & T2 & T3 & _). exists t. auto.
Defined.

Lemma next_then_previous_witness :
  chain_log example_txes
  /\ exists b1,
       getBlockByHash log_only_world "h5" = Ok (Some b1)
       /\ bk_height b1 = 4 + 1
       /\ bk_previousblockhash b1 = Some "h4".
Proof.
  split; [exact example_txes_chain|].
  apply (next_then_previous log_only_world log_only_db example_txes [] []
           "h4" "h5"
           (mkBlockDetail "h4" 4 None 900 1
              "Not available in this data model" (Some 0%Q) 0 0)
           eq_refl eq_refl eq_refl eq_refl example_txes_chain
           (fun d (H : In d []) => match H with end) eq_refl eq_refl).
Defined.

Lemma mining_stats_sources_witness :
  coinstats example_db = Ok [mkCS 450000 135000000 3 8]
  /\ exists s ns,
       getMiningStats history_world = Ok s
       /\ getNetworkStats history_world = Ok ns
       /\ st_difficulty s = ns_difficulty_pow ns.
Proof.
  split; [reflexivity|].
  destruct (mining_stats_sources history_world history_db
              (mkCS 450000 135000000 3 8) [] example_history
              eq_refl eq_refl eq_refl)
    as (s & ns & H1 & H2 & _ & _ & H5 & _).
  exists s, ns. split; [exact H1|]. split; [exact H2|].
  apply H5. intros mi. discriminate.
Defined.

Lemma halving_table_follows_height_witness :
  (0 <= 450000)
  /\ exists s,
       getMiningStats example_world = Ok s
       /\ exists e, In e (halvingSchedule s) /\ hv_status e = active.
Proof.
  split; [lia|].
  destruct (halving_table_follows_height example_world example_db
              (mkCS 450000 135000000 3 8) [] [] eq_refl eq_refl eq_refl
              ltac:(simpl; lia))
    as (s & H1 & _ & _ & H4 & _).
  exists s. split; [exact H1|]. apply H4. vm_compute. discriminate.
Defined.

Lemma special_blocks_tolerate_failure_witness :
  (txes unreadable_log_db = Throw StorageError
   /\ exists s,
        getMiningStats unreadable_log_world = Ok s
        /\ map sb_height (specialBlocks s) = [1; 2; 3]
        /\ Forall (fun b => sb_hash b = None) (specialBlocks s))
  /\ (txes early_db = Ok early_txes
      /\ exists s,
           getMiningStats early_world = Ok s
           /\ map sb_hash (specialBlocks s) = [Some "h1"; None; Some "h3"]
           /\ Forall (fun b =>
                        match sb_hash b with
                        | Some h => exists t, In t early_txes
                                              /\ tx_blockindex t = sb_height b
                                              /\ tx_blockhash t = h
                        | None => forall t, In t early_txes ->
                                            tx_blockindex t <> sb_height b
                        end) (specialBlocks s)).
Proof.
  split; (split; [reflexivity|]).
  - destruct (special_blocks_tolerate_failure unreadable_log_world
                unreadable_log_db (mkCS 450000 135000000 3 8) [] []
                eq_refl eq_refl eq_refl)
      as (s & H1 & H2 & H3 & _).
    exists s. split; [exact H1|]. split; [exact H2|].
    apply (H3 StorageError eq_refl).
  - destruct (special_blocks_tolerate_failure early_world early_db
                (mkCS 3 900 2 8) [] [] eq_refl eq_refl eq_refl)
      as (s & H1 & _ & _ & H4).
    exists s. split; [exact H1|]. split; [|apply (H4 early_txes eq_refl)].
    assert (E : getMiningStats early_world = Ok s) by exact H1.
    vm_compute in E. inversion E. reflexivity.
Defined.



Lemma transaction_resolution_order_witness :
  txes example_db = Ok example_txes
  /\ getTransactionById example_world "t1" = Ok (Some (Confirmed tx_cb))
  /\ exists p,
       getTransactionById example_world "m1" = Ok (Some (Pending p))
       /\ p_isPending p = true
       /\ p_timestamp p = Some 1100.
Proof.
  split; [reflexivity|]. split.
  - apply (transaction_resolution_order example_world example_db example_txes
             "t1" eq_refl eq_refl).
  - destruct (transaction_resolution_order example_world example_db
                example_txes "m1" eq_refl eq_refl example_mempool eq_refl)
      as (p & H1 & H2 & H3 & _).
    exists p. auto.
Defined.

Lemma transaction_inputs_resolved_witness :
  getRawTransaction spend_world "m5" = Ok (Some spend_raw)
  /\ exists p,
       getTransactionById spend_world "m5" = Ok (Some (Pending p))
       /\ p_vin p = [mkTxIO "alice" 200000000; mkTxIO "unknown" 0]
       /\ Forall (input_origin spend_world
                    [mkRawIn None (Some "p1") 0; mkRawIn None (Some "p2") 0;
                     mkRawIn None (Some "p4") 0])
                 (p_vin p).
Proof.
  split; [reflexivity|].
  destruct (transaction_inputs_resolved spend_world spend_db example_txes
              [mkMP "m5" (Some 300) (Some 1500) None]
              (mkMP "m5" (Some 300) (Some 1500) None) "m5" spend_raw
              eq_refl eq_refl eq_refl eq_refl eq_refl eq_refl)
    as (p & H1 & H2 & _).
  exists p. split; [exact H1|]. split; [|exact H2].
  assert (E : getTransactionById spend_world "m5" = Ok (Some (Pending p)))
    by exact H1.
  vm_compute in E. inversion E. reflexivity.
Defined.

Lemma difficulty_history_bounded_witness :
  connectToDatabase example_world = Ok example_db
  /\ exists r,
       getDifficultyHistory example_world 3 = Ok r
       /\ Z.of_nat (List.length r) <= 3.
Proof.
  split; [reflexivity|].
  destruct (difficulty_history_bounded example_world example_db 3 eq_refl)
    as (r & H1 & H2 & _).
  exists r. split; [exact H1|]. apply H2. lia.
Defined.

Lemma price_failure_not_cached_witness :
  fetch_fails FetchRejects = true
  /\ final_cache None [mkQuery 0 FetchRejects 0; mkQuery 5 ResponseNotOk 5]
     = None.
Proof.
  split; [reflexivity|].
  apply (price_failure_not_cached None
           [mkQuery 0 FetchRejects 0; mkQuery 5 ResponseNotOk 5]).
  repeat constructor.
Defined.

Lemma rich_list_richest_witness :
  connectToDatabase example_world = Ok example_db
  /\ exists r,
       getRichList example_world (Ok example_addresses) 2 = Ok r
       /\ top_of balance example_addresses r
       /\ Z.of_nat (List.length r) = 2.
Proof.
  split; [reflexivity|].
  destruct (rich_list_richest example_world example_db example_addresses 2
              eq_refl) as (r & H1 & _ & H3 & H4 & _).
  exists r. split; [exact H1|]. split; [exact H3|].
  rewrite H4 by lia. reflexivity.
Defined.

Lemma recent_transactions_newest_witness :
  txes example_db = Ok example_txes
  /\ (exists ts,
        getRecentTransactions example_world 2 = Ok ts
        /\ top_of tx_timestamp example_txes ts
        /\ Z.of_nat (List.length ts) = 2)
  /\ getRecentTransactions unreadable_log_world 2 = Ok [].
Proof.
  split; [reflexivity|]. split.
  - destruct (recent_transactions_newest example_world 2)
      as (ts & H1 & _ & _ & _ & H5).
    destruct (H5 example_db example_txes eq_refl eq_refl) as (T & L & _).
    exists ts. split; [exact H1|]. split; [exact T|].
    rewrite L by lia. reflexivity.
  - destruct (recent_transactions_newest unreadable_log_world 2)
      as (ts & H1 & _ & _ & H4 & _).
    rewrite (H4 unreadable_log_db StorageError eq_refl eq_refl) in H1.
    exact H1.
Defined.


Lemma known_address_lookup_witness :
  getAddressTag "AREstbeSFzzbMGToUF6E2i3DbPa5nJB4Lz" = Some "NovaGrid"
  /\ getAddressTag "constructor" = None.
Proof.
  destruct known_address_lookup as (K1 & K2 & _).
  split.
  - apply (K1 (mkKnown "AREstbeSFzzbMGToUF6E2i3DbPa5nJB4Lz" "NovaGrid"
                 (Some "Mining Pool") (Some "https://novagrid.online/") pool)).
    unfold knownAddresses. simpl. auto 10.
  - apply K2. intros k Hk. unfold knownAddresses in Hk. simpl in Hk.
    repeat (destruct Hk as [<-|Hk]; [discriminate|]). destruct Hk.
Defined.

Lemma next_block_hash_sources_witness :
  connectToDatabase log_only_world = Ok log_only_db
  /\ exists r,
       getNextBlockHash log_only_world 5 = Ok r
       /\ (r = None <->
           (forall b, In b (@nil BlockDoc) -> bd_height b <> 5 + 1)
           /\ (forall t, In t example_txes -> tx_blockindex t <> 5 + 1)).
Proof.
  split; [reflexivity|].
  destruct (next_block_hash_sources log_only_world log_only_db 5 eq_refl)
    as (r & H1 & _ & H3).
  exists r. split; [exact H1|].
  apply (H3 [] example_txes eq_refl eq_refl).
Defined.

Lemma unknown_block_hash_witness :
  txes example_db = Ok example_txes
  /\ getBlockByHash example_world "nowhere" = Ok None.
Proof.
  split; [reflexivity|].
  apply (unknown_block_hash example_world example_db example_txes "nowhere"
           eq_refl eq_refl).
  reflexivity.
Defined.
